(** * accounting.py: [net_income]

    A shallow embedding of [src/accounting.py] and the properties of its
    one function, [net_income].

    Python's [float] is the IEEE-754 binary64 format.  It is modelled by
    the Standard Library's [spec_float] at precision 53 and maximal exponent
    1024, whose operations compute in [Z] and round to nearest, ties to
    even, like the hardware does.  Python's [int] is unbounded and is
    modelled by [Z].  The exceptions CPython raises from the operators the
    function uses are kept as an error result.

    The arguments [revenues] and [expenses] are taken to be floats, as
    annotated, and [decimals] to be an [int].

    Layout: the embedding; the definitions the statements need (stages of
    the computation, exact binary fractions, the formula in exact
    arithmetic, rounding to nearest); a theory of rounding for the
    library's operations; the properties of [net_income]. *)

From Stdlib Require Import ZArith Lia Bool List.
From Stdlib Require Import Floats Reals Lra.
Import ListNotations.

Local Open Scope Z_scope.

(** ** Python values and exceptions *)

Module Py.

(** The exceptions the arithmetic of [net_income] can raise. *)
Inductive exn : Set :=
  | OverflowError
  | ValueError
  | ZeroDivisionError.

(** Outcome of evaluating a Python expression. *)
Inductive result (A : Type) : Type :=
  | Ok (a : A)
  | Raise (e : exn).

Arguments Ok {A} a.
Arguments Raise {A} e.

Definition bind {A B : Type} (r : result A) (k : A -> result B) : result B :=
  match r with
  | Ok a => k a
  | Raise e => Raise e
  end.

Notation "x <- r ;; k" := (bind r (fun x => k))
  (at level 61, r at next level, right associativity).

(** A Python [float]: a binary64 number. *)
Definition float : Set := spec_float.

(** The numbers a Python expression of the function evaluates to. *)
Inductive num : Set :=
  | Int (z : Z)
  | Float (f : float).

Definition is_finite (x : float) : bool :=
  match x with
  | S754_zero _ | S754_finite _ _ _ => true
  | S754_infinity _ | S754_nan => false
  end.

(** A well-formed finite binary64 number: the only values of [spec_float]
    a finite Python float can take. *)
Definition finite64 (x : float) : bool :=
  is_finite x && valid_binary x.

(** The literal [0.5]. *)
Definition half : float := S754_finite false 4503599627370496 (-53).

(** [float(z)]: conversion of an [int], correctly rounded; CPython raises
    [OverflowError] when the integer exceeds the range of a double. *)
Definition float_of_int (z : Z) : result float :=
  match binary_normalize prec emax z 0 false with
  | S754_infinity _ => Raise OverflowError
  | f => Ok f
  end.

(** The [int] as a quotient operand: sign and magnitude at exponent 0. *)
Definition int_operand (z : Z) : float :=
  match z with
  | Z0 => S754_zero false
  | Zpos p => S754_finite false p 0
  | Zneg p => S754_finite true p 0
  end.

(** [a / b] on two [int]s: the quotient of the exact integers, correctly
    rounded; [ZeroDivisionError] for a zero divisor, [OverflowError] when
    the quotient exceeds the range of a double. *)
Definition int_truediv (a b : Z) : result float :=
  if b =? 0 then Raise ZeroDivisionError
  else
    match SF64div (int_operand a) (int_operand b) with
    | S754_infinity _ => Raise OverflowError
    | q => Ok q
    end.

(** [a / b] on two [float]s: IEEE division, except that a zero divisor
    raises. *)
Definition float_truediv (a b : float) : result float :=
  match b with
  | S754_zero _ => Raise ZeroDivisionError
  | _ => Ok (SF64div a b)
  end.

(** [pow(10.0, k)] of the C library for a whole [k < 0], taken to be
    correctly rounded: the double nearest to [1 / 10^(-k)], which
    underflows to [0.0] without an exception. *)
Definition float_pow10_neg (d : Z) : float :=
  SF64div (int_operand 1) (int_operand (10 ^ (- d))).

(** The whole number a double converted from an [int] stands for. *)
Definition int_value (y : float) : Z :=
  match y with
  | S754_finite s m e => Z.shiftl (cond_Zopp s (Zpos m)) e
  | _ => 0
  end.

(** [10 ** d]: an [int] for [d >= 0].  For [d < 0] CPython computes the
    power in floats: the exponent is converted to a double first, which
    raises [OverflowError] when it is out of range, and the result is
    [pow(10.0, float(d))]. *)
Definition pow10 (d : Z) : result num :=
  if 0 <=? d then Ok (Int (10 ^ d))
  else y <- float_of_int d ;; Ok (Float (float_pow10_neg (int_value y))).

(** [x * m] with [x] a [float]: an [int] operand is converted first. *)
Definition float_mul (x : float) (m : num) : result float :=
  match m with
  | Int z => y <- float_of_int z ;; Ok (SF64mul x y)
  | Float y => Ok (SF64mul x y)
  end.

(** [math.floor(x)]: the largest [int] not above [x]. *)
Definition math_floor (x : float) : result Z :=
  match x with
  | S754_nan => Raise ValueError
  | S754_infinity _ => Raise OverflowError
  | S754_zero _ => Ok 0
  | S754_finite s m e => Ok (Z.shiftl (cond_Zopp s (Zpos m)) e)
  end.

(** [n / m] with [n] an [int]. *)
Definition int_div_num (n : Z) (m : num) : result float :=
  match m with
  | Int z => int_truediv n z
  | Float y => x <- float_of_int n ;; float_truediv x y
  end.

End Py.

Import Py.

(** ** The function

<<
def net_income(revenues: float, expenses: float, decimals=2) -> float:
    multiplier = 10 ** decimals
    net_income = revenues - expenses
    return math.floor(net_income * multiplier + 0.5) / multiplier
>>
*)

Definition net_income (revenues expenses : float) (decimals : Z) : result float :=
  multiplier <- pow10 decimals ;;
  let net_income := SF64sub revenues expenses in
  scaled <- float_mul net_income multiplier ;;
  n <- math_floor (SF64add scaled half) ;;
  int_div_num n multiplier.

(** The call with [decimals] left to its default. *)
Definition net_income_default (revenues expenses : float) : result float :=
  net_income revenues expenses 2.

(** Float literals, read as the nearest binary64 number. *)
Definition lit (x : PrimFloat.float) : float := Prim2SF x.

(** The doubles nearest to 400.555, 599.44 and 599.45, the double just
    below 0.5 (0.49999999999999994) and the double nearest to 1e308. *)
Definition f400_555 : float := lit 0x1.908e147ae147bp+8.
Definition f599_44 : float := lit 0x1.2bb851eb851ecp+9.
Definition f599_45 : float := lit 0x1.2bb999999999ap+9.
Definition below_half : float := lit 0x1.fffffffffffffp-2.
Definition f1e308 : float := lit 0x1.1ccf385ebc8ap+1023.

(** ** Stages of the computation *)

(** [(revenues - expenses) * 10 ** decimals], as the function computes it. *)
Definition scaled_difference (r e : float) (d : Z) : result float :=
  multiplier <- pow10 d ;; float_mul (SF64sub r e) multiplier.

(** The argument of [math.floor], for a non-negative [decimals]. *)
Definition scaled_sum (r e : float) (d : Z) : result float :=
  M <- float_of_int (10 ^ d) ;; Ok (SF64add (SF64mul (SF64sub r e) M) half).

(** The integer number of units [10 ** -decimals] the function divides. *)
Definition net_income_units (r e : float) (d : Z) : result Z :=
  x <- scaled_sum r e d ;; math_floor x.

(** ** Exact binary fractions

    [(z, e)] stands for [z * 2^e].  Sums, differences and products of
    doubles are such fractions, so the formula of the specification can be
    evaluated without rounding up to its final quotient. *)

Definition dyadic : Set := (Z * Z)%type.

Definition dy_of (x : float) : dyadic :=
  match x with
  | S754_finite s m e => (cond_Zopp s (Zpos m), e)
  | _ => (0, 0)
  end.

Definition dy_align (a : dyadic) (e : Z) : Z := fst a * 2 ^ (snd a - e).

Definition dy_add (a b : dyadic) : dyadic :=
  let e := Z.min (snd a) (snd b) in (dy_align a e + dy_align b e, e).

Definition dy_sub (a b : dyadic) : dyadic :=
  let e := Z.min (snd a) (snd b) in (dy_align a e - dy_align b e, e).

Definition dy_mul (a b : dyadic) : dyadic := (fst a * fst b, snd a + snd b).

Definition dy_eqb (a b : dyadic) : bool :=
  let e := Z.min (snd a) (snd b) in dy_align a e =? dy_align b e.

Definition dy_floor (a : dyadic) : Z := Z.shiftl (fst a) (snd a).

Definition dy_half : dyadic := (1, -1).

(** ** The formula of the specification

    [floor((revenues - expenses) * 10^decimals + 0.5) / 10^decimals] on the
    real numbers the arguments stand for: the integer is computed exactly,
    the quotient is the double nearest to it. *)

Definition exact_units (r e : float) (d : Z) : Z :=
  dy_floor (dy_add (dy_mul (dy_sub (dy_of r) (dy_of e)) (10 ^ d, 0)) dy_half).

Definition spec_net_income (r e : float) (d : Z) : result float :=
  int_truediv (exact_units r e d) (10 ^ d).

(** [(revenues - expenses) * 10^decimals] on the real numbers the
    arguments stand for. *)
Definition exact_scaled (r e : float) (d : Z) : dyadic :=
  dy_mul (dy_sub (dy_of r) (dy_of e)) (10 ^ d, 0).




(** The subtraction, the multiplication and the addition of the function
    are all three exact on these arguments. *)
Definition exact_steps (r e : float) (d : Z) : bool :=
  match float_of_int (10 ^ d) with
  | Ok M =>
      let raw := SF64sub r e in
      let scaled := SF64mul raw M in
      let x := SF64add scaled half in
      is_finite raw && dy_eqb (dy_of raw) (dy_sub (dy_of r) (dy_of e)) &&
      (is_finite scaled && dy_eqb (dy_of scaled) (dy_mul (dy_of raw) (10 ^ d, 0))) &&
      (is_finite x && dy_eqb (dy_of x) (dy_add (dy_of scaled) dy_half))
  | Raise _ => false
  end.

(** [x] is an integer plus one half: its fractional part is exactly 1/2. *)
Definition halfway (x : float) : bool :=
  match x with
  | S754_finite _ m e => (e <? 0) && (Zpos m mod 2 ^ (- e) =? 2 ^ (- e - 1))
  | _ => false
  end.

(** The addition of [0.5] to [x] is exact. *)
Definition add_half_exact (x : float) : bool :=
  is_finite (SF64add x half) &&
  dy_eqb (dy_of (SF64add x half)) (dy_add (dy_of x) dy_half).

(** The fractional part of [x], its distance to its floor, is at least one
    half. *)
Definition at_least_half (x : float) : bool :=
  match x with
  | S754_finite s m e =>
      (e <? 0) && (2 ^ (- e - 1) <=? cond_Zopp s (Zpos m) mod 2 ^ (- e))
  | _ => false
  end.

(** The four results as the specification lists them. *)
Definition listed_results : Prop :=
  net_income_default (lit 1000) (lit 400) = Ok (lit 600) /\
  net_income (lit 1000) f400_555 2 = Ok f599_45 /\
  net_income (lit 10) (lit 3) 0 = Ok (lit 7) /\
  net_income (lit 0) (lit 0) 0 = Ok (lit 0).

(** The largest finite double, an integer. *)
Definition max_int : Z := 9007199254740991 * 2 ^ 971.

(** The least magnitude of an [int] that does not convert to a double:
    halfway between the largest double and [2^1024]. *)
Definition int_overflow : Z := 2 ^ 1024 - 2 ^ 970.

(** ** Rounding to nearest, ties to even

    The real number a float or a fraction stands for, and what it means for
    a float to be the rounding of a real number. *)

Definition bpow (e : Z) : R := powerRZ 2 e.

Definition SF2R (x : float) : R :=
  match x with
  | S754_finite s m e => (IZR (cond_Zopp s (Zpos m)) * bpow e)%R
  | _ => 0%R
  end.

Definition D2R (a : dyadic) : R := (IZR (fst a) * bpow (snd a))%R.

(** The unit in the last place of a finite double. *)
Definition ulp (f : float) : R :=
  match f with
  | S754_finite _ _ e => bpow e
  | _ => bpow (-1074)
  end.

(** [t] lies in the cell [[m, m + 1)], at the place the location tells:
    on [m], below, on or above the middle. *)
Definition within (m : Z) (l : location) (t : R) : Prop :=
  match l with
  | loc_Exact => t = IZR m
  | loc_Inexact Lt => (IZR m < t < IZR m + / 2)%R
  | loc_Inexact Eq => t = (IZR m + / 2)%R
  | loc_Inexact Gt => (IZR m + / 2 < t < IZR m + 1)%R
  end.

(** A canonical magnitude: a mantissa below 2^53 at an exponent from -1074
    on, with its leading bit set above -1074.  The exponent is not bounded
    above: a pair beyond 971 stands for an overflow. *)
Definition canon (m e : Z) : Prop :=
  0 <= m < 9007199254740992 /\ -1074 <= e /\
  (-1074 < e -> 4503599627370496 <= m).

(** [m * 2^e] is a nearest canonical magnitude to [x], the even one at a
    tie.  Below a power of two the neighbour is twice as near. *)
Definition nearest (m e : Z) (x : R) : Prop :=
  let t := (x / bpow e)%R in
  ((if (m =? 4503599627370496) && (-1074 <? e)
    then IZR m - / 4 else IZR m - / 2) <= t <= IZR m + / 2)%R /\
  (t = (IZR m - / 2)%R -> Z.even m = true) /\
  (t = (IZR m + / 2)%R -> Z.even m = true).

(** The float of a sign and a canonical magnitude. *)
Definition decode (s : bool) (m e : Z) : float :=
  match m with
  | Z0 => S754_zero s
  | Zpos p => if e <=? emax - prec then S754_finite s p e else S754_infinity s
  | Zneg _ => S754_nan
  end.

(** [f] is the rounding of the real number [v]. *)
Definition rounds_to (v : R) (f : float) : Prop :=
  exists m e s,
    canon m e /\ nearest m e (Rabs v) /\ f = decode s m e /\
    ((0 < v)%R -> s = false) /\ ((v < 0)%R -> s = true).

(** The position of a magnitude on the grid of step [2^-1074]. *)
Definition ord (m e : Z) : Z := m * 2 ^ (e + 1074).

(** The position of a rounded magnitude, infinities at the first exponent
    beyond the finite range. *)
Definition cap (m e : Z) : Z :=
  if e <=? 971 then ord m e else ord 4503599627370496 972.

(** The signed position of a float. *)
Definition fpos (x : float) : Z :=
  match x with
  | S754_zero _ | S754_nan => 0
  | S754_finite s m e => cond_Zopp s (ord (Zpos m) e)
  | S754_infinity s => cond_Zopp s (ord 4503599627370496 972)
  end.

(** * Lemmas *)

(** ** Literals

    The named literals are the doubles nearest to the decimal numbers they
    are named after: the correctly rounded quotients of the integers. *)

Example half_lit : lit 0.5 = half.
Proof. vm_compute. reflexivity. Qed.

Example f400_555_nearest : int_truediv 400555 1000 = Ok f400_555.
Proof. vm_compute. reflexivity. Qed.

Example f599_44_nearest : int_truediv 59944 100 = Ok f599_44.
Proof. vm_compute. reflexivity. Qed.

Example f599_45_nearest : int_truediv 59945 100 = Ok f599_45.
Proof. vm_compute. reflexivity. Qed.

Example below_half_pred : below_half = S754_finite false 9007199254740991 (-54).
Proof. vm_compute. reflexivity. Qed.

Example f1e308_nearest : float_of_int (10 ^ 308) = Ok f1e308.
Proof. vm_compute. reflexivity. Qed.

(** ** Powers of two and binary digits *)

Lemma bpow_gt_0 e : (0 < bpow e)%R.
Proof. apply powerRZ_lt. lra. Qed.

Lemma bpow_plus a b : bpow (a + b) = (bpow a * bpow b)%R.
Proof. apply powerRZ_add. lra. Qed.

Lemma bpow_0 : bpow 0 = 1%R.
Proof. reflexivity. Qed.

Lemma bpow_1 : bpow 1 = 2%R.
Proof. unfold bpow. simpl. lra. Qed.

Lemma bpow_succ e : bpow (e + 1) = (2 * bpow e)%R.
Proof. rewrite bpow_plus, bpow_1. lra. Qed.

Lemma bpow_pred e : bpow (e - 1) = (bpow e / 2)%R.
Proof.
  replace e with ((e - 1) + 1) at 2 by lia. rewrite bpow_succ. lra.
Qed.

Lemma bpow_IZR n : 0 <= n -> bpow n = IZR (2 ^ n).
Proof.
  intros Hn. pattern n. apply natlike_ind; [reflexivity | | exact Hn].
  intros k Hk IH. unfold Z.succ. rewrite bpow_succ, IH, Z.pow_add_r by lia.
  rewrite mult_IZR. change (2 ^ 1) with 2. lra.
Qed.

Lemma bpow_ge_1 n : 0 <= n -> (1 <= bpow n)%R.
Proof.
  intros Hn. rewrite bpow_IZR by exact Hn. apply IZR_le.
  assert (0 < 2 ^ n) by (apply Z.pow_pos_nonneg; lia). lia.
Qed.

Lemma bpow_le a b : a <= b -> (bpow a <= bpow b)%R.
Proof.
  intros H. replace b with (a + (b - a)) by lia. rewrite bpow_plus.
  pose proof (bpow_gt_0 a). pose proof (bpow_ge_1 (b - a) ltac:(lia)). nra.
Qed.

Lemma bpow_lt a b : a < b -> (2 * bpow a <= bpow b)%R.
Proof.
  intros H. rewrite <- bpow_succ. apply bpow_le. lia.
Qed.

Lemma digits2_pos_size p : digits2_pos p = Pos.size p.
Proof. induction p as [p IH | p IH |]; simpl; congruence. Qed.

Lemma Zdigits2_bounds m : 0 < m -> 2 ^ (Zdigits2 m - 1) <= m < 2 ^ Zdigits2 m.
Proof.
  destruct m as [|p|p]; try lia. intros _. simpl Zdigits2.
  rewrite digits2_pos_size.
  pose proof (Pos.size_gt p) as Hgt. pose proof (Pos.size_le p) as Hle.
  apply Pos2Z.pos_lt_pos in Hgt. apply Pos2Z.pos_le_pos in Hle.
  rewrite Pos2Z.inj_pow in Hgt, Hle.
  replace (Z.pos (Pos.size p)) with ((Z.pos (Pos.size p) - 1) + 1) in Hle by lia.
  rewrite Z.pow_add_r in Hle by lia. change (2 ^ 1) with 2 in Hle.
  lia.
Qed.

Lemma Zdigits2_pos m : 0 < m -> 0 < Zdigits2 m.
Proof. destruct m; simpl; lia. Qed.

Lemma pow2_lt_inv a b : 0 <= b -> 2 ^ a < 2 ^ b -> a < b.
Proof.
  intros Hb H. destruct (Z_lt_le_dec a b) as [|Hle]; [assumption|].
  apply (Z.pow_le_mono_r 2) in Hle; lia.
Qed.

Lemma Zdigits2_unique m d : 0 < d -> 2 ^ (d - 1) <= m < 2 ^ d -> Zdigits2 m = d.
Proof.
  intros Hd H.
  assert (0 < m) by (assert (0 < 2 ^ (d - 1)) by (apply Z.pow_pos_nonneg; lia); lia).
  pose proof (Zdigits2_bounds m ltac:(assumption)) as Hb.
  pose proof (Zdigits2_pos m ltac:(assumption)) as Hp.
  assert (Zdigits2 m - 1 < d) by (apply pow2_lt_inv; lia).
  assert (d - 1 < Zdigits2 m) by (apply pow2_lt_inv; lia).
  lia.
Qed.

(** ** Shifting a mantissa right *)

Lemma IZR_xO p : IZR (Z.pos p~0) = (2 * IZR (Z.pos p))%R.
Proof. change (Z.pos p~0) with (2 * Z.pos p). rewrite mult_IZR. reflexivity. Qed.

Lemma IZR_xI p : IZR (Z.pos p~1) = (2 * IZR (Z.pos p) + 1)%R.
Proof.
  change (Z.pos p~1) with (2 * Z.pos p + 1). rewrite plus_IZR, mult_IZR. reflexivity.
Qed.

Lemma shr_1_within mrs t :
  0 <= shr_m mrs ->
  within (shr_m mrs) (loc_of_shr_record mrs) t ->
  within (shr_m (shr_1 mrs)) (loc_of_shr_record (shr_1 mrs)) (t / 2).
Proof.
  destruct mrs as [m r s]. cbn [shr_m]. intros Hm.
  destruct m as [|p|p].
  - destruct r, s; cbn [shr_1 shr_m loc_of_shr_record within orb]; intros H; lra.
  - destruct p as [p|p|];
      [pose proof (IZR_xI p) as E | pose proof (IZR_xO p) as E | ];
      destruct r, s; cbn [shr_1 shr_m loc_of_shr_record within orb];
      intros H; lra.
  - exfalso. apply Hm. reflexivity.
Qed.

Lemma shr_1_m mrs : 0 <= shr_m mrs -> shr_m (shr_1 mrs) = shr_m mrs / 2.
Proof.
  destruct mrs as [m r s]. cbn [shr_m]. intros Hm.
  destruct m as [|[p|p|]|]; try lia; cbn [shr_1 shr_m].
  - reflexivity.
  - apply (Z.div_unique (Z.pos p~1) 2 (Z.pos p) 1); lia.
  - apply (Z.div_unique (Z.pos p~0) 2 (Z.pos p) 0); lia.
  - reflexivity.
Qed.

Lemma iter_pos_nat {A} (f : A -> A) p x :
  SpecFloat.iter_pos f p x = Nat.iter (Pos.to_nat p) f x.
Proof.
  revert x. induction p as [p IH | p IH |]; intros x; cbn [SpecFloat.iter_pos].
  - rewrite !IH, Pos2Nat.inj_xI.
    replace (S (2 * Pos.to_nat p)) with (Pos.to_nat p + (Pos.to_nat p + 1))%nat by lia.
    rewrite !Nat.iter_add. reflexivity.
  - rewrite !IH, Pos2Nat.inj_xO.
    replace (2 * Pos.to_nat p)%nat with (Pos.to_nat p + Pos.to_nat p)%nat by lia.
    rewrite Nat.iter_add. reflexivity.
  - reflexivity.
Qed.

Lemma iter_shr_1 (k : nat) mrs t :
  0 <= shr_m mrs ->
  within (shr_m mrs) (loc_of_shr_record mrs) t ->
  let mrs' := Nat.iter k shr_1 mrs in
  within (shr_m mrs') (loc_of_shr_record mrs') (t / bpow (Z.of_nat k)) /\
  shr_m mrs' = shr_m mrs / 2 ^ Z.of_nat k.
Proof.
  intros Hm H. induction k as [|k IH].
  - cbn [Nat.iter]. change (Z.of_nat 0) with 0.
    rewrite bpow_0, Z.pow_0_r, Z.div_1_r. split; [|reflexivity].
    replace (t / 1)%R with t by lra. exact H.
  - destruct IH as [IHw IHm]. cbn zeta in *. simpl Nat.iter.
    assert (0 <= shr_m (Nat.iter k shr_1 mrs)) as Hk.
    { rewrite IHm. apply Z.div_pos; [lia | apply Z.pow_pos_nonneg; lia]. }
    split.
    + rewrite Nat2Z.inj_succ. unfold Z.succ. rewrite bpow_succ.
      pose proof (bpow_gt_0 (Z.of_nat k)) as Hb.
      replace (t / (2 * bpow (Z.of_nat k)))%R with (t / bpow (Z.of_nat k) / 2)%R
        by (field; lra).
      apply shr_1_within; assumption.
    + rewrite shr_1_m by exact Hk. rewrite IHm.
      rewrite Nat2Z.inj_succ. unfold Z.succ. rewrite Z.pow_add_r by lia.
      change (2 ^ 1) with 2. rewrite Z.div_div; lia.
Qed.

Lemma loc_of_shr_record_of_loc m l :
  loc_of_shr_record (shr_record_of_loc m l) = l /\ shr_m (shr_record_of_loc m l) = m.
Proof. destruct l as [|[]]; split; reflexivity. Qed.

(** Shifting a cell right by [n] bits keeps the number it locates. *)
Lemma shr_within m l e n t :
  0 <= m -> within m l t ->
  let '(mrs', e') := shr (shr_record_of_loc m l) e n in
  e' = e + Z.max n 0 /\
  within (shr_m mrs') (loc_of_shr_record mrs') (t / bpow (Z.max n 0)) /\
  shr_m mrs' = m / 2 ^ Z.max n 0.
Proof.
  intros Hm H. destruct (loc_of_shr_record_of_loc m l) as [Hl Hs].
  destruct n as [|p|p]; unfold shr.
  - change (Z.max 0 0) with 0. rewrite Hl, Hs, Z.pow_0_r, Z.div_1_r, bpow_0.
    repeat split; try lia. replace (t / 1)%R with t by lra. exact H.
  - rewrite iter_pos_nat.
    replace (Z.max (Z.pos p) 0) with (Z.of_nat (Pos.to_nat p)) by lia.
    pose proof (iter_shr_1 (Pos.to_nat p) (shr_record_of_loc m l) t) as Hi.
    rewrite Hl, Hs in Hi. specialize (Hi Hm H). cbn zeta in Hi.
    destruct Hi as [Hw Hd]. repeat split; try assumption. lia.
  - change (Z.max (Z.neg p) 0) with 0. rewrite Hl, Hs, Z.pow_0_r, Z.div_1_r, bpow_0.
    repeat split; try lia. replace (t / 1)%R with t by lra. exact H.
Qed.

(** ** Canonical magnitudes *)

Lemma fexp_eq k : fexp prec emax k = Z.max (k - 53) (-1074).
Proof. reflexivity. Qed.

Lemma pow2_52 : 2 ^ 52 = 4503599627370496.
Proof. reflexivity. Qed.

Lemma pow2_53 : 2 ^ 53 = 9007199254740992.
Proof. reflexivity. Qed.

Lemma div_pow2_lt m n k : 0 <= n -> 0 <= k -> m < 2 ^ (k + n) -> m / 2 ^ n < 2 ^ k.
Proof.
  intros Hn Hk H. apply Z.div_lt_upper_bound.
  - apply Z.pow_pos_nonneg; lia.
  - rewrite Z.pow_add_r in H by lia. lia.
Qed.

Lemma div_pow2_ge m n k : 0 <= n -> 0 <= k -> 2 ^ (k + n) <= m -> 2 ^ k <= m / 2 ^ n.
Proof.
  intros Hn Hk H. apply Z.div_le_lower_bound.
  - apply Z.pow_pos_nonneg; lia.
  - rewrite Z.pow_add_r in H by lia. lia.
Qed.

(** The first shift of [binary_round_aux] leaves a canonical pair. *)
Lemma shift_canon m e :
  0 <= m -> e <= fexp prec emax (Zdigits2 m + e) ->
  let e1 := fexp prec emax (Zdigits2 m + e) in
  canon (m / 2 ^ (e1 - e)) e1.
Proof.
  intros Hm He. cbn zeta. rewrite fexp_eq in *. unfold canon.
  assert (0 < 2 ^ (Z.max (Zdigits2 m + e - 53) (-1074) - e)) as Hp
    by (apply Z.pow_pos_nonneg; lia).
  destruct (Z.eq_dec m 0) as [-> | Hnz].
  - rewrite Z.div_0_l by lia. cbn [Zdigits2] in *. lia.
  - assert (0 < m) as Hpos by lia.
    pose proof (Zdigits2_bounds m Hpos) as [Hlo Hhi].
    pose proof (Zdigits2_pos m Hpos) as Hd.
    set (d := Zdigits2 m) in *.
    destruct (Z.max_spec (d + e - 53) (-1074)) as [[Hlt ->] | [Hge ->]].
    + (* subnormal exponent *)
      assert (m / 2 ^ (-1074 - e) < 2 ^ 52) as Hb.
      { apply div_pow2_lt; try lia.
        eapply Z.lt_le_trans; [exact Hhi|]. apply Z.pow_le_mono_r; lia. }
      rewrite pow2_52 in Hb.
      assert (0 <= m / 2 ^ (-1074 - e)) by (apply Z.div_pos; lia).
      lia.
    + replace (d + e - 53 - e) with (d - 53) in * by lia.
      assert (0 <= d - 53) as Hn by lia.
      assert (m / 2 ^ (d - 53) < 2 ^ 53) as Hb1.
      { apply div_pow2_lt; try lia. replace (53 + (d - 53)) with d by lia. exact Hhi. }
      assert (2 ^ 52 <= m / 2 ^ (d - 53)) as Hb2.
      { apply div_pow2_ge; try lia. replace (52 + (d - 53)) with (d - 1) by lia. exact Hlo. }
      rewrite pow2_52 in Hb2. rewrite pow2_53 in Hb1. lia.
Qed.

(** A canonical pair is left alone by the second shift. *)
Lemma canon_fexp m e :
  canon m e -> fexp prec emax (Zdigits2 m + e) = e.
Proof.
  intros (Hm & He & Hn). rewrite fexp_eq.
  destruct (Z.eq_dec m 0) as [-> | Hnz].
  - cbn [Zdigits2]. lia.
  - assert (0 < m) as Hpos by lia.
    pose proof (Zdigits2_bounds m Hpos) as [Hlo Hhi].
    pose proof (Zdigits2_pos m Hpos) as Hd.
    set (d := Zdigits2 m) in *.
    assert (d - 1 < 53) by (apply pow2_lt_inv; [lia | rewrite pow2_53; lia]).
    destruct (Z.eq_dec e (-1074)) as [-> | Hne]; [lia|].
    assert (52 < d) by (apply pow2_lt_inv; [lia | rewrite pow2_52; lia]).
    lia.
Qed.

Lemma round_nearest_even_within m l t :
  within m l t ->
  let m2 := round_nearest_even m l in
  (m2 = m /\ (IZR m <= t <= IZR m + / 2)%R /\ (t = (IZR m + / 2)%R -> Z.even m = true)) \/
  (m2 = m + 1 /\ (IZR m + / 2 <= t < IZR m + 1)%R /\ (t = (IZR m + / 2)%R -> Z.even m = false)).
Proof.
  destruct l as [|[]]; cbn [within round_nearest_even]; intros H.
  - left. split; [reflexivity|]. split; [lra|]. intros; lra.
  - destruct (Z.even m) eqn:Ev.
    + left. split; [reflexivity|]. split; [lra|]. auto.
    + right. split; [reflexivity|]. split; [lra|]. auto.
  - left. split; [reflexivity|]. split; [lra|]. intros; lra.
  - right. split; [reflexivity|]. split; [lra|]. intros; lra.
Qed.

(** ** What [binary_round_aux] returns *)

Lemma even_succ_of_odd m : Z.even m = false -> Z.even (m + 1) = true.
Proof.
  intros H. change (m + 1) with (Z.succ m). rewrite Z.even_succ, <- Z.negb_even, H.
  reflexivity.
Qed.

Lemma div_bpow_split x e e1 : (x / bpow e / bpow (e1 - e) = x / bpow e1)%R.
Proof.
  replace e1 with (e + (e1 - e)) at 2 by lia. rewrite bpow_plus.
  pose proof (bpow_gt_0 e). pose proof (bpow_gt_0 (e1 - e)). field. lra.
Qed.

Lemma binary_round_aux_nearest s m e l x :
  0 <= m -> e <= fexp prec emax (Zdigits2 m + e) -> within m l (x / bpow e) ->
  exists m' e', canon m' e' /\ nearest m' e' x /\
    binary_round_aux prec emax s m e l = decode s m' e'.
Proof.
  intros Hm He Hw. unfold binary_round_aux, shr_fexp.
  pose proof (shift_canon m e Hm He) as Hc1. cbn zeta in Hc1.
  set (e1 := fexp prec emax (Zdigits2 m + e)) in *.
  pose proof (shr_within m l e (e1 - e) (x / bpow e) Hm Hw) as Hs.
  destruct (shr (shr_record_of_loc m l) e (e1 - e)) as [mrs1 e1'].
  destruct Hs as (He1 & Hw1 & Hm1).
  assert (Z.max (e1 - e) 0 = e1 - e) as Emax by lia.
  rewrite Emax in He1. rewrite Emax in Hw1. rewrite Emax in Hm1. clear Emax.
  assert (e1' = e1) as Ee by lia. clear He1. subst e1'.
  rewrite <- Hm1 in Hc1. rewrite div_bpow_split in Hw1.
  set (m1 := shr_m mrs1) in *. set (l1 := loc_of_shr_record mrs1) in *.
  pose proof (round_nearest_even_within m1 l1 _ Hw1) as Hr. cbn zeta in Hr.
  set (m2 := round_nearest_even m1 l1) in *.
  set (t := (x / bpow e1)%R) in *.
  destruct Hc1 as (Hb1 & He1 & Hn1).
  destruct (Z.eq_dec m2 9007199254740992) as [E2 | N2].
  - (* the rounded mantissa reaches 2^53: one more shift *)
    rewrite E2.
    change (Zdigits2 9007199254740992) with 54. rewrite fexp_eq.
    replace (Z.max (54 + e1 - 53) (-1074) - e1) with 1 by lia.
    cbn [shr shr_record_of_loc SpecFloat.iter_pos shr_1 shr_m orb].
    exists 4503599627370496, (e1 + 1). split; [|split].
    + unfold canon. lia.
    + destruct Hr as [(E & _) | (E & Ht & _)]; [lia|].
      assert (IZR m1 = 9007199254740991%R) as Em1.
      { replace m1 with 9007199254740991 by lia. reflexivity. }
      unfold nearest. cbn zeta. rewrite bpow_succ.
      pose proof (bpow_gt_0 e1) as Hb.
      replace (x / (2 * bpow e1))%R with (t / 2)%R by (unfold t; field; lra).
      replace (-1074 <? e1 + 1) with true by (symmetry; apply Z.ltb_lt; lia).
      cbn [Z.eqb Pos.eqb andb]. repeat split; try lra; reflexivity.
    + reflexivity.
  - assert (canon m2 e1) as Hc2.
    { unfold canon. destruct Hr as [(E & _) | (E & _)]; lia. }
    rewrite (canon_fexp m2 e1 Hc2), Z.sub_diag.
    cbn [shr shr_record_of_loc shr_m].
    exists m2, e1. split; [exact Hc2 | split; [|reflexivity]].
    unfold nearest. cbn zeta. fold t.
    destruct Hr as [(E & Ht & Hev) | (E & Ht & Hev)].
    + rewrite E. repeat split.
      * destruct ((m1 =? 4503599627370496) && (-1074 <? e1)); lra.
      * lra.
      * intros; lra.
      * exact Hev.
    + rewrite E, plus_IZR. repeat split.
      * destruct ((m1 + 1 =? 4503599627370496) && (-1074 <? e1)) eqn:Eb; [|lra].
        apply andb_true_iff in Eb. destruct Eb as [Eb1 Eb2].
        apply Z.eqb_eq in Eb1. apply Z.ltb_lt in Eb2. lia.
      * lra.
      * intros Ht'. apply even_succ_of_odd. apply Hev. lra.
      * intros; lra.
Qed.

(** ** Rounding to nearest is monotone and exact on representable numbers *)

Lemma nearest_bounds m e x :
  nearest m e x ->
  let t := (x / bpow e)%R in
  (IZR m - / 2 <= t <= IZR m + / 2)%R /\ x = (t * bpow e)%R.
Proof.
  intros (Hb & _). cbn zeta in *. pose proof (bpow_gt_0 e) as Hp. split.
  - destruct ((m =? 4503599627370496) && (-1074 <? e)); lra.
  - field. lra.
Qed.

Lemma IZR_lt_succ a b : a < b -> (IZR a + 1 <= IZR b)%R.
Proof. intros H. rewrite <- plus_IZR. apply IZR_le. lia. Qed.

Lemma ord_lt_exp m1 e1 m2 e2 :
  canon m1 e1 -> canon m2 e2 -> e1 < e2 -> ord m1 e1 < ord m2 e2.
Proof.
  intros (Hm1 & He1 & _) (Hm2 & He2 & Hn2) Hlt. unfold ord.
  replace (e2 + 1074) with ((e2 - e1 - 1) + 1 + (e1 + 1074)) by lia.
  rewrite (Z.pow_add_r 2 (e2 - e1 - 1 + 1) (e1 + 1074)) by lia.
  rewrite (Z.pow_add_r 2 (e2 - e1 - 1) 1) by lia. change (2 ^ 1) with 2.
  assert (0 < 2 ^ (e1 + 1074)) by (apply Z.pow_pos_nonneg; lia).
  assert (0 < 2 ^ (e2 - e1 - 1)) by (apply Z.pow_pos_nonneg; lia).
  specialize (Hn2 ltac:(lia)).
  set (P := 2 ^ (e1 + 1074)) in *. set (Q := 2 ^ (e2 - e1 - 1)) in *.
  assert (m1 * P < 9007199254740992 * P) by nia.
  assert (9007199254740992 * P <= m2 * 2 * P) by nia.
  assert (0 <= m2 * 2 * P) by nia.
  assert (m2 * 2 * P * 1 <= m2 * 2 * P * Q) by (apply Z.mul_le_mono_nonneg_l; lia).
  replace (m2 * (Q * 2 * P)) with (m2 * 2 * P * Q) by ring. lia.
Qed.

(** Rounding to nearest is monotone. *)
Lemma nearest_mono m1 e1 m2 e2 x1 x2 :
  canon m1 e1 -> canon m2 e2 -> nearest m1 e1 x1 -> nearest m2 e2 x2 ->
  (x1 <= x2)%R -> ord m1 e1 <= ord m2 e2.
Proof.
  intros Hc1 Hc2 Hn1 Hn2 Hx.
  destruct (Z_le_gt_dec (ord m1 e1) (ord m2 e2)) as [|Hgt]; [assumption | exfalso].
  destruct (Z.lt_trichotomy e1 e2) as [Hlt | [Heq | Hlt]].
  - pose proof (ord_lt_exp m1 e1 m2 e2 Hc1 Hc2 Hlt). lia.
  - subst e2. unfold ord in Hgt.
    assert (0 < 2 ^ (e1 + 1074)) by (apply Z.pow_pos_nonneg; destruct Hc1 as (_ & ? & _); lia).
    assert (m2 < m1) as Hm by nia.
    pose proof (IZR_lt_succ _ _ Hm) as Hi.
    destruct Hn1 as (Hb1 & Hl1 & _). destruct Hn2 as (Hb2 & _ & Hh2). cbn zeta in *.
    pose proof (bpow_gt_0 e1) as Hp.
    assert (x1 / bpow e1 <= x2 / bpow e1)%R as Ht.
    { unfold Rdiv. apply Rmult_le_compat_r; [|exact Hx].
      apply Rlt_le, Rinv_0_lt_compat, Hp. }
    set (t1 := (x1 / bpow e1)%R) in *. set (t2 := (x2 / bpow e1)%R) in *.
    destruct ((m1 =? 4503599627370496) && (-1074 <? e1)); [lra|].
    assert (t1 = IZR m1 - / 2)%R as E1 by lra.
    assert (t2 = IZR m2 + / 2)%R as E2 by lra.
    assert (m1 = m2 + 1) as Em.
    { apply eq_IZR. rewrite plus_IZR. lra. }
    specialize (Hl1 E1). specialize (Hh2 E2). subst m1.
    change (m2 + 1) with (Z.succ m2) in Hl1.
    rewrite Z.even_succ, <- Z.negb_even, Hh2 in Hl1. discriminate.
  - (* e2 < e1 *)
    destruct Hc1 as (Hm1 & He1 & Hnorm1). destruct Hc2 as (Hm2 & He2 & _).
    specialize (Hnorm1 ltac:(lia)).
    destruct Hn1 as (Hb1 & _ & _). destruct Hn2 as (Hb2 & _ & Hh2). cbn zeta in *.
    pose proof (bpow_gt_0 e1) as Hp1. pose proof (bpow_gt_0 e2) as Hp2.
    pose proof (bpow_lt e2 e1 Hlt) as Hpp.
    assert (x1 = x1 / bpow e1 * bpow e1)%R as Ex1 by (field; lra).
    assert (x2 = x2 / bpow e2 * bpow e2)%R as Ex2 by (field; lra).
    set (t1 := (x1 / bpow e1)%R) in *. set (t2 := (x2 / bpow e2)%R) in *.
    assert (IZR m2 <= 9007199254740991)%R as Hi2 by (apply IZR_le; lia).
    assert (4503599627370496 <= IZR m1)%R as Hi1 by (apply IZR_le; lia).
    assert (4503599627370496 - / 4 <= t1)%R as Ht1.
    { destruct ((m1 =? 4503599627370496) && (-1074 <? e1)) eqn:Eb.
      - lra.
      - apply andb_false_iff in Eb. destruct Eb as [Eb | Eb].
        + apply Z.eqb_neq in Eb.
          assert (4503599627370496 + 1 <= IZR m1)%R
            by (apply (IZR_lt_succ 4503599627370496); lia).
          lra.
        + apply Z.ltb_ge in Eb. lia. }
    assert ((4503599627370496 - / 4) * (2 * bpow e2) <= x1)%R as Hx1 by nra.
    assert (x2 <= (IZR m2 + / 2) * bpow e2)%R as Hx2 by nra.
    assert (9007199254740991 <= IZR m2)%R as Hi2' by nra.
    assert (m2 = 9007199254740991) as Em.
    { apply eq_IZR. lra. }
    assert (t2 = IZR m2 + / 2)%R as E2 by nra.
    specialize (Hh2 E2). subst m2. discriminate.
Qed.

Lemma canon_zero e : canon 0 e -> e = -1074.
Proof. intros (_ & He & Hn). destruct (Z.eq_dec e (-1074)); [assumption|]. lia. Qed.

Lemma ord_inj m1 e1 m2 e2 :
  canon m1 e1 -> canon m2 e2 -> ord m1 e1 = ord m2 e2 -> m1 = m2 /\ e1 = e2.
Proof.
  intros Hc1 Hc2 H.
  destruct (Z.lt_trichotomy e1 e2) as [Hlt | [Heq | Hlt]].
  - pose proof (ord_lt_exp _ _ _ _ Hc1 Hc2 Hlt). lia.
  - subst e2. split; [|reflexivity]. unfold ord in H.
    assert (0 < 2 ^ (e1 + 1074)) by (apply Z.pow_pos_nonneg; destruct Hc1 as (_ & ? & _); lia).
    nia.
  - pose proof (ord_lt_exp _ _ _ _ Hc2 Hc1 Hlt). lia.
Qed.

Lemma nearest_self m e : 0 <= m -> nearest m e (IZR m * bpow e).
Proof.
  intros Hm. unfold nearest. cbn zeta. pose proof (bpow_gt_0 e) as Hp.
  replace (IZR m * bpow e / bpow e)%R with (IZR m) by (field; lra).
  repeat split; try (intros; lra).
  destruct ((m =? 4503599627370496) && (-1074 <? e)); lra.
Qed.

(** A representable number rounds to itself. *)
Lemma nearest_exact m0 e0 m e :
  canon m0 e0 -> canon m e -> nearest m e (IZR m0 * bpow e0) -> m = m0 /\ e = e0.
Proof.
  intros Hc0 Hc Hn.
  pose proof (nearest_self m0 e0 ltac:(destruct Hc0; lia)) as Hs.
  pose proof (nearest_mono _ _ _ _ _ _ Hc Hc0 Hn Hs (Rle_refl _)).
  pose proof (nearest_mono _ _ _ _ _ _ Hc0 Hc Hs Hn (Rle_refl _)).
  apply ord_inj; try assumption. lia.
Qed.

(** ** Rounded floats and their positions *)

Lemma valid_canon s m e :
  valid_binary (S754_finite s m e) = true -> canon (Zpos m) e /\ e <= 971.
Proof.
  cbn [valid_binary]. unfold bounded, canonical_mantissa. intros H.
  apply andb_true_iff in H. destruct H as [H1 H2].
  apply Z.eqb_eq in H1. apply Z.leb_le in H2. change (emax - prec) with 971 in H2.
  split; [|exact H2]. rewrite fexp_eq in H1.
  pose proof (Zdigits2_bounds (Zpos m) ltac:(lia)) as [Hlo Hhi].
  change (Zdigits2 (Z.pos m)) with (Z.pos (digits2_pos m)) in *.
  set (d := Z.pos (digits2_pos m)) in *.
  assert (d <= 53) as Hd by lia. unfold canon. repeat split; try lia.
  - rewrite <- pow2_53. eapply Z.lt_le_trans; [exact Hhi|].
    apply Z.pow_le_mono_r; lia.
  - intros He. assert (d = 53) as -> by lia. rewrite <- pow2_52. exact Hlo.
Qed.

Lemma canon_valid s m e :
  canon (Zpos m) e -> e <= 971 -> valid_binary (S754_finite s m e) = true.
Proof.
  intros Hc He. cbn [valid_binary]. unfold bounded, canonical_mantissa.
  apply andb_true_iff. split.
  - apply Z.eqb_eq. exact (canon_fexp _ _ Hc).
  - apply Z.leb_le. exact He.
Qed.

Lemma decode_valid s m e : canon m e -> valid_binary (decode s m e) = true.
Proof.
  intros Hc. unfold decode. destruct m as [|p|p]; try reflexivity.
  change (emax - prec) with 971.
  destruct (Z.leb_spec e 971); [|reflexivity]. apply canon_valid; assumption.
Qed.

Lemma fpos_decode s m e : canon m e -> fpos (decode s m e) = cond_Zopp s (cap m e).
Proof.
  intros Hc. unfold decode, cap. change (emax - prec) with 971.
  destruct m as [|p|p].
  - pose proof (canon_zero _ Hc) as ->. cbn. destruct s; reflexivity.
  - destruct (e <=? 971); reflexivity.
  - destruct Hc as (? & _). lia.
Qed.

Lemma ord_nonneg m e : 0 <= m -> 0 <= ord m e.
Proof. intros H. unfold ord. apply Z.mul_nonneg_nonneg; [lia | apply Z.pow_nonneg; lia]. Qed.

Lemma cap_nonneg m e : canon m e -> 0 <= cap m e.
Proof.
  intros (Hm & _). unfold cap. destruct (e <=? 971); apply ord_nonneg; lia.
Qed.

Lemma canon_inf : canon 4503599627370496 972.
Proof. unfold canon. lia. Qed.

Lemma cap_mono m1 e1 m2 e2 :
  canon m1 e1 -> canon m2 e2 -> ord m1 e1 <= ord m2 e2 -> cap m1 e1 <= cap m2 e2.
Proof.
  intros Hc1 Hc2 H. unfold cap.
  destruct (Z.leb_spec e1 971) as [H1|H1], (Z.leb_spec e2 971) as [H2|H2]; try lia.
  - destruct (Z.eq_dec e1 971) as [-> | Hne].
    + unfold ord. change (972 + 1074) with (1 + (971 + 1074)).
      rewrite Z.pow_add_r by lia. change (2 ^ 1) with 2.
      destruct Hc1 as (? & _). assert (0 < 2 ^ (971 + 1074)) by (apply Z.pow_pos_nonneg; lia).
      nia.
    + pose proof (ord_lt_exp m1 e1 _ 972 Hc1 canon_inf ltac:(lia)). lia.
  - pose proof (ord_lt_exp m2 e2 m1 e1 Hc2 Hc1 ltac:(lia)). lia.
Qed.

Lemma nearest_zero m e : canon m e -> nearest m e 0 -> m = 0 /\ e = -1074.
Proof.
  intros Hc Hn. apply (nearest_exact 0 (-1074)); try assumption.
  - unfold canon. lia.
  - replace (IZR 0 * bpow (-1074))%R with 0%R by lra. exact Hn.
Qed.

(** Rounding is monotone on signed numbers. *)
Lemma rounds_to_mono v1 f1 v2 f2 :
  rounds_to v1 f1 -> rounds_to v2 f2 -> (v1 <= v2)%R -> fpos f1 <= fpos f2.
Proof.
  intros (m1 & e1 & s1 & Hc1 & Hn1 & -> & Hp1 & Hq1).
  intros (m2 & e2 & s2 & Hc2 & Hn2 & -> & Hp2 & Hq2) Hv.
  rewrite !fpos_decode by assumption.
  pose proof (cap_nonneg _ _ Hc1). pose proof (cap_nonneg _ _ Hc2).
  assert (forall m e s v, canon m e -> nearest m e (Rabs v) -> v = 0%R ->
                          cond_Zopp s (cap m e) = 0) as Hz.
  { intros m e s v Hc Hn ->. rewrite Rabs_R0 in Hn.
    destruct (nearest_zero _ _ Hc Hn) as [-> ->]. destruct s; reflexivity. }
  destruct (Rlt_le_dec v2 0) as [Hneg2 | Hpos2].
  - (* both negative *)
    rewrite (Hq2 Hneg2), (Hq1 ltac:(lra)). cbn [cond_Zopp].
    assert (ord m2 e2 <= ord m1 e1).
    { apply (nearest_mono _ _ _ _ _ _ Hc2 Hc1 Hn2 Hn1).
      rewrite !Rabs_left by lra. lra. }
    pose proof (cap_mono _ _ _ _ Hc2 Hc1 ltac:(assumption)). lia.
  - destruct (Rlt_le_dec 0 v1) as [Hpos1 | Hneg1].
    + (* both positive *)
      rewrite (Hp1 Hpos1), (Hp2 ltac:(lra)). cbn [cond_Zopp].
      apply cap_mono; try assumption.
      apply (nearest_mono _ _ _ _ _ _ Hc1 Hc2 Hn1 Hn2).
      rewrite !Rabs_right by lra. lra.
    + assert (cond_Zopp s1 (cap m1 e1) <= 0) as H1.
      { destruct (Req_dec v1 0) as [E|E].
        - rewrite (Hz _ _ _ _ Hc1 Hn1 E). lia.
        - rewrite (Hq1 ltac:(lra)). cbn [cond_Zopp]. lia. }
      assert (0 <= cond_Zopp s2 (cap m2 e2)) as H2.
      { destruct (Req_dec v2 0) as [E|E].
        - rewrite (Hz _ _ _ _ Hc2 Hn2 E). lia.
        - rewrite (Hp2 ltac:(lra)). cbn [cond_Zopp]. lia. }
      lia.
Qed.

Lemma Rabs_signed s p u :
  (0 < u)%R -> Rabs (IZR (cond_Zopp s (Zpos p)) * u) = (IZR (Zpos p) * u)%R.
Proof.
  intros Hu. assert (0 < IZR (Zpos p))%R by (apply IZR_lt; lia).
  destruct s; cbn [cond_Zopp].
  - change (- Z.pos p) with (Z.neg p). change (Z.neg p) with (- Z.pos p).
    rewrite opp_IZR. rewrite Rabs_left by nra. lra.
  - rewrite Rabs_right by nra. reflexivity.
Qed.

Lemma nearest_0 : nearest 0 (-1074) 0.
Proof.
  pose proof (nearest_self 0 (-1074) ltac:(lia)) as H.
  replace (IZR 0 * bpow (-1074))%R with 0%R in H by lra. exact H.
Qed.

(** A finite binary64 number is the rounding of its own value. *)
Lemma rounds_to_exact f : finite64 f = true -> rounds_to (SF2R f) f.
Proof.
  unfold finite64. intros H. apply andb_true_iff in H. destruct H as [Hf Hv].
  destruct f as [s | s | | s m e]; try discriminate.
  - exists 0, (-1074), s. cbn [SF2R]. rewrite Rabs_R0.
    split; [unfold canon; lia|]. split; [exact nearest_0|].
    split; [reflexivity|]. split; intros; lra.
  - destruct (valid_canon _ _ _ Hv) as [Hc He].
    pose proof (bpow_gt_0 e) as Hb.
    assert (0 < IZR (Zpos m))%R as Hm by (apply IZR_lt; lia).
    exists (Zpos m), e, s. cbn [SF2R]. rewrite Rabs_signed by exact Hb.
    split; [exact Hc|]. split; [apply nearest_self; lia|]. split.
    + unfold decode. change (emax - prec) with 971.
      destruct (Z.leb_spec e 971); [reflexivity | lia].
    + destruct s; cbn [cond_Zopp]; (split; [|]); intros Hs; try reflexivity; exfalso.
      * change (- Z.pos m) with (Z.neg m) in Hs. change (Z.neg m) with (- Z.pos m) in Hs.
        rewrite opp_IZR in Hs. nra.
      * nra.
Qed.

(** ** Normalisation rounds to nearest *)

Lemma pos_iter_xO m d : Zpos (Pos.iter xO m d) = Zpos m * 2 ^ Zpos d.
Proof.
  rewrite Pos2Nat.inj_iter, <- (positive_nat_Z d). unfold Nat.iter.
  induction (Pos.to_nat d) as [|k IH].
  - change (Z.of_nat 0) with 0. rewrite Z.pow_0_r. cbn [nat_rect]. lia.
  - rewrite Nat2Z.inj_succ, Z.pow_succ_r by lia. cbn [nat_rect].
    rewrite Pos2Z.inj_xO. rewrite IH. ring.
Qed.

Lemma Zdigits2_mul_pow2 a k :
  0 < a -> 0 <= k -> Zdigits2 (a * 2 ^ k) = Zdigits2 a + k.
Proof.
  intros Ha Hk. pose proof (Zdigits2_bounds a Ha) as [Hlo Hhi].
  pose proof (Zdigits2_pos a Ha) as Hd.
  assert (0 < 2 ^ k) by (apply Z.pow_pos_nonneg; lia).
  apply Zdigits2_unique; [lia|].
  replace (Zdigits2 a + k - 1) with (Zdigits2 a - 1 + k) by lia.
  rewrite !Z.pow_add_r by lia. nia.
Qed.

Lemma shl_align_spec mx ex ex' :
  let '(mz, ez) := shl_align mx ex ex' in
  ez = Z.min ex ex' /\ Zpos mz = Zpos mx * 2 ^ (ex - ez).
Proof.
  unfold shl_align. destruct (ex' - ex) as [|d|d] eqn:E.
  - split; [lia|]. replace (ex - ex) with 0 by lia. lia.
  - split; [lia|]. replace (ex - ex) with 0 by lia. lia.
  - split; [lia|]. rewrite pos_iter_xO. f_equal. f_equal. lia.
Qed.

Lemma IZR_mul_pow2 a k : 0 <= k -> IZR (a * 2 ^ k) = (IZR a * bpow k)%R.
Proof. intros Hk. rewrite mult_IZR, bpow_IZR by exact Hk. reflexivity. Qed.

Lemma shl_align_value mx ex ex' :
  let '(mz, ez) := shl_align mx ex ex' in
  (IZR (Zpos mz) * bpow ez = IZR (Zpos mx) * bpow ex)%R.
Proof.
  pose proof (shl_align_spec mx ex ex') as H.
  destruct (shl_align mx ex ex') as [mz ez]. destruct H as [He Hm].
  rewrite Hm, IZR_mul_pow2 by lia.
  assert (bpow ex = bpow (ex - ez) * bpow ez)%R as Eb
    by (rewrite <- bpow_plus; f_equal; lia).
  rewrite Eb. ring.
Qed.

Lemma within_exact m x e : (x = IZR m * bpow e)%R -> within m loc_Exact (x / bpow e).
Proof.
  intros ->. cbn [within]. pose proof (bpow_gt_0 e). field. lra.
Qed.

(** [binary_round] rounds the magnitude it is given to nearest. *)
Lemma binary_round_nearest s mx ex :
  exists m e, canon m e /\ nearest m e (IZR (Zpos mx) * bpow ex) /\
    binary_round prec emax s mx ex = decode s m e.
Proof.
  unfold binary_round.
  set (e' := fexp prec emax (Z.pos (digits2_pos mx) + ex)).
  pose proof (shl_align_spec mx ex e') as Hs.
  pose proof (shl_align_value mx ex e') as Hv.
  destruct (shl_align mx ex e') as [mz ez]. destruct Hs as [He Hm].
  apply binary_round_aux_nearest; [lia | | apply within_exact; symmetry; exact Hv].
  rewrite Hm. rewrite Zdigits2_mul_pow2 by lia.
  change (Zdigits2 (Z.pos mx)) with (Z.pos (digits2_pos mx)).
  replace (Z.pos (digits2_pos mx) + (ex - ez) + ez) with (Z.pos (digits2_pos mx) + ex) by lia.
  fold e'. lia.
Qed.

Lemma rounds_to_zero s : rounds_to 0 (S754_zero s).
Proof.
  exists 0, (-1074), s. rewrite Rabs_R0.
  split; [unfold canon; lia|]. split; [exact nearest_0|].
  split; [reflexivity|]. split; intros; lra.
Qed.

(** [binary_normalize] rounds the integer-scaled number it is given. *)
Lemma binary_normalize_rounds z e sz :
  rounds_to (IZR z * bpow e) (binary_normalize prec emax z e sz).
Proof.
  pose proof (bpow_gt_0 e) as Hb.
  destruct z as [|p|p]; cbn [binary_normalize].
  - replace (0 * bpow e)%R with 0%R by lra. apply rounds_to_zero.
  - destruct (binary_round_nearest false p e) as (m & e' & Hc & Hn & ->).
    assert (0 < IZR (Zpos p))%R by (apply IZR_lt; lia).
    exists m, e', false. rewrite Rabs_right by nra.
    split; [exact Hc|]. split; [exact Hn|]. split; [reflexivity|].
    split; intros; [reflexivity | exfalso; nra].
  - destruct (binary_round_nearest true p e) as (m & e' & Hc & Hn & ->).
    assert (0 < IZR (Zpos p))%R by (apply IZR_lt; lia).
    exists m, e', true. change (Z.neg p) with (- Z.pos p). rewrite opp_IZR.
    rewrite Rabs_left by nra.
    replace (- (- IZR (Z.pos p) * bpow e))%R with (IZR (Z.pos p) * bpow e)%R by lra.
    split; [exact Hc|]. split; [exact Hn|]. split; [reflexivity|].
    split; intros; [exfalso; nra | reflexivity].
Qed.

(** ** Addition, subtraction and multiplication round to nearest *)

Lemma IZR_cond_Zopp s z : IZR (cond_Zopp s z) = (if s then - IZR z else IZR z)%R.
Proof. destruct s; cbn [cond_Zopp]; [apply opp_IZR | reflexivity]. Qed.

Lemma shl_align_fst_value s mx ex ez :
  (IZR (cond_Zopp s (Zpos (fst (shl_align mx ex ez)))) * bpow (Z.min ex ez)
   = IZR (cond_Zopp s (Zpos mx)) * bpow ex)%R.
Proof.
  pose proof (shl_align_spec mx ex ez) as Hs.
  pose proof (shl_align_value mx ex ez) as Hv.
  destruct (shl_align mx ex ez) as [mz ez']. destruct Hs as [He _]. subst ez'.
  cbn [fst]. rewrite !IZR_cond_Zopp. destruct s; lra.
Qed.

Lemma finite64_finite s m e :
  finite64 (S754_finite s m e) = true -> canon (Zpos m) e /\ e <= 971.
Proof.
  unfold finite64. intros H. apply andb_true_iff in H. apply valid_canon with (s := s).
  apply H.
Qed.

Lemma SFadd_rounds x y :
  finite64 x = true -> finite64 y = true ->
  rounds_to (SF2R x + SF2R y) (SF64add x y).
Proof.
  intros Hx Hy.
  destruct x as [sx | sx | | sx mx ex]; try discriminate;
    destruct y as [sy | sy | | sy my ey]; try discriminate.
  - cbn [SF2R]. rewrite Rplus_0_r. destruct sx, sy; apply rounds_to_zero.
  - replace (SF2R (S754_zero sx) + SF2R (S754_finite sy my ey))%R
      with (SF2R (S754_finite sy my ey)) by (cbn [SF2R]; lra).
    apply rounds_to_exact. exact Hy.
  - replace (SF2R (S754_finite sx mx ex) + SF2R (S754_zero sy))%R
      with (SF2R (S754_finite sx mx ex)) by (cbn [SF2R]; lra).
    apply rounds_to_exact. exact Hx.
  - unfold SF64add, SFadd. cbn zeta.
    pose proof (shl_align_fst_value sx mx ex (Z.min ex ey)) as H1.
    pose proof (shl_align_fst_value sy my ey (Z.min ex ey)) as H2.
    replace (Z.min ex (Z.min ex ey)) with (Z.min ex ey) in H1 by lia.
    replace (Z.min ey (Z.min ex ey)) with (Z.min ex ey) in H2 by lia.
    cbn [SF2R]. rewrite <- H1, <- H2, <- Rmult_plus_distr_r, <- plus_IZR.
    apply binary_normalize_rounds.
Qed.

Lemma SFsub_rounds x y :
  finite64 x = true -> finite64 y = true ->
  rounds_to (SF2R x - SF2R y) (SF64sub x y).
Proof.
  intros Hx Hy.
  destruct x as [sx | sx | | sx mx ex]; try discriminate;
    destruct y as [sy | sy | | sy my ey]; try discriminate.
  - cbn [SF2R]. rewrite Rminus_0_r. destruct sx, sy; apply rounds_to_zero.
  - replace (SF2R (S754_zero sx) - SF2R (S754_finite sy my ey))%R
      with (SF2R (S754_finite (negb sy) my ey)).
    + apply rounds_to_exact. exact Hy.
    + cbn [SF2R]. rewrite !IZR_cond_Zopp. destruct sy; cbn [negb]; lra.
  - replace (SF2R (S754_finite sx mx ex) - SF2R (S754_zero sy))%R
      with (SF2R (S754_finite sx mx ex)) by (cbn [SF2R]; lra).
    apply rounds_to_exact. exact Hx.
  - unfold SF64sub, SFsub. cbn zeta.
    pose proof (shl_align_fst_value sx mx ex (Z.min ex ey)) as H1.
    pose proof (shl_align_fst_value sy my ey (Z.min ex ey)) as H2.
    replace (Z.min ex (Z.min ex ey)) with (Z.min ex ey) in H1 by lia.
    replace (Z.min ey (Z.min ex ey)) with (Z.min ex ey) in H2 by lia.
    cbn [SF2R]. rewrite <- H1, <- H2.
    rewrite <- Rmult_minus_distr_r, <- minus_IZR.
    apply binary_normalize_rounds.
Qed.

Lemma Zdigits2_mul_lower a b :
  0 < a -> 0 < b -> Zdigits2 a + Zdigits2 b - 1 <= Zdigits2 (a * b).
Proof.
  intros Ha Hb.
  pose proof (Zdigits2_bounds a Ha) as [Hla Hha].
  pose proof (Zdigits2_bounds b Hb) as [Hlb Hhb].
  pose proof (Zdigits2_bounds (a * b) ltac:(nia)) as [Hl Hh].
  pose proof (Zdigits2_pos a Ha). pose proof (Zdigits2_pos b Hb).
  pose proof (Zdigits2_pos (a * b) ltac:(nia)).
  assert (2 ^ (Zdigits2 a - 1 + (Zdigits2 b - 1)) <= a * b) as Hp.
  { rewrite Z.pow_add_r by lia.
    assert (0 < 2 ^ (Zdigits2 a - 1)) by (apply Z.pow_pos_nonneg; lia).
    assert (0 < 2 ^ (Zdigits2 b - 1)) by (apply Z.pow_pos_nonneg; lia).
    nia. }
  assert (Zdigits2 a - 1 + (Zdigits2 b - 1) < Zdigits2 (a * b))
    by (apply pow2_lt_inv; lia).
  lia.
Qed.

Lemma canon_digits m e :
  canon (Zpos m) e -> Zdigits2 (Zpos m) <= 53 /\ (-1074 < e -> Zdigits2 (Zpos m) = 53).
Proof.
  intros (Hm & He & Hn).
  pose proof (Zdigits2_bounds (Zpos m) ltac:(lia)) as [Hlo Hhi].
  pose proof (Zdigits2_pos (Zpos m) ltac:(lia)) as Hd.
  assert (Zdigits2 (Zpos m) - 1 < 53) by (apply pow2_lt_inv; [lia | rewrite pow2_53; lia]).
  split; [lia|]. intros Hgt. specialize (Hn Hgt).
  assert (52 < Zdigits2 (Zpos m)) by (apply pow2_lt_inv; [lia | rewrite pow2_52; lia]).
  lia.
Qed.

Lemma SFmul_rounds x y :
  finite64 x = true -> finite64 y = true ->
  rounds_to (SF2R x * SF2R y) (SF64mul x y).
Proof.
  intros Hx Hy.
  destruct x as [sx | sx | | sx mx ex]; try discriminate;
    destruct y as [sy | sy | | sy my ey]; try discriminate;
    try (cbn [SF2R SF64mul SFmul]; rewrite ?Rmult_0_l, ?Rmult_0_r; apply rounds_to_zero).
  destruct (finite64_finite _ _ _ Hx) as [Hcx _].
  destruct (finite64_finite _ _ _ Hy) as [Hcy _].
  unfold SF64mul, SFmul.
  destruct (binary_round_aux_nearest (xorb sx sy) (Zpos (mx * my)) (ex + ey) loc_Exact
              (IZR (Zpos (mx * my)) * bpow (ex + ey))) as (m & e & Hc & Hn & ->).
  - lia.
  - pose proof (Zdigits2_mul_lower (Zpos mx) (Zpos my) ltac:(lia) ltac:(lia)) as Hd.
    destruct (canon_digits _ _ Hcx) as [Hdx Hnx].
    destruct (canon_digits _ _ Hcy) as [Hdy Hny].
    pose proof (Zdigits2_pos (Zpos mx) ltac:(lia)).
    pose proof (Zdigits2_pos (Zpos my) ltac:(lia)).
    destruct Hcx as (_ & Hex & _). destruct Hcy as (_ & Hey & _).
    rewrite fexp_eq. change (Z.pos (mx * my)) with (Z.pos mx * Z.pos my). lia.
  - apply within_exact. reflexivity.
  - pose proof (bpow_gt_0 (ex + ey)) as Hb.
    assert (0 < IZR (Zpos (mx * my)))%R as Hp by (apply IZR_lt; lia).
    assert (SF2R (S754_finite sx mx ex) * SF2R (S754_finite sy my ey)
            = IZR (cond_Zopp (xorb sx sy) (Zpos (mx * my))) * bpow (ex + ey))%R as Ev.
    { cbn [SF2R]. rewrite bpow_plus, !IZR_cond_Zopp.
      change (Z.pos (mx * my)) with (Z.pos mx * Z.pos my). rewrite mult_IZR.
      destruct sx, sy; cbn [xorb]; ring. }
    rewrite Ev. exists m, e, (xorb sx sy). rewrite Rabs_signed by exact Hb.
    split; [exact Hc|]. split; [exact Hn|]. split; [reflexivity|].
    rewrite IZR_cond_Zopp.
    split; intros Hs; destruct (xorb sx sy); try reflexivity; exfalso; nra.
Qed.

Lemma float_of_int_rounds z f : float_of_int z = Ok f -> rounds_to (IZR z) f.
Proof.
  unfold float_of_int. pose proof (binary_normalize_rounds z 0 false) as H.
  rewrite bpow_0, Rmult_1_r in H.
  destruct (binary_normalize prec emax z 0 false); intros E; inversion E; subst; exact H.
Qed.

(** ** Division rounds to nearest *)

Lemma even_false_odd m : Z.even m = false -> exists k, m = 2 * k + 1.
Proof.
  intros H. apply Z.odd_spec. rewrite <- Z.negb_even, H. reflexivity.
Qed.

Lemma new_location_within m2 q r :
  0 < m2 -> 0 <= r < m2 ->
  within q (new_location m2 r) (IZR q + IZR r / IZR m2).
Proof.
  intros Hm Hr. assert (0 < IZR m2)%R as Hp by (apply IZR_lt; lia).
  assert (0 <= IZR r)%R as Hr0 by (apply IZR_le; lia).
  assert (IZR r < IZR m2)%R as Hr1 by (apply IZR_lt; lia).
  assert (forall a b, (a < b * IZR m2 -> a / IZR m2 < b)%R) as Hdl.
  { intros a b H. apply (Rmult_lt_reg_r (IZR m2)); [exact Hp|].
    unfold Rdiv. rewrite Rmult_assoc, Rinv_l by lra. lra. }
  assert (forall a b, (b * IZR m2 < a -> b < a / IZR m2)%R) as Hdg.
  { intros a b H. apply (Rmult_lt_reg_r (IZR m2)); [exact Hp|].
    unfold Rdiv. rewrite Rmult_assoc, Rinv_l by lra. lra. }
  assert (r = 0 -> within q loc_Exact (IZR q + IZR r / IZR m2)) as Hex.
  { intros ->. cbn [within]. unfold Rdiv. lra. }
  assert (r <> 0 -> (0 < IZR r / IZR m2 < 1)%R) as Hin.
  { intros Hnz. assert (0 < IZR r)%R by (apply IZR_lt; lia).
    split; [apply Hdg | apply Hdl]; lra. }
  unfold new_location. destruct (Z.even m2) eqn:Ev.
  - unfold new_location_even. destruct (Z.eqb_spec r 0) as [E0 | Hnz]; [auto|].
    specialize (Hin Hnz).
    destruct (Z.compare_spec (2 * r) m2) as [E | E | E]; cbn [within].
    + assert (IZR r / IZR m2 = / 2)%R.
      { assert (0 < IZR r)%R by (apply IZR_lt; lia).
        rewrite <- E, mult_IZR. field. lra. }
      lra.
    + apply IZR_lt in E. rewrite mult_IZR in E.
      assert (IZR r / IZR m2 < / 2)%R by (apply Hdl; lra). lra.
    + apply IZR_lt in E. rewrite mult_IZR in E.
      assert (/ 2 < IZR r / IZR m2)%R by (apply Hdg; lra). lra.
  - unfold new_location_odd. destruct (Z.eqb_spec r 0) as [E0 | Hnz]; [auto|].
    specialize (Hin Hnz). destruct (even_false_odd _ Ev) as [k Ek].
    destruct (Z.compare_spec (2 * r + 1) m2) as [E | E | E]; cbn [within].
    + assert (2 * r < m2) as E' by lia. apply IZR_lt in E'. rewrite mult_IZR in E'.
      assert (IZR r / IZR m2 < / 2)%R by (apply Hdl; lra). lra.
    + assert (2 * r < m2) as E' by lia. apply IZR_lt in E'. rewrite mult_IZR in E'.
      assert (IZR r / IZR m2 < / 2)%R by (apply Hdl; lra). lra.
    + assert (m2 < 2 * r) as E' by lia. apply IZR_lt in E'. rewrite mult_IZR in E'.
      assert (/ 2 < IZR r / IZR m2)%R by (apply Hdg; lra). lra.
Qed.

Lemma SFdiv_core_spec m1 e1 m2 e2 :
  0 < m1 -> 0 < m2 ->
  let '(q, e', l) := SFdiv_core_binary prec emax m1 e1 m2 e2 in
  0 <= q /\ e' <= fexp prec emax (Zdigits2 q + e') /\
  within q l (IZR m1 * bpow e1 / (IZR m2 * bpow e2) / bpow e').
Proof.
  intros H1 H2. unfold SFdiv_core_binary.
  set (k := Zdigits2 m1 + e1 - (Zdigits2 m2 + e2)).
  set (e' := Z.min (fexp prec emax k) (e1 - e2)).
  set (s := e1 - e2 - e').
  assert (0 <= s) as Hs by (unfold s, e'; lia).
  assert (match s with Z.pos _ => Z.shiftl m1 s | 0 => m1 | Z.neg _ => 0 end
          = m1 * 2 ^ s) as Em.
  { destruct s as [|p|p] eqn:Es.
    - rewrite Z.pow_0_r. lia.
    - apply Z.shiftl_mul_pow2. lia.
    - lia. }
  rewrite Em.
  pose proof (Z_div_mod (m1 * 2 ^ s) m2 ltac:(lia)) as Hdm.
  destruct (Z.div_eucl (m1 * 2 ^ s) m2) as [q r]. destruct Hdm as [Eq Hr].
  assert (0 < 2 ^ s) as Hps by (apply Z.pow_pos_nonneg; lia).
  assert (0 <= q) as Hq by nia.
  split; [exact Hq|]. split.
  - rewrite fexp_eq.
    destruct (Z_le_gt_dec e' (-1074)) as [|Hgt]; [lia|].
    assert (e' <= k - 53) as Hk.
    { unfold e' in *. rewrite fexp_eq in *. lia. }
    pose proof (Zdigits2_bounds m1 H1) as [Hl1 Hh1].
    pose proof (Zdigits2_bounds m2 H2) as [Hl2 Hh2].
    pose proof (Zdigits2_pos m1 H1). pose proof (Zdigits2_pos m2 H2).
    set (j := k - e' - 1).
    assert (2 ^ j * 2 ^ Zdigits2 m2 <= m1 * 2 ^ s) as Hj.
    { rewrite <- Z.pow_add_r by lia.
      replace (j + Zdigits2 m2) with (Zdigits2 m1 - 1 + s) by (unfold j, k, s; lia).
      rewrite Z.pow_add_r by lia.
      apply Z.mul_le_mono_nonneg_r; lia. }
    assert (0 < 2 ^ j) by (apply Z.pow_pos_nonneg; lia).
    assert (2 ^ j <= q) as Hqj by nia.
    pose proof (Zdigits2_bounds q ltac:(lia)) as [_ Hhq].
    assert (j < Zdigits2 q).
    { apply pow2_lt_inv; [|lia]. pose proof (Zdigits2_pos q ltac:(lia)). lia. }
    unfold j in *. lia.
  - assert (0 < IZR m2)%R as Hp2 by (apply IZR_lt; lia).
    pose proof (bpow_gt_0 e1). pose proof (bpow_gt_0 e2). pose proof (bpow_gt_0 e').
    assert (bpow e1 = bpow s * bpow e2 * bpow e')%R as Eb.
    { rewrite <- !bpow_plus. f_equal. unfold s. lia. }
    replace (IZR m1 * bpow e1 / (IZR m2 * bpow e2) / bpow e')%R
      with (IZR q + IZR r / IZR m2)%R.
    + apply new_location_within; lia.
    + assert (IZR m1 * bpow s = IZR m2 * IZR q + IZR r)%R as Em'
        by (rewrite <- IZR_mul_pow2 by lia; rewrite Eq, plus_IZR, mult_IZR; reflexivity).
      rewrite Eb.
      replace (IZR m1 * (bpow s * bpow e2 * bpow e') / (IZR m2 * bpow e2) / bpow e')%R
        with ((IZR m1 * bpow s) / IZR m2)%R by (field; lra).
      rewrite Em'. field. lra.
Qed.

Lemma SFdiv_rounds sx mx ex sy my ey :
  rounds_to (SF2R (S754_finite sx mx ex) / SF2R (S754_finite sy my ey))
            (SF64div (S754_finite sx mx ex) (S754_finite sy my ey)).
Proof.
  unfold SF64div, SFdiv.
  pose proof (SFdiv_core_spec (Zpos mx) ex (Zpos my) ey ltac:(lia) ltac:(lia)) as Hc.
  destruct (SFdiv_core_binary prec emax (Z.pos mx) ex (Z.pos my) ey) as [[q e'] l].
  destruct Hc as (Hq & He & Hw).
  destruct (binary_round_aux_nearest (xorb sx sy) q e' l _ Hq He Hw)
    as (m & e & Hc & Hn & ->).
  pose proof (bpow_gt_0 ex) as Hbx. pose proof (bpow_gt_0 ey) as Hby.
  assert (0 < IZR (Zpos mx))%R as Hpx by (apply IZR_lt; lia).
  assert (0 < IZR (Zpos my))%R as Hpy by (apply IZR_lt; lia).
  set (u := (IZR (Z.pos mx) * bpow ex / (IZR (Z.pos my) * bpow ey))%R) in *.
  assert (0 < u)%R as Hu.
  { unfold u. apply Rdiv_lt_0_compat; nra. }
  assert (SF2R (S754_finite sx mx ex) / SF2R (S754_finite sy my ey)
          = if xorb sx sy then - u else u)%R as Ev.
  { cbn [SF2R]. rewrite !IZR_cond_Zopp. unfold u.
    destruct sx, sy; cbn [xorb]; field; lra. }
  rewrite Ev. exists m, e, (xorb sx sy).
  split; [exact Hc|]. split.
  - destruct (xorb sx sy); [rewrite Rabs_left by lra | rewrite Rabs_right by lra];
      [replace (- - u)%R with u by lra|]; exact Hn.
  - split; [reflexivity|].
    split; intros Hs; destruct (xorb sx sy); try reflexivity; exfalso; lra.
Qed.

Lemma SF2R_int_operand z : SF2R (int_operand z) = IZR z.
Proof.
  destruct z as [|p|p]; cbn [int_operand SF2R cond_Zopp]; rewrite ?bpow_0; try lra.
  change (- Z.pos p) with (Z.neg p). lra.
Qed.

Lemma int_div_rounds a b :
  b <> 0 -> rounds_to (IZR a / IZR b) (SF64div (int_operand a) (int_operand b)).
Proof.
  intros Hb. rewrite <- (SF2R_int_operand a), <- (SF2R_int_operand b).
  destruct a as [|pa|pa]; destruct b as [|pb|pb]; try lia;
    cbn [int_operand]; try apply SFdiv_rounds;
    cbn [SF2R SF64div SFdiv]; unfold Rdiv; rewrite Rmult_0_l; apply rounds_to_zero.
Qed.

Lemma int_truediv_rounds a b f :
  int_truediv a b = Ok f -> rounds_to (IZR a / IZR b) f.
Proof.
  unfold int_truediv. destruct (Z.eqb_spec b 0) as [|Hb]; [discriminate|].
  intros E. pose proof (int_div_rounds a b Hb) as H.
  destruct (SF64div (int_operand a) (int_operand b)); inversion E; subst; exact H.
Qed.

(** ** Comparison and floor *)

Lemma decode_cases s m e :
  canon m e ->
  (m = 0 /\ decode s m e = S754_zero s) \/
  (exists p, m = Zpos p /\ e <= 971 /\ decode s m e = S754_finite s p e) \/
  (0 < m /\ 971 < e /\ decode s m e = S754_infinity s).
Proof.
  intros (Hm & _). unfold decode. change (emax - prec) with 971.
  destruct m as [|p|p]; [left; auto | | lia].
  right. destruct (Z.leb_spec e 971); [left; exists p; auto | right; split; [lia | auto]].
Qed.

Lemma rounds_to_valid v f : rounds_to v f -> valid_binary f = true /\ f <> S754_nan.
Proof.
  intros (m & e & s & Hc & _ & -> & _). split; [apply decode_valid; exact Hc|].
  destruct (decode_cases s m e Hc) as [(_ & ->) | [(p & _ & _ & ->) | (_ & _ & ->)]];
    discriminate.
Qed.

Lemma rounds_to_finite64 v f : rounds_to v f -> is_finite f = true -> finite64 f = true.
Proof.
  intros H Hf. unfold finite64. rewrite Hf. apply (rounds_to_valid _ _ H).
Qed.

Lemma SF2R_fpos f : finite64 f = true -> SF2R f = (IZR (fpos f) * bpow (-1074))%R.
Proof.
  destruct f as [s | s | | s m e]; try discriminate; intros Hf; cbn [SF2R fpos].
  - lra.
  - destruct (finite64_finite _ _ _ Hf) as [(_ & He & _) _]. unfold ord.
    assert (bpow e = bpow (e + 1074) * bpow (-1074))%R as Eb
      by (rewrite <- bpow_plus; f_equal; lia).
    rewrite !IZR_cond_Zopp, IZR_mul_pow2, Eb by lia. destruct s; ring.
Qed.

Lemma fpos_finite_bounds s m e :
  valid_binary (S754_finite s m e) = true ->
  0 < ord (Zpos m) e < ord 4503599627370496 972.
Proof.
  intros Hv. destruct (valid_canon _ _ _ Hv) as [Hc He]. split.
  - unfold ord. apply Z.mul_pos_pos; [lia|]. apply Z.pow_pos_nonneg; [lia|].
    destruct Hc as (_ & ? & _). lia.
  - apply ord_lt_exp; [exact Hc | exact canon_inf | lia].
Qed.

Lemma ord_inf_pos : 0 < ord 4503599627370496 972.
Proof. unfold ord. apply Z.mul_pos_pos; [lia|]. apply Z.pow_pos_nonneg; lia. Qed.

Lemma compare_lt a b : a < b -> Some Lt = Some (a ?= b).
Proof. intros H. f_equal. symmetry. apply Z.compare_lt_iff. exact H. Qed.

Lemma compare_gt a b : b < a -> Some Gt = Some (a ?= b).
Proof. intros H. f_equal. symmetry. apply Z.compare_gt_iff. exact H. Qed.

Lemma compare_ord m1 m2 e1 e2 :
  canon (Zpos m1) e1 -> canon (Zpos m2) e2 ->
  match e1 ?= e2 with
  | Eq => Pos.compare_cont Eq m1 m2
  | Lt => Lt
  | Gt => Gt
  end = (ord (Zpos m1) e1 ?= ord (Zpos m2) e2).
Proof.
  intros H1 H2. destruct (Z.compare_spec e1 e2) as [E | E | E].
  - subst e2. unfold ord. rewrite <- Zmult_compare_compat_r; [reflexivity|].
    apply Z.lt_gt, Z.pow_pos_nonneg; [lia|]. destruct H1 as (_ & ? & _). lia.
  - symmetry. apply Z.compare_lt_iff. apply ord_lt_exp; assumption.
  - symmetry. apply Z.compare_gt_iff. apply ord_lt_exp; assumption.
Qed.

(** On well-formed numbers, the comparison of the library is the
    comparison of positions. *)
Lemma SFcompare_fpos x y :
  valid_binary x = true -> valid_binary y = true ->
  x <> S754_nan -> y <> S754_nan ->
  SFcompare x y = Some (fpos x ?= fpos y).
Proof.
  intros Hx Hy Nx Ny. pose proof ord_inf_pos as Hi.
  destruct x as [sx | sx | | sx mx ex]; try congruence;
    destruct y as [sy | sy | | sy my ey]; try congruence;
    try pose proof (fpos_finite_bounds _ _ _ Hx) as Bx;
    try pose proof (fpos_finite_bounds _ _ _ Hy) as By;
    cbn [SFcompare fpos].
  - reflexivity.
  - destruct sy; cbn [cond_Zopp]; [apply compare_gt | apply compare_lt]; lia.
  - destruct sy; cbn [cond_Zopp]; [apply compare_gt | apply compare_lt]; lia.
  - destruct sx; cbn [cond_Zopp]; [apply compare_lt | apply compare_gt]; lia.
  - destruct sx, sy; cbn [cond_Zopp];
      [ f_equal; symmetry; apply Z.compare_eq_iff; reflexivity
      | apply compare_lt; lia | apply compare_gt; lia
      | f_equal; symmetry; apply Z.compare_eq_iff; reflexivity ].
  - destruct sx; cbn [cond_Zopp]; [apply compare_lt | apply compare_gt];
      destruct sy; cbn [cond_Zopp]; lia.
  - destruct sx; cbn [cond_Zopp]; [apply compare_lt | apply compare_gt]; lia.
  - destruct sy; cbn [cond_Zopp]; [apply compare_gt | apply compare_lt];
      destruct sx; cbn [cond_Zopp]; lia.
  - destruct (valid_canon _ _ _ Hx) as [Hcx _]. destruct (valid_canon _ _ _ Hy) as [Hcy _].
    destruct sx, sy; cbn [cond_Zopp].
    + rewrite Z.compare_opp. f_equal.
      rewrite <- (compare_ord my mx ey ex Hcy Hcx).
      rewrite (Z.compare_antisym ex ey).
      destruct (ex ?= ey); cbn [CompOpp]; try reflexivity.
      symmetry. apply ZC4.
    + apply compare_lt; lia.
    + apply compare_gt; lia.
    + f_equal. apply compare_ord; assumption.
Qed.

Lemma SFleb_fpos x y :
  valid_binary x = true -> valid_binary y = true ->
  x <> S754_nan -> y <> S754_nan ->
  SFleb x y = (fpos x <=? fpos y).
Proof.
  intros Hx Hy Nx Ny. unfold SFleb. rewrite SFcompare_fpos by assumption.
  unfold Z.leb. destruct (fpos x ?= fpos y); reflexivity.
Qed.

(** [math.floor] returns the integer part. *)
Lemma math_floor_spec x n :
  math_floor x = Ok n -> (IZR n <= SF2R x < IZR n + 1)%R.
Proof.
  destruct x as [s | s | | s m e]; try discriminate; cbn [math_floor SF2R];
    intros E; inversion E; subst; clear E.
  - lra.
  - set (z := cond_Zopp s (Z.pos m)). destruct (Z_le_gt_dec 0 e) as [He | He].
    + rewrite Z.shiftl_mul_pow2 by exact He. rewrite IZR_mul_pow2 by exact He. lra.
    + rewrite Z.shiftl_div_pow2 by lia.
      assert (0 < 2 ^ (- e)) as Hp by (apply Z.pow_pos_nonneg; lia).
      pose proof (Z_div_mod z (2 ^ (- e)) ltac:(lia)) as Hdm.
      unfold Z.div. destruct (Z.div_eucl z (2 ^ (- e))) as [q r].
      destruct Hdm as [Ez Hr]. cbn [fst].
      assert (bpow e = / bpow (- e))%R as Eb.
      { pose proof (bpow_gt_0 e). pose proof (bpow_gt_0 (- e)).
        apply (Rmult_eq_reg_r (bpow (- e))); [|lra].
        rewrite <- bpow_plus. replace (e + - e) with 0 by lia.
        rewrite bpow_0. field. lra. }
      pose proof (bpow_gt_0 (- e)) as Hb.
      assert (bpow (- e) = IZR (2 ^ (- e))) as Ep by (apply bpow_IZR; lia).
      rewrite Eb, Ez, plus_IZR, mult_IZR, <- Ep.
      assert (0 <= IZR r)%R by (apply IZR_le; lia).
      assert (IZR r < bpow (- e))%R by (rewrite Ep; apply IZR_lt; lia).
      replace ((bpow (- e) * IZR q + IZR r) * / bpow (- e))%R
        with (IZR q + IZR r * / bpow (- e))%R by (field; lra).
      assert (0 <= IZR r * / bpow (- e) < 1)%R.
      { assert (0 < / bpow (- e))%R by (apply Rinv_0_lt_compat; lra).
        split; [nra|].
        apply (Rmult_lt_reg_r (bpow (- e))); [lra|].
        rewrite Rmult_assoc, Rinv_l by lra. lra. }
      lra.
Qed.

Lemma floor_unique n1 n2 x :
  (IZR n1 <= x < IZR n1 + 1)%R -> (IZR n2 <= x < IZR n2 + 1)%R -> n1 = n2.
Proof.
  intros H1 H2.
  assert (n1 < n2 + 1) by (apply lt_IZR; rewrite plus_IZR; lra).
  assert (n2 < n1 + 1) by (apply lt_IZR; rewrite plus_IZR; lra).
  lia.
Qed.

(** ** Uniqueness, exactness, error and range of a rounding *)

Lemma rounds_to_le v1 f1 v2 f2 :
  rounds_to v1 f1 -> rounds_to v2 f2 -> (v1 <= v2)%R ->
  is_finite f1 = true -> is_finite f2 = true -> (SF2R f1 <= SF2R f2)%R.
Proof.
  intros H1 H2 Hv F1 F2.
  rewrite !SF2R_fpos by (eapply rounds_to_finite64; eassumption).
  pose proof (rounds_to_mono _ _ _ _ H1 H2 Hv) as Hp. apply IZR_le in Hp.
  pose proof (bpow_gt_0 (-1074)). nra.
Qed.

Lemma decode_opp s m e : SFopp (decode s m e) = decode (negb s) m e.
Proof.
  unfold decode. destruct m; [reflexivity | | reflexivity].
  destruct (e <=? emax - prec); reflexivity.
Qed.

Lemma rounds_to_opp v f : rounds_to v f -> rounds_to (- v) (SFopp f).
Proof.
  intros (m & e & s & Hc & Hn & -> & Hp & Hq).
  exists m, e, (negb s). rewrite Rabs_Ropp, decode_opp.
  split; [exact Hc|]. split; [exact Hn|]. split; [reflexivity|].
  split; intros Hs; [rewrite Hq by lra | rewrite Hp by lra]; reflexivity.
Qed.

(** Rounding is a function of the number rounded, the sign of a zero
    apart. *)
Lemma rounds_to_unique v f1 f2 :
  rounds_to v f1 -> rounds_to v f2 -> v <> 0%R -> f1 = f2.
Proof.
  intros (m1 & e1 & s1 & Hc1 & Hn1 & -> & Hp1 & Hq1).
  intros (m2 & e2 & s2 & Hc2 & Hn2 & -> & Hp2 & Hq2) Hv.
  pose proof (nearest_mono _ _ _ _ _ _ Hc1 Hc2 Hn1 Hn2 (Rle_refl _)).
  pose proof (nearest_mono _ _ _ _ _ _ Hc2 Hc1 Hn2 Hn1 (Rle_refl _)).
  destruct (ord_inj m1 e1 m2 e2 Hc1 Hc2 ltac:(lia)) as [-> ->].
  destruct (Rlt_le_dec 0 v) as [Hv0 | Hv0].
  - rewrite (Hp1 Hv0), (Hp2 Hv0). reflexivity.
  - rewrite (Hq1 ltac:(lra)), (Hq2 ltac:(lra)). reflexivity.
Qed.

Lemma rounds_to_zero_inv f : rounds_to 0 f -> exists s, f = S754_zero s.
Proof.
  intros (m & e & s & Hc & Hn & -> & _). rewrite Rabs_R0 in Hn.
  destruct (nearest_zero _ _ Hc Hn) as [-> ->]. exists s. reflexivity.
Qed.

(** Every number with a mantissa below 2^53 at a representable exponent
    has a canonical form. *)
Lemma canon_repr z e :
  0 < z < 9007199254740992 -> -1074 <= e ->
  exists m' e', canon m' e' /\ e' <= e /\ 0 < m' /\
    (IZR m' * bpow e' = IZR z * bpow e)%R.
Proof.
  intros Hz He.
  pose proof (Zdigits2_bounds z ltac:(lia)) as [Hlo Hhi].
  pose proof (Zdigits2_pos z ltac:(lia)) as Hd.
  set (d := Zdigits2 z) in *.
  assert (d - 1 < 53) as Hd53 by (apply pow2_lt_inv; [lia | rewrite pow2_53; lia]).
  set (k := Z.min (53 - d) (e + 1074)).
  assert (0 <= k) as Hk by (unfold k; lia).
  assert (0 < 2 ^ k) as Hpk by (apply Z.pow_pos_nonneg; lia).
  exists (z * 2 ^ k), (e - k). split; [|split; [lia | split; [nia|]]].
  - unfold canon. repeat split; try (unfold k; lia); try nia.
    + rewrite <- pow2_53. apply Z.lt_le_trans with (2 ^ d * 2 ^ k); [nia|].
      rewrite <- Z.pow_add_r by lia. apply Z.pow_le_mono_r; unfold k; lia.
    + intros Hgt. assert (k = 53 - d) as Ek by (unfold k in *; lia).
      rewrite <- pow2_52. replace 52 with (d - 1 + k) by lia.
      rewrite Z.pow_add_r by lia. nia.
  - rewrite IZR_mul_pow2 by lia.
    assert (bpow e = bpow k * bpow (e - k))%R as Eb
      by (rewrite <- bpow_plus; f_equal; lia).
    rewrite Eb. ring.
Qed.

(** A representable number is computed exactly. *)
Lemma rounds_to_dyadic z e f :
  rounds_to (IZR z * bpow e) f ->
  Z.abs z < 9007199254740992 -> -1074 <= e <= 971 ->
  finite64 f = true /\ SF2R f = (IZR z * bpow e)%R.
Proof.
  intros Hr Hz He. pose proof (bpow_gt_0 e) as Hb.
  destruct (Z.eq_dec z 0) as [-> | Hnz].
  - replace (IZR 0 * bpow e)%R with 0%R in * by lra.
    destruct (rounds_to_zero_inv _ Hr) as [s ->]. split; reflexivity.
  - destruct (canon_repr (Z.abs z) e ltac:(lia) ltac:(lia))
      as (m' & e' & Hc' & He' & Hm' & Ev).
    destruct Hr as (m & e0 & s & Hc & Hn & -> & Hp & Hq).
    assert (Rabs (IZR z * bpow e) = IZR (Z.abs z) * bpow e)%R as Ea.
    { rewrite Rabs_mult, (Rabs_right (bpow e)) by lra. rewrite <- abs_IZR. reflexivity. }
    rewrite Ea, <- Ev in Hn.
    destruct (nearest_exact m' e' m e0 Hc' Hc Hn) as [-> ->].
    destruct m' as [|p|p]; try lia.
    unfold decode. change (emax - prec) with 971.
    destruct (Z.leb_spec e' 971) as [_ | ?]; [|lia].
    split.
    + unfold finite64. cbn [is_finite andb]. apply canon_valid; [exact Hc' | lia].
    + cbn [SF2R]. rewrite IZR_cond_Zopp.
      destruct (Z_lt_le_dec z 0) as [Hneg | Hpos].
      * assert (IZR z < 0)%R by (apply IZR_lt; lia).
        rewrite (Hq ltac:(nra)). rewrite Z.abs_neq, opp_IZR in Ev by lia. lra.
      * assert (0 < IZR z)%R by (apply IZR_lt; lia).
        rewrite (Hp ltac:(nra)). rewrite Z.abs_eq in Ev by lia. lra.
Qed.

(** A finite result is within half a unit in the last place of the number
    rounded. *)
Lemma rounds_to_error v f :
  rounds_to v f -> is_finite f = true -> (Rabs (SF2R f - v) <= ulp f / 2)%R.
Proof.
  intros (m & e & s & Hc & Hn & -> & Hp & Hq) Hf.
  destruct (nearest_bounds _ _ _ Hn) as [Hb Ex]. cbn zeta in *.
  pose proof (bpow_gt_0 e) as Hpe.
  set (t := (Rabs v / bpow e)%R) in *.
  destruct (decode_cases s m e Hc) as [(-> & E) | [(p & -> & He & E) | (_ & _ & E)]];
    rewrite E in *; try discriminate; cbn [SF2R ulp].
  - pose proof (canon_zero _ Hc) as ->.
    replace (0 - v)%R with (- v)%R by lra. rewrite Rabs_Ropp, Ex. nra.
  - rewrite IZR_cond_Zopp.
    destruct (Rlt_le_dec v 0) as [Hv | Hv].
    + rewrite (Hq Hv). rewrite Rabs_left in Ex by lra.
      replace (- IZR (Z.pos p) * bpow e - v)%R with ((t - IZR (Z.pos p)) * bpow e)%R by lra.
      rewrite Rabs_mult, (Rabs_right (bpow e)) by lra.
      assert (Rabs (t - IZR (Z.pos p)) <= / 2)%R by (apply Rabs_le; lra). nra.
    + rewrite Rabs_right in Ex by lra.
      destruct (Req_dec v 0) as [E0 | N0].
      * assert (t = 0)%R as Et by (apply (Rmult_eq_reg_r (bpow e)); lra).
        assert (0 < IZR (Zpos p))%R by (apply IZR_lt; lia).
        assert (1 <= IZR (Zpos p))%R by (apply IZR_le; lia). lra.
      * rewrite (Hp ltac:(lra)).
        replace (IZR (Z.pos p) * bpow e - v)%R with ((IZR (Z.pos p) - t) * bpow e)%R by lra.
        rewrite Rabs_mult, (Rabs_right (bpow e)) by lra.
        assert (Rabs (IZR (Z.pos p) - t) <= / 2)%R by (apply Rabs_le; lra). nra.
Qed.

(** No overflow below the largest finite number. *)
Lemma rounds_to_no_overflow v f :
  rounds_to v f -> (Rabs v <= 9007199254740991 * bpow 971)%R -> is_finite f = true.
Proof.
  intros (m & e & s & Hc & Hn & -> & _) Hv.
  assert (canon 9007199254740991 971) as Hmax by (unfold canon; lia).
  pose proof (nearest_self 9007199254740991 971 ltac:(lia)) as Hs.
  pose proof (nearest_mono _ _ _ _ _ _ Hc Hmax Hn Hs Hv) as Ho.
  destruct (decode_cases s m e Hc) as [(_ & ->) | [(p & _ & _ & ->) | (Hm & He & _)]];
    try reflexivity.
  pose proof (ord_lt_exp _ _ _ _ Hmax Hc ltac:(lia)). lia.
Qed.

(** Overflow from 2^1024 on. *)
Lemma rounds_to_overflow v f :
  rounds_to v f -> (bpow 1024 <= Rabs v)%R -> is_finite f = false.
Proof.
  intros (m & e & s & Hc & Hn & -> & _) Hv.
  pose proof (nearest_self 4503599627370496 972 ltac:(lia)) as Hs.
  assert (IZR 4503599627370496 * bpow 972 = bpow 1024)%R as Eb.
  { change 1024 with (52 + 972). rewrite bpow_plus, (bpow_IZR 52) by lia. reflexivity. }
  rewrite Eb in Hs.
  pose proof (nearest_mono _ _ _ _ _ _ canon_inf Hc Hs Hn Hv) as Ho.
  destruct (decode_cases s m e Hc) as [(-> & _) | [(p & -> & He & _) | (_ & _ & ->)]];
    try reflexivity.
  - pose proof ord_inf_pos. unfold ord in Ho at 2. lia.
  - pose proof (ord_lt_exp _ _ _ _ Hc canon_inf ltac:(lia)). lia.
Qed.

(** No underflow to zero from the smallest positive number on. *)
Lemma rounds_to_nonzero v f s :
  rounds_to v f -> (bpow (-1074) <= Rabs v)%R -> f <> S754_zero s.
Proof.
  intros (m & e & s' & Hc & Hn & -> & _) Hv E.
  destruct (decode_cases s' m e Hc) as [(-> & _) | [(p & _ & _ & E') | (_ & _ & E')]];
    try (rewrite E' in E; discriminate).
  pose proof (canon_zero _ Hc) as ->.
  destruct (nearest_bounds _ _ _ Hn) as [Hb Ex]. cbn zeta in *.
  pose proof (bpow_gt_0 (-1074)). nra.
Qed.

(** ** The steps of [net_income] *)

Lemma SFadd_finite_inv x y :
  is_finite (SF64add x y) = true -> is_finite x = true /\ is_finite y = true.
Proof.
  destruct x as [sx | sx | | sx mx ex], y as [sy | sy | | sy my ey];
    try (intros; split; reflexivity); cbn [SF64add SFadd is_finite];
    try discriminate; destruct sx, sy; discriminate.
Qed.

Lemma SFmul_finite_inv x y :
  is_finite (SF64mul x y) = true -> is_finite x = true /\ is_finite y = true.
Proof.
  destruct x as [sx | sx | | sx mx ex], y as [sy | sy | | sy my ey];
    try (intros; split; reflexivity); cbn [SF64mul SFmul is_finite]; discriminate.
Qed.

Lemma SF2R_half : SF2R half = (/ 2)%R.
Proof.
  cbn [SF2R half cond_Zopp].
  assert (bpow (-53) * IZR 9007199254740992 = 1)%R as E.
  { rewrite <- pow2_53, <- bpow_IZR, <- bpow_plus by lia. reflexivity. }
  lra.
Qed.

Lemma finite64_half : finite64 half = true.
Proof. reflexivity. Qed.

Lemma SFleb_SF2R x y :
  finite64 x = true -> finite64 y = true ->
  SFleb x y = true -> (SF2R x <= SF2R y)%R.
Proof.
  intros Hx Hy H. rewrite !SF2R_fpos by assumption.
  unfold finite64 in Hx, Hy. apply andb_true_iff in Hx, Hy.
  destruct Hx as [Fx Vx]. destruct Hy as [Fy Vy].
  rewrite SFleb_fpos in H; try assumption;
    try (intros ->; discriminate).
  apply Z.leb_le, IZR_le in H. pose proof (bpow_gt_0 (-1074)). nra.
Qed.

(** The multiplier [10 ** d] as a double, when it fits. *)
Lemma multiplier_spec d M :
  0 <= d -> float_of_int (10 ^ d) = Ok M ->
  finite64 M = true /\ (0 < SF2R M)%R /\ rounds_to (IZR (10 ^ d)) M.
Proof.
  intros Hd E. pose proof (float_of_int_rounds _ _ E) as Hr.
  assert (0 < 10 ^ d) as Hp by (apply Z.pow_pos_nonneg; lia).
  assert (1 <= IZR (10 ^ d))%R as H1 by (apply IZR_le; lia).
  assert (is_finite M = true) as Hf.
  { pose proof (rounds_to_valid _ _ Hr) as [_ Hn].
    unfold float_of_int in E.
    destruct (binary_normalize prec emax (10 ^ d) 0 false); inversion E; subst;
      try reflexivity; congruence. }
  pose proof (rounds_to_finite64 _ _ Hr Hf) as H64.
  split; [exact H64|]. split; [|exact Hr].
  assert (rounds_to 1 (S754_finite false 4503599627370496 (-52))) as Hone.
  { assert (SF2R (S754_finite false 4503599627370496 (-52)) = 1)%R as Ev.
    { cbn [SF2R cond_Zopp].
      assert (IZR 4503599627370496 * bpow (-52) = 1)%R as E'.
      { rewrite <- pow2_52, <- bpow_IZR, <- bpow_plus by lia. reflexivity. }
      exact E'. }
    rewrite <- Ev. apply rounds_to_exact. reflexivity. }
  pose proof (rounds_to_le _ _ _ _ Hone Hr H1 eq_refl Hf) as Hle.
  cbn [SF2R cond_Zopp] in Hle.
  assert (IZR 4503599627370496 * bpow (-52) = 1)%R as E'.
  { rewrite <- pow2_52, <- bpow_IZR, <- bpow_plus by lia. reflexivity. }
  lra.
Qed.

(** The steps of [net_income] for a non-negative [decimals], spelled out. *)
Lemma net_income_inv r e d v :
  0 <= d -> net_income r e d = Ok v ->
  exists M n,
    float_of_int (10 ^ d) = Ok M /\
    math_floor (SF64add (SF64mul (SF64sub r e) M) half) = Ok n /\
    int_truediv n (10 ^ d) = Ok v.
Proof.
  intros Hd. unfold net_income, pow10.
  replace (0 <=? d) with true by (symmetry; apply Z.leb_le; exact Hd).
  cbn [bind float_mul int_div_num]. unfold bind.
  destruct (float_of_int (10 ^ d)) as [M|]; [|discriminate].
  destruct (math_floor (SF64add (SF64mul (SF64sub r e) M) half)) as [n|] eqn:En;
    [|discriminate].
  intros E. exists M, n. auto.
Qed.

Lemma math_floor_finite x n : math_floor x = Ok n -> is_finite x = true.
Proof. destruct x; try discriminate; reflexivity. Qed.

(** The number held before the floor, with its rounding steps. *)
Lemma scaled_sum_spec r e M n :
  finite64 r = true -> finite64 e = true -> finite64 M = true ->
  math_floor (SF64add (SF64mul (SF64sub r e) M) half) = Ok n ->
  let raw := SF64sub r e in
  let scaled := SF64mul raw M in
  let x := SF64add scaled half in
  finite64 raw = true /\ finite64 scaled = true /\ finite64 x = true /\
  rounds_to (SF2R r - SF2R e) raw /\
  rounds_to (SF2R raw * SF2R M) scaled /\
  rounds_to (SF2R scaled + / 2) x.
Proof.
  intros Hr He HM Hn. cbn zeta.
  pose proof (math_floor_finite _ _ Hn) as Fx.
  destruct (SFadd_finite_inv _ _ Fx) as [Fs _].
  destruct (SFmul_finite_inv _ _ Fs) as [Fr _].
  pose proof (SFsub_rounds r e Hr He) as Rr.
  pose proof (rounds_to_finite64 _ _ Rr Fr) as Vr.
  pose proof (SFmul_rounds _ _ Vr HM) as Rs.
  pose proof (rounds_to_finite64 _ _ Rs Fs) as Vs.
  pose proof (SFadd_rounds _ _ Vs finite64_half) as Rx. rewrite SF2R_half in Rx.
  pose proof (rounds_to_finite64 _ _ Rx Fx) as Vx.
  repeat split; assumption.
Qed.

Lemma net_income_mono_gen r1 e1 r2 e2 d v1 v2 :
  finite64 r1 = true -> finite64 e1 = true ->
  finite64 r2 = true -> finite64 e2 = true -> 0 <= d ->
  (SF2R r1 - SF2R e1 <= SF2R r2 - SF2R e2)%R ->
  net_income r1 e1 d = Ok v1 -> net_income r2 e2 d = Ok v2 ->
  SFleb v1 v2 = true.
Proof.
  intros Hr1 He1 Hr2 He2 Hd Hv E1 E2.
  destruct (net_income_inv _ _ _ _ Hd E1) as (M & n1 & EM & En1 & Ev1).
  destruct (net_income_inv _ _ _ _ Hd E2) as (M' & n2 & EM' & En2 & Ev2).
  rewrite EM in EM'. inversion EM'; subst M'. clear EM'.
  destruct (multiplier_spec d M Hd EM) as (HM & HMpos & _).
  destruct (scaled_sum_spec _ _ _ _ Hr1 He1 HM En1) as (Vr1 & Vs1 & Vx1 & Rr1 & Rs1 & Rx1).
  destruct (scaled_sum_spec _ _ _ _ Hr2 He2 HM En2) as (Vr2 & Vs2 & Vx2 & Rr2 & Rs2 & Rx2).
  assert (forall f, finite64 f = true -> is_finite f = true) as Hfin.
  { intros f H. unfold finite64 in H. apply andb_true_iff in H. apply H. }
  pose proof (rounds_to_le _ _ _ _ Rr1 Rr2 Hv (Hfin _ Vr1) (Hfin _ Vr2)) as L1.
  assert (SF2R (SF64sub r1 e1) * SF2R M <= SF2R (SF64sub r2 e2) * SF2R M)%R as L1' by nra.
  pose proof (rounds_to_le _ _ _ _ Rs1 Rs2 L1' (Hfin _ Vs1) (Hfin _ Vs2)) as L2.
  pose proof (rounds_to_le _ _ _ _ Rx1 Rx2 ltac:(lra) (Hfin _ Vx1) (Hfin _ Vx2)) as L3.
  pose proof (math_floor_spec _ _ En1) as F1.
  pose proof (math_floor_spec _ _ En2) as F2.
  assert (n1 <= n2) as Hn.
  { assert (n1 < n2 + 1) by (apply lt_IZR; rewrite plus_IZR; lra). lia. }
  pose proof (int_truediv_rounds _ _ _ Ev1) as Q1.
  pose proof (int_truediv_rounds _ _ _ Ev2) as Q2.
  assert (0 < 10 ^ d) as Hp by (apply Z.pow_pos_nonneg; lia).
  assert (0 < IZR (10 ^ d))%R as HpR by (apply IZR_lt; lia).
  assert (IZR n1 / IZR (10 ^ d) <= IZR n2 / IZR (10 ^ d))%R as Hq.
  { unfold Rdiv. apply Rmult_le_compat_r; [|apply IZR_le; exact Hn].
    apply Rlt_le, Rinv_0_lt_compat, HpR. }
  pose proof (rounds_to_mono _ _ _ _ Q1 Q2 Hq) as Hpos.
  destruct (rounds_to_valid _ _ Q1) as [V1 N1].
  destruct (rounds_to_valid _ _ Q2) as [V2 N2].
  rewrite SFleb_fpos by assumption. apply Z.leb_le. exact Hpos.
Qed.

(** ** Range of the conversions and of the final quotient *)

Lemma max_int_R : IZR max_int = (9007199254740991 * bpow 971)%R.
Proof. unfold max_int. rewrite IZR_mul_pow2 by lia. reflexivity. Qed.

Lemma pow10_308 : 10 ^ 308 <= max_int.
Proof. apply Z.leb_le. vm_compute. reflexivity. Qed.

Lemma pow10_309 : 2 ^ 1024 <= 10 ^ 309.
Proof. apply Z.leb_le. vm_compute. reflexivity. Qed.

Lemma float_of_int_small z :
  Z.abs z <= max_int -> exists f, float_of_int z = Ok f /\ finite64 f = true.
Proof.
  intros Hz. pose proof (binary_normalize_rounds z 0 false) as Hr.
  rewrite bpow_0, Rmult_1_r in Hr.
  assert (is_finite (binary_normalize prec emax z 0 false) = true) as Hf.
  { apply (rounds_to_no_overflow _ _ Hr). rewrite <- max_int_R, <- abs_IZR.
    apply IZR_le. exact Hz. }
  unfold float_of_int.
  destruct (binary_normalize prec emax z 0 false) eqn:E; try discriminate;
    eexists; (split; [reflexivity | apply (rounds_to_finite64 _ _ Hr Hf)]).
Qed.

Lemma float_of_int_large z :
  2 ^ 1024 <= Z.abs z -> float_of_int z = Raise OverflowError.
Proof.
  intros Hz. pose proof (binary_normalize_rounds z 0 false) as Hr.
  rewrite bpow_0, Rmult_1_r in Hr.
  assert (is_finite (binary_normalize prec emax z 0 false) = false) as Hf.
  { apply (rounds_to_overflow _ _ Hr). rewrite <- abs_IZR, (bpow_IZR 1024) by lia.
    apply IZR_le. exact Hz. }
  destruct (rounds_to_valid _ _ Hr) as [_ Hn].
  unfold float_of_int.
  destruct (binary_normalize prec emax z 0 false); try discriminate;
    [reflexivity | congruence].
Qed.

Lemma finite64_is_finite f : finite64 f = true -> is_finite f = true.
Proof. unfold finite64. intros H. apply andb_true_iff in H. apply H. Qed.

Lemma finite64_bound f : finite64 f = true -> (Rabs (SF2R f) <= IZR max_int)%R.
Proof.
  intros Hf. rewrite max_int_R. pose proof (bpow_gt_0 971) as Hb.
  destruct f as [s | s | | s m e]; try discriminate; cbn [SF2R].
  - rewrite Rabs_R0. nra.
  - destruct (finite64_finite _ _ _ Hf) as [(Hm & _) He].
    pose proof (bpow_gt_0 e) as Hbe. rewrite Rabs_signed by exact Hbe.
    pose proof (bpow_le e 971 He) as Hle.
    assert (0 < IZR (Zpos m) <= 9007199254740991)%R as Hi
      by (split; [apply IZR_lt | apply IZR_le]; lia).
    nra.
Qed.

Lemma Rabs_le_inv x a : (Rabs x <= a)%R -> (- a <= x <= a)%R.
Proof. unfold Rabs. destruct (Rcase_abs x); lra. Qed.

Lemma floor_bound x n :
  finite64 x = true -> math_floor x = Ok n -> Z.abs n <= max_int.
Proof.
  intros Hx Hn. pose proof (math_floor_spec _ _ Hn) as Hs.
  pose proof (finite64_bound _ Hx) as Hb. apply Rabs_le_inv in Hb.
  rewrite <- opp_IZR in Hb.
  assert (n < max_int + 1) by (apply lt_IZR; rewrite plus_IZR; lra).
  assert (- max_int < n + 1) by (apply lt_IZR; rewrite plus_IZR; lra).
  lia.
Qed.

Lemma int_truediv_total n D :
  Z.abs n <= max_int -> 0 < D ->
  exists v, int_truediv n D = Ok v /\ finite64 v = true.
Proof.
  intros Hn HD. unfold int_truediv.
  destruct (Z.eqb_spec D 0) as [|_]; [lia|].
  pose proof (int_div_rounds n D ltac:(lia)) as Hr.
  assert (is_finite (SF64div (int_operand n) (int_operand D)) = true) as Hf.
  { apply (rounds_to_no_overflow _ _ Hr). rewrite <- max_int_R.
    assert (1 <= IZR D)%R as HD1 by (apply IZR_le; lia).
    assert (Rabs (IZR n) <= IZR max_int)%R as Hn'
      by (rewrite <- abs_IZR; apply IZR_le; exact Hn).
    unfold Rdiv. rewrite Rabs_mult, (Rabs_right (/ IZR D)).
    - assert (0 < / IZR D <= 1)%R.
      { split; [apply Rinv_0_lt_compat; lra|].
        rewrite <- Rinv_1. apply Rinv_le_contravar; lra. }
      pose proof (Rabs_pos (IZR n)). nra.
    - apply Rle_ge, Rlt_le, Rinv_0_lt_compat. lra. }
  destruct (SF64div (int_operand n) (int_operand D)) eqn:E; try discriminate;
    eexists; (split; [reflexivity | apply (rounds_to_finite64 _ _ Hr Hf)]).
Qed.

(** The scaled sum is never a NaN. *)
Lemma scaled_sum_cases r e M :
  finite64 r = true -> finite64 e = true -> finite64 M = true -> (0 < SF2R M)%R ->
  let x := SF64add (SF64mul (SF64sub r e) M) half in
  finite64 x = true \/ exists s, x = S754_infinity s.
Proof.
  intros Hr He HM HMpos. cbn zeta.
  pose proof (SFsub_rounds r e Hr He) as Rr.
  destruct (rounds_to_valid _ _ Rr) as [Vr Nr].
  destruct M as [sM | sM | | sM mM eM]; try discriminate.
  { cbn [SF2R] in HMpos. lra. }
  destruct (SF64sub r e) as [s | s | | s m ex] eqn:Eraw; try congruence.
  - left. reflexivity.
  - right. eexists. reflexivity.
  - assert (finite64 (S754_finite s m ex) = true) as Vraw by exact Vr.
    pose proof (SFmul_rounds _ _ Vraw HM) as Rs.
    destruct (rounds_to_valid _ _ Rs) as [Vs Ns].
    destruct (SF64mul (S754_finite s m ex) (S754_finite sM mM eM))
      as [s' | s' | | s' m' e'] eqn:Es; try congruence.
    + left. reflexivity.
    + right. eexists. reflexivity.
    + assert (finite64 (S754_finite s' m' e') = true) as Vsc by exact Vs.
      pose proof (SFadd_rounds _ _ Vsc finite64_half) as Rx.
      destruct (rounds_to_valid _ _ Rx) as [Vx Nx].
      destruct (SF64add (S754_finite s' m' e') half) as [s2 | s2 | | s2 m2 e2] eqn:Ex;
        try congruence.
      * left. reflexivity.
      * right. eexists. reflexivity.
      * left. exact Vx.
Qed.

(** ** Equal arguments *)

Lemma SFeqb_SF2R x y :
  finite64 x = true -> finite64 y = true ->
  SFeqb x y = true -> SF2R x = SF2R y.
Proof.
  intros Hx Hy H. rewrite !SF2R_fpos by assumption.
  unfold finite64 in Hx, Hy. apply andb_true_iff in Hx, Hy.
  destruct Hx as [Fx Vx]. destruct Hy as [Fy Vy].
  unfold SFeqb in H. rewrite SFcompare_fpos in H; try assumption;
    try (intros ->; discriminate).
  destruct (Z.compare_spec (fpos x) (fpos y)) as [E | E | E]; try discriminate.
  rewrite E. reflexivity.
Qed.

(** Equal finite arguments give [0.0] when [10 ** decimals] converts. *)
Lemma equal_inputs_zero r e d :
  finite64 r = true -> finite64 e = true -> SFeqb r e = true ->
  0 <= d <= 308 ->
  net_income r e d = Ok (S754_zero false).
Proof.
  intros Hr He Heq Hd.
  assert (0 < 10 ^ d) as Hp by (apply Z.pow_pos_nonneg; lia).
  pose proof (SFsub_rounds r e Hr He) as Rr.
  rewrite (SFeqb_SF2R _ _ Hr He Heq), Rminus_diag in Rr.
  destruct (rounds_to_zero_inv _ Rr) as [s Eraw].
  destruct (float_of_int_small (10 ^ d)) as (M & EM & HM).
  { rewrite Z.abs_eq by lia. etransitivity; [|exact pow10_308].
    apply Z.pow_le_mono_r; lia. }
  destruct (multiplier_spec d M ltac:(lia) EM) as (_ & HMpos & _).
  unfold net_income, pow10.
  replace (0 <=? d) with true by (symmetry; apply Z.leb_le; lia).
  cbn [bind float_mul int_div_num]. rewrite EM, Eraw. cbn [bind].
  destruct M as [sM | sM | | sM mM eM]; try discriminate.
  { cbn [SF2R] in HMpos. lra. }
  cbn [SF64mul SFmul SF64add SFadd half math_floor bind].
  unfold int_truediv. destruct (Z.eqb_spec (10 ^ d) 0) as [|_]; [lia|].
  destruct (10 ^ d) as [|p|p]; try lia. reflexivity.
Qed.

(** ** Exact binary fractions and their values *)

Lemma D2R_align a e : e <= snd a -> (IZR (dy_align a e) * bpow e = D2R a)%R.
Proof.
  intros H. unfold dy_align, D2R. rewrite IZR_mul_pow2 by lia.
  assert (bpow (snd a) = bpow (snd a - e) * bpow e)%R as Eb
    by (rewrite <- bpow_plus; f_equal; lia).
  rewrite Eb. ring.
Qed.

Lemma D2R_add a b : D2R (dy_add a b) = (D2R a + D2R b)%R.
Proof.
  unfold dy_add. cbn zeta. unfold D2R at 1. cbn [fst snd].
  rewrite plus_IZR, Rmult_plus_distr_r, !D2R_align by lia. reflexivity.
Qed.

Lemma D2R_sub a b : D2R (dy_sub a b) = (D2R a - D2R b)%R.
Proof.
  unfold dy_sub. cbn zeta. unfold D2R at 1. cbn [fst snd].
  rewrite minus_IZR, Rmult_minus_distr_r, !D2R_align by lia. reflexivity.
Qed.

Lemma D2R_mul a b : D2R (dy_mul a b) = (D2R a * D2R b)%R.
Proof.
  unfold dy_mul, D2R. cbn [fst snd]. rewrite mult_IZR, bpow_plus. ring.
Qed.

Lemma D2R_half : D2R dy_half = (/ 2)%R.
Proof.
  unfold D2R, dy_half. cbn [fst snd]. change (-1) with (0 - 1).
  rewrite (bpow_pred 0), bpow_0. lra.
Qed.

Lemma D2R_of x : D2R (dy_of x) = SF2R x.
Proof.
  destruct x; cbn [dy_of SF2R]; unfold D2R; cbn [fst snd]; lra.
Qed.

Lemma dy_eqb_spec a b : dy_eqb a b = true <-> D2R a = D2R b.
Proof.
  unfold dy_eqb. cbn zeta. set (e := Z.min (snd a) (snd b)).
  rewrite <- (D2R_align a e), <- (D2R_align b e) by (unfold e; lia).
  pose proof (bpow_gt_0 e) as Hb. rewrite Z.eqb_eq. split.
  - intros ->. reflexivity.
  - intros H. apply eq_IZR. nra.
Qed.

Lemma dy_floor_spec a : (IZR (dy_floor a) <= D2R a < IZR (dy_floor a) + 1)%R.
Proof.
  destruct a as [z e]. unfold dy_floor. cbn [fst snd].
  destruct z as [|p|p].
  - rewrite Z.shiftl_0_l. unfold D2R. cbn [fst snd]. lra.
  - apply (math_floor_spec (S754_finite false p e)). reflexivity.
  - apply (math_floor_spec (S754_finite true p e)). reflexivity.
Qed.

Lemma math_floor_dy x :
  is_finite x = true -> math_floor x = Ok (dy_floor (dy_of x)).
Proof. destruct x; try discriminate; reflexivity. Qed.

(** ** Halfway numbers *)

Lemma halfway_value s m e :
  halfway (S754_finite s m e) = true ->
  exists q, 0 <= q /\ (IZR (Zpos m) * bpow e = IZR q + / 2)%R.
Proof.
  cbn [halfway]. intros H. apply andb_true_iff in H. destruct H as [He Hm].
  apply Z.ltb_lt in He. apply Z.eqb_eq in Hm.
  assert (0 < 2 ^ (- e - 1)) as Hp by (apply Z.pow_pos_nonneg; lia).
  assert (2 ^ (- e) = 2 * 2 ^ (- e - 1)) as E2.
  { replace (- e) with (1 + (- e - 1)) at 1 by lia. rewrite Z.pow_add_r by lia. reflexivity. }
  pose proof (Z.div_mod (Zpos m) (2 ^ (- e)) ltac:(lia)) as Hdm.
  rewrite Hm, E2 in Hdm.
  exists (Zpos m / (2 * 2 ^ (- e - 1))). split.
  - apply Z.div_pos; lia.
  - set (q := Zpos m / (2 * 2 ^ (- e - 1))) in *.
    assert (bpow e * (2 * IZR (2 ^ (- e - 1))) = 1)%R as Eb.
    { rewrite <- (bpow_IZR (- e - 1)) by lia. rewrite <- bpow_succ, <- bpow_plus.
      replace (e + (- e - 1 + 1)) with 0 by lia. apply bpow_0. }
    assert (0 < IZR (2 ^ (- e - 1)))%R as HpR by (apply IZR_lt; lia).
    rewrite Hdm, plus_IZR, !mult_IZR.
    set (P := IZR (2 ^ (- e - 1))) in *. pose proof (bpow_gt_0 e) as Hbe.
    replace ((2 * P * IZR q + P) * bpow e)%R
      with ((IZR q + / 2) * (bpow e * (2 * P)))%R by (field; lra).
    rewrite Eb. ring.
Qed.

Lemma halfway_spec x k :
  halfway x = true -> math_floor x = Ok k -> SF2R x = (IZR k + / 2)%R.
Proof.
  intros Hh Hk. pose proof (math_floor_spec _ _ Hk) as Hs.
  destruct x as [s | s | | s m e]; try discriminate.
  destruct (halfway_value _ _ _ Hh) as (q & Hq & Ev).
  cbn [SF2R] in *. rewrite IZR_cond_Zopp in *. destruct s.
  - assert (k = - q - 1) as ->.
    { apply (floor_unique _ _ (- IZR (Zpos m) * bpow e)%R); [exact Hs|].
      rewrite minus_IZR, opp_IZR. lra. }
    rewrite minus_IZR, opp_IZR. lra.
  - assert (k = q) as ->.
    { apply (floor_unique _ _ (IZR (Zpos m) * bpow e)%R); [exact Hs | lra]. }
    lra.
Qed.

Lemma halfway_bound x :
  finite64 x = true -> halfway x = true -> (Rabs (SF2R x) < 4503599627370496)%R.
Proof.
  intros Hx Hh. destruct x as [s | s | | s m e]; try discriminate.
  destruct (finite64_finite _ _ _ Hx) as [(Hm & _) _].
  cbn [halfway] in Hh. apply andb_true_iff in Hh. destruct Hh as [He _].
  apply Z.ltb_lt in He. cbn [SF2R]. pose proof (bpow_gt_0 e) as Hb.
  rewrite Rabs_signed by exact Hb.
  pose proof (bpow_le e (-1) ltac:(lia)) as Hle.
  assert (bpow (-1) = / 2)%R as E1.
  { change (-1) with (0 - 1). rewrite (bpow_pred 0), bpow_0. lra. }
  assert (0 < IZR (Zpos m) <= 9007199254740991)%R
    by (split; [apply IZR_lt | apply IZR_le]; lia).
  nra.
Qed.

(** Adding one half to a halfway number gives the next integer, exactly. *)
Lemma add_half_halfway x k :
  finite64 x = true -> halfway x = true -> math_floor x = Ok k ->
  math_floor (SF64add x half) = Ok (k + 1).
Proof.
  intros Hx Hh Hk. pose proof (halfway_spec _ _ Hh Hk) as Ev.
  pose proof (halfway_bound _ Hx Hh) as Hb. rewrite Ev in Hb.
  apply Rabs_def2 in Hb.
  pose proof (SFadd_rounds _ _ Hx finite64_half) as Hr.
  rewrite SF2R_half, Ev in Hr.
  replace (IZR k + / 2 + / 2)%R with (IZR (k + 1) * bpow 0)%R in Hr
    by (rewrite plus_IZR, bpow_0; lra).
  assert (Z.abs (k + 1) < 9007199254740992) as Hz.
  { assert (k + 1 < 4503599627370496 + 1) by (apply lt_IZR; rewrite !plus_IZR; lra).
    assert (- 4503599627370496 < k + 1)
      by (apply lt_IZR; rewrite plus_IZR; lra).
    lia. }
  destruct (rounds_to_dyadic _ _ _ Hr Hz ltac:(lia)) as [Hf Hv].
  rewrite bpow_0, Rmult_1_r in Hv.
  rewrite (math_floor_dy _ (finite64_is_finite _ Hf)). f_equal.
  apply (floor_unique _ _ (D2R (dy_of (SF64add x half)))); [apply dy_floor_spec|].
  rewrite D2R_of, Hv. lra.
Qed.

(** ** Opposite arguments *)

Lemma binary_round_aux_opp s m e l :
  binary_round_aux prec emax (negb s) m e l
  = SFopp (binary_round_aux prec emax s m e l).
Proof.
  unfold binary_round_aux.
  destruct (shr_fexp prec emax m e l) as [mrs' e'].
  destruct (shr_fexp prec emax _ e' loc_Exact) as [mrs'' e''].
  destruct (shr_m mrs''); [reflexivity | | reflexivity].
  destruct (e'' <=? emax - prec); reflexivity.
Qed.

Lemma xorb_negb_l a b : xorb (negb a) b = negb (xorb a b).
Proof. destruct a, b; reflexivity. Qed.

Lemma SFmul_opp a b : SF64mul (SFopp a) b = SFopp (SF64mul a b).
Proof.
  destruct a as [sa | sa | | sa ma ea], b as [sb | sb | | sb mb eb];
    cbn [SFopp SF64mul SFmul]; rewrite ?xorb_negb_l; try reflexivity.
  apply binary_round_aux_opp.
Qed.

Lemma SFdiv_opp sa ma ea b :
  SF64div (S754_finite (negb sa) ma ea) b = SFopp (SF64div (S754_finite sa ma ea) b).
Proof.
  destruct b as [sb | sb | | sb mb eb];
    cbn [SFopp SF64div SFdiv]; rewrite ?xorb_negb_l; try reflexivity.
  destruct (SFdiv_core_binary prec emax (Z.pos ma) ea (Z.pos mb) eb) as [[q e'] l].
  apply binary_round_aux_opp.
Qed.

Lemma int_truediv_opp n D v :
  n <> 0 -> int_truediv n D = Ok v -> int_truediv (- n) D = Ok (SFopp v).
Proof.
  intros Hn. unfold int_truediv. destruct (D =? 0); [discriminate|].
  assert (int_operand (- n) = match int_operand n with
                              | S754_finite s m e => S754_finite (negb s) m e
                              | f => f
                              end) as Eo by (destruct n; try lia; reflexivity).
  rewrite Eo. destruct n as [|p|p]; try lia; cbn [int_operand];
    rewrite SFdiv_opp;
    destruct (SF64div _ (int_operand D)); intros E; inversion E; reflexivity.
Qed.

Lemma SFeqb_refl f : f <> S754_nan -> SFeqb f f = true.
Proof.
  intros Hn. unfold SFeqb. destruct f as [s | s | | s m e]; try congruence.
  - reflexivity.
  - destruct s; reflexivity.
  - cbn [SFcompare]. rewrite Z.compare_refl.
    change (Pos.compare_cont Eq m m) with (Pos.compare m m). rewrite Pos.compare_refl.
    destruct s; reflexivity.
Qed.

Lemma halfway_complete x k : SF2R x = (IZR k + / 2)%R -> halfway x = true.
Proof.
  destruct x as [s | s | | s m e]; cbn [SF2R halfway]; intros H;
    try (exfalso; assert (IZR (2 * k + 1) = 0)%R as E
           by (rewrite plus_IZR, mult_IZR; lra); apply eq_IZR in E; lia).
  pose proof (bpow_gt_0 e) as Hb.
  assert (exists a, (IZR (Zpos m) * bpow e * 2 = IZR (2 * a + 1))%R) as [a Ha].
  { rewrite IZR_cond_Zopp in H. destruct s.
    - exists (- k - 1). rewrite plus_IZR, mult_IZR, minus_IZR, opp_IZR. lra.
    - exists k. rewrite plus_IZR, mult_IZR. lra. }
  destruct (Z_le_gt_dec 0 e) as [He | He].
  - exfalso. rewrite <- IZR_mul_pow2, <- mult_IZR in Ha by exact He.
    apply eq_IZR in Ha. lia.
  - apply andb_true_iff. split; [apply Z.ltb_lt; lia|]. apply Z.eqb_eq.
    assert (0 < 2 ^ (- e - 1)) as Hp by (apply Z.pow_pos_nonneg; lia).
    assert (2 ^ (- e) = 2 * 2 ^ (- e - 1)) as E2.
    { replace (- e) with (1 + (- e - 1)) at 1 by lia.
      rewrite Z.pow_add_r by lia. reflexivity. }
    assert (Zpos m = (2 * a + 1) * 2 ^ (- e - 1)) as Em.
    { apply eq_IZR. rewrite IZR_mul_pow2 by lia. rewrite <- Ha.
      assert (bpow e * 2 * bpow (- e - 1) = 1)%R as Eb.
      { rewrite Rmult_assoc, <- bpow_succ, <- bpow_plus.
        replace (e + (- e - 1 + 1)) with 0 by lia. apply bpow_0. }
      transitivity (IZR (Zpos m) * (bpow e * 2 * bpow (- e - 1)))%R;
        [rewrite Eb; ring | ring]. }
    rewrite E2. symmetry. apply (Z.mod_unique_pos _ _ a); lia.
Qed.

Lemma add_half_exact_spec x :
  add_half_exact x = true ->
  exists n, math_floor (SF64add x half) = Ok n /\
            (IZR n <= SF2R x + / 2 < IZR n + 1)%R.
Proof.
  unfold add_half_exact. intros H. apply andb_true_iff in H. destruct H as [Hf He].
  apply dy_eqb_spec in He. rewrite D2R_add, !D2R_of, D2R_half in He.
  exists (dy_floor (dy_of (SF64add x half))). split; [apply math_floor_dy; exact Hf|].
  rewrite <- He, <- D2R_of. apply dy_floor_spec.
Qed.

(** The scaled difference of the swapped call: the opposite number, or a
    zero again. *)
Lemma scaled_difference_swap r e d x :
  finite64 r = true -> finite64 e = true -> 0 <= d ->
  scaled_difference r e d = Ok x -> is_finite x = true ->
  exists x', scaled_difference e r d = Ok x' /\
             (x' = SFopp x \/ (exists s s', x = S754_zero s /\ x' = S754_zero s')).
Proof.
  intros Hr He Hd Ex Fx. unfold scaled_difference, pow10 in *.
  replace (0 <=? d) with true in * by (symmetry; apply Z.leb_le; exact Hd).
  cbn [bind float_mul] in *.
  destruct (float_of_int (10 ^ d)) as [M|] eqn:EM; [|discriminate].
  cbn [bind] in *. inversion Ex; subst x; clear Ex.
  eexists. split; [reflexivity|].
  destruct (multiplier_spec d M Hd EM) as (HM & HMpos & _).
  pose proof (SFsub_rounds r e Hr He) as R1.
  pose proof (SFsub_rounds e r He Hr) as R2.
  destruct (Req_dec (SF2R r - SF2R e) 0) as [E0 | N0].
  - right. rewrite E0 in R1. replace (SF2R e - SF2R r)%R with 0%R in R2 by lra.
    destruct (rounds_to_zero_inv _ R1) as [s1 ->].
    destruct (rounds_to_zero_inv _ R2) as [s2 ->].
    destruct M as [sM | sM | | sM mM eM]; try discriminate.
    + cbn [SF2R] in HMpos. lra.
    + eexists. eexists. split; reflexivity.
  - left. rewrite <- SFmul_opp. f_equal.
    apply (rounds_to_unique (SF2R e - SF2R r)); [exact R2 | | lra].
    replace (SF2R e - SF2R r)%R with (- (SF2R r - SF2R e))%R by lra.
    apply rounds_to_opp. exact R1.
Qed.

(** ** Re-rounding a result *)

Lemma dyadic_bound z e :
  Z.abs z < 9007199254740992 -> e <= 971 ->
  (Rabs (IZR z * bpow e) <= 9007199254740991 * bpow 971)%R.
Proof.
  intros Hz He. pose proof (bpow_gt_0 e) as Hb. pose proof (bpow_le e 971 He) as Hle.
  rewrite Rabs_mult, (Rabs_right (bpow e)) by lra. rewrite <- abs_IZR.
  assert (0 <= IZR (Z.abs z) <= 9007199254740991)%R
    by (split; apply IZR_le; lia).
  nra.
Qed.

(** Rounding stays between representable bounds. *)
Lemma rounds_to_between w f z1 e1 z2 e2 :
  rounds_to w f ->
  Z.abs z1 < 9007199254740992 -> -1074 <= e1 <= 971 ->
  Z.abs z2 < 9007199254740992 -> -1074 <= e2 <= 971 ->
  (IZR z1 * bpow e1 <= w <= IZR z2 * bpow e2)%R ->
  finite64 f = true /\ (IZR z1 * bpow e1 <= SF2R f <= IZR z2 * bpow e2)%R.
Proof.
  intros Hr Hz1 He1 Hz2 He2 Hw.
  pose proof (binary_normalize_rounds z1 e1 false) as R1.
  pose proof (binary_normalize_rounds z2 e2 false) as R2.
  destruct (rounds_to_dyadic _ _ _ R1 Hz1 He1) as [F1 V1].
  destruct (rounds_to_dyadic _ _ _ R2 Hz2 He2) as [F2 V2].
  assert (is_finite f = true) as Ff.
  { apply (rounds_to_no_overflow _ _ Hr).
    pose proof (dyadic_bound z1 e1 Hz1 ltac:(lia)) as B1.
    pose proof (dyadic_bound z2 e2 Hz2 ltac:(lia)) as B2.
    apply Rabs_le_inv in B1, B2. apply Rabs_le. lra. }
  split; [apply (rounds_to_finite64 _ _ Hr Ff)|].
  pose proof (rounds_to_le _ _ _ _ R1 Hr ltac:(lra) (finite64_is_finite _ F1) Ff).
  pose proof (rounds_to_le _ _ _ _ Hr R2 ltac:(lra) Ff (finite64_is_finite _ F2)).
  lra.
Qed.

Lemma pow10_exact d M :
  0 <= d <= 22 -> float_of_int (10 ^ d) = Ok M ->
  finite64 M = true /\ SF2R M = IZR (10 ^ d).
Proof.
  intros Hd EM. pose proof (float_of_int_rounds _ _ EM) as Hr.
  assert (10 ^ d = 5 ^ d * 2 ^ d) as E10 by (rewrite <- Z.pow_mul_l; reflexivity).
  rewrite E10, IZR_mul_pow2 in * by lia.
  apply (rounds_to_dyadic _ _ _ Hr); [|lia].
  assert (0 < 5 ^ d) by (apply Z.pow_pos_nonneg; lia).
  assert (5 ^ d <= 5 ^ 22) by (apply Z.pow_le_mono_r; lia).
  change (5 ^ 22) with 2384185791015625 in *. lia.
Qed.

Lemma quotient_error n d s m e :
  0 <= d <= 22 -> Z.abs n <= 2 ^ 49 ->
  rounds_to (IZR n / IZR (10 ^ d)) (S754_finite s m e) ->
  (Rabs (SF2R (S754_finite s m e) * IZR (10 ^ d) - IZR n) <= / 8)%R.
Proof.
  intros Hd Hn Hr.
  pose proof (rounds_to_error _ _ Hr eq_refl) as Herr. cbn [ulp] in Herr.
  destruct (rounds_to_valid _ _ Hr) as [Hv _].
  destruct (valid_canon _ _ _ Hv) as [(Hm & He & Hnorm) _].
  assert (0 < 10 ^ d) as Hp by (apply Z.pow_pos_nonneg; lia).
  assert (10 ^ d <= 10 ^ 22) as Hp22 by (apply Z.pow_le_mono_r; lia).
  assert (0 < IZR (10 ^ d))%R as HD by (apply IZR_lt; lia).
  assert (IZR (10 ^ d) <= bpow 74)%R as HD74.
  { rewrite (bpow_IZR 74) by lia. apply IZR_le.
    etransitivity; [exact Hp22|]. apply Z.leb_le. vm_compute. reflexivity. }
  pose proof (bpow_gt_0 e) as Hu.
  set (D := IZR (10 ^ d)) in *. set (u := bpow e) in *.
  set (V := SF2R (S754_finite s m e)) in *.
  assert (Rabs (V * D - IZR n) <= D * u / 2)%R as Hmain.
  { replace (V * D - IZR n)%R with ((V - IZR n / D) * D)%R by (field; lra).
    rewrite Rabs_mult, (Rabs_right D) by lra.
    pose proof (Rabs_pos (V - IZR n / D)). nra. }
  assert (D * u <= / 4)%R as Hw.
  { destruct (Z.eq_dec e (-1074)) as [Ee | Ne].
    - unfold u. rewrite Ee.
      assert (bpow 74 * bpow (-1074) = bpow (-1000))%R as Eb
        by (rewrite <- bpow_plus; reflexivity).
      pose proof (bpow_le (-1000) (-2) ltac:(lia)) as Hle.
      assert (bpow (-2) = / 4)%R as E2.
      { change (-2) with (0 - 1 - 1). rewrite !bpow_pred, bpow_0. lra. }
      pose proof (bpow_gt_0 (-1074)). nra.
    - specialize (Hnorm ltac:(lia)).
      assert (4503599627370496 * u <= Rabs V)%R as HV.
      { unfold V. cbn [SF2R]. fold u. rewrite Rabs_signed by exact Hu.
        assert (4503599627370496 <= IZR (Zpos m))%R by (apply IZR_le; lia). nra. }
      assert (Rabs (IZR n) <= 562949953421312)%R as HnR.
      { rewrite <- abs_IZR. apply IZR_le. exact Hn. }
      assert (Rabs (V * D) <= Rabs (IZR n) + D * u / 2)%R as HVD.
      { pose proof (Rabs_triang (V * D - IZR n) (IZR n)) as Ht.
        replace (V * D - IZR n + IZR n)%R with (V * D)%R in Ht by ring. lra. }
      rewrite Rabs_mult, (Rabs_right D) in HVD by lra.
      assert (4503599627370496 * (D * u) <= Rabs V * D)%R by nra.
      lra. }
  lra.
Qed.

Lemma eighths n k :
  Z.abs n <= 2 ^ 49 -> Z.abs k <= 5 ->
  Z.abs (8 * n + k) < 9007199254740992 /\
  (IZR (8 * n + k) * bpow (-3) = IZR n + IZR k / 8)%R.
Proof.
  intros Hn Hk. change (2 ^ 49) with 562949953421312 in Hn. split; [lia|].
  assert (bpow (-3) = / 8)%R as E.
  { change (-3) with (0 - 1 - 1 - 1). rewrite !bpow_pred, bpow_0. lra. }
  rewrite E, plus_IZR, mult_IZR. lra.
Qed.

(** Re-rounding a returned value of moderate size gives it back. *)
Lemma reround n d v :
  0 <= d <= 22 -> Z.abs n <= 2 ^ 49 ->
  int_truediv n (10 ^ d) = Ok v ->
  net_income v (S754_zero false) d = Ok v.
Proof.
  intros Hd Hn Ev.
  assert (0 < 10 ^ d) as Hp by (apply Z.pow_pos_nonneg; lia).
  assert (0 < IZR (10 ^ d))%R as HD by (apply IZR_lt; lia).
  destruct (Z.eq_dec n 0) as [-> | Hnz].
  { assert (v = S754_zero false) as ->.
    { unfold int_truediv in Ev. destruct (Z.eqb_spec (10 ^ d) 0) as [|_]; [lia|].
      destruct (10 ^ d) as [|p|p]; try lia. cbn in Ev. inversion Ev. reflexivity. }
    apply equal_inputs_zero; try reflexivity. lia. }
  pose proof (int_truediv_rounds _ _ _ Ev) as Hr.
  destruct (rounds_to_valid _ _ Hr) as [Vv Nv].
  assert (exists s m e, v = S754_finite s m e) as (s & m & e & ->).
  { destruct v as [s | s | | s m e]; try congruence.
    - exfalso. apply (rounds_to_nonzero _ _ s Hr); [|reflexivity].
      assert (1 <= Rabs (IZR n))%R as H1.
      { rewrite <- abs_IZR. apply IZR_le. lia. }
      assert (10 ^ d <= 10 ^ 22) as Hp22 by (apply Z.pow_le_mono_r; lia).
      assert (IZR (10 ^ d) <= bpow 74)%R as HD74.
      { rewrite (bpow_IZR 74) by lia. apply IZR_le.
        etransitivity; [exact Hp22|]. apply Z.leb_le. vm_compute. reflexivity. }
      unfold Rdiv. rewrite Rabs_mult, (Rabs_right (/ IZR (10 ^ d)))
        by (apply Rle_ge, Rlt_le, Rinv_0_lt_compat; lra).
      pose proof (bpow_le (-1074) (-74) ltac:(lia)) as Hle.
      assert (bpow (-74) * bpow 74 = 1)%R as E1 by (rewrite <- bpow_plus; reflexivity).
      pose proof (bpow_gt_0 74) as Hb74.
      assert (bpow (-74) <= / IZR (10 ^ d))%R.
      { apply (Rmult_le_reg_r (IZR (10 ^ d))); [lra|].
        rewrite Rinv_l by lra. pose proof (bpow_gt_0 (-74)). nra. }
      assert (0 < / IZR (10 ^ d))%R by (apply Rinv_0_lt_compat; lra).
      nra.
    - unfold int_truediv in Ev. destruct (10 ^ d =? 0); [discriminate|].
      destruct (SF64div (int_operand n) (int_operand (10 ^ d))); discriminate.
    - eauto. }
  assert (finite64 (S754_finite s m e) = true) as Fv by exact Vv.
  destruct (float_of_int_small (10 ^ d)) as (M & EM & _).
  { rewrite Z.abs_eq by lia. etransitivity; [|exact pow10_308].
    apply Z.pow_le_mono_r; lia. }
  destruct (pow10_exact d M Hd EM) as [FM VM].
  pose proof (quotient_error n d s m e Hd Hn Hr) as Hq. apply Rabs_le_inv in Hq.
  pose proof (SFmul_rounds _ _ Fv FM) as Rs. rewrite VM in Rs.
  destruct (eighths n (-1) Hn ltac:(lia)) as [Za Ea].
  destruct (eighths n 1 Hn ltac:(lia)) as [Zb Eb].
  destruct (rounds_to_between _ _ _ (-3) _ (-3) Rs Za ltac:(lia) Zb ltac:(lia)) as [Fs Bs].
  { rewrite Ea, Eb. lra. }
  rewrite Ea, Eb in Bs.
  pose proof (SFadd_rounds _ _ Fs finite64_half) as Rx. rewrite SF2R_half in Rx.
  destruct (eighths n 3 Hn ltac:(lia)) as [Zc Ec].
  destruct (eighths n 5 Hn ltac:(lia)) as [Zd Ed].
  destruct (rounds_to_between _ _ _ (-3) _ (-3) Rx Zc ltac:(lia) Zd ltac:(lia)) as [Fx Bx].
  { rewrite Ec, Ed. lra. }
  rewrite Ec, Ed in Bx.
  unfold net_income, pow10.
  replace (0 <=? d) with true by (symmetry; apply Z.leb_le; lia).
  cbn [bind float_mul int_div_num]. rewrite EM. cbn [bind SF64sub SFsub].
  change (SFmul prec emax) with SF64mul.
  rewrite (math_floor_dy _ (finite64_is_finite _ Fx)). cbn [bind].
  replace (dy_floor (dy_of (SF64add (SF64mul (S754_finite s m e) M) half))) with n;
    [exact Ev|].
  apply (floor_unique _ _ (D2R (dy_of (SF64add (SF64mul (S754_finite s m e) M) half))));
    [|apply dy_floor_spec].
  rewrite D2R_of. lra.
Qed.

(** ** The fractional multiplier *)

Lemma rounds_to_underflow v f :
  rounds_to v f -> (0 < v < bpow (-1075))%R -> f = S754_zero false.
Proof.
  intros (m & e & s & Hc & Hn & -> & Hp & _) Hv.
  rewrite (Hp ltac:(lra)). rewrite Rabs_right in Hn by lra.
  destruct (nearest_bounds _ _ _ Hn) as [Hb Ex]. cbn zeta in *.
  destruct Hc as (Hm & He & _).
  destruct (Z.eq_dec m 0) as [-> | Hnz]; [reflexivity | exfalso].
  assert (1 <= IZR m)%R by (apply IZR_le; lia).
  pose proof (bpow_le (-1074) e He) as Hle.
  assert (bpow (-1074) = 2 * bpow (-1075))%R as E
    by (rewrite <- bpow_succ; reflexivity).
  pose proof (bpow_gt_0 e). pose proof (bpow_gt_0 (-1075)).
  set (t := (v / bpow e)%R) in *. nra.
Qed.

Lemma pow10_neg_rounds d :
  d < 0 -> rounds_to (/ IZR (10 ^ (- d))) (float_pow10_neg d).
Proof.
  intros Hd. assert (0 < 10 ^ (- d)) by (apply Z.pow_pos_nonneg; lia).
  pose proof (int_div_rounds 1 (10 ^ (- d)) ltac:(lia)) as H1.
  unfold Rdiv in H1. rewrite Rmult_1_l in H1. exact H1.
Qed.

Lemma pow10_323 : 10 ^ 323 <= 2 ^ 1074.
Proof. apply Z.leb_le. vm_compute. reflexivity. Qed.

Lemma pow10_324 : 2 ^ 1075 < 10 ^ 324.
Proof. apply Z.ltb_lt. vm_compute. reflexivity. Qed.

Lemma bpow_inv_IZR k : 0 <= k -> bpow (- k) = (/ IZR (2 ^ k))%R.
Proof.
  intros Hk. rewrite <- bpow_IZR by exact Hk. pose proof (bpow_gt_0 k).
  apply (Rmult_eq_reg_r (bpow k)); [|lra].
  rewrite <- bpow_plus, Rinv_l by lra. replace (- k + k) with 0 by lia. apply bpow_0.
Qed.

(** The fractional multiplier: positive down to [10 ** -323], zero below. *)
Lemma pow10_neg_pos d :
  -323 <= d < 0 ->
  exists s m e, float_pow10_neg d = S754_finite s m e /\
    finite64 (float_pow10_neg d) = true /\
    (0 < SF2R (float_pow10_neg d) <= / 2)%R.
Proof.
  intros Hd. pose proof (pow10_neg_rounds d ltac:(lia)) as Hr.
  assert (0 < 10 ^ (- d)) as Hp by (apply Z.pow_pos_nonneg; lia).
  assert (10 ^ 1 <= 10 ^ (- d) <= 10 ^ 323) as Hb
    by (split; apply Z.pow_le_mono_r; lia).
  assert (10 <= IZR (10 ^ (- d)))%R as H10 by (apply (IZR_le 10); lia).
  assert (0 < / IZR (10 ^ (- d)) <= / 10)%R as Hq.
  { split; [apply Rinv_0_lt_compat; lra | apply Rinv_le_contravar; lra]. }
  destruct (rounds_to_between _ _ 0 0 1 (-1) Hr) as [Hf Hv]; try lia.
  { change (-1) with (0 - 1). rewrite (bpow_pred 0), bpow_0. lra. }
  change (-1) with (0 - 1) in Hv. rewrite (bpow_pred 0), bpow_0 in Hv.
  destruct (float_pow10_neg d) as [s | s | | s m e] eqn:E; try discriminate.
  - exfalso. apply (rounds_to_nonzero _ _ s Hr); [|reflexivity].
    rewrite Rabs_right by lra.
    replace (bpow (-1074)) with (/ IZR (2 ^ 1074))%R
      by (symmetry; apply (bpow_inv_IZR 1074); lia).
    apply Rinv_le_contravar; [lra|]. apply IZR_le.
    etransitivity; [apply Hb | exact pow10_323].
  - exists s, m, e. split; [reflexivity|]. split; [exact Hf|].
    split; [|lra].
    assert (SF2R (S754_finite s m e) <> 0)%R as Hnz.
    { cbn [SF2R]. pose proof (bpow_gt_0 e). rewrite IZR_cond_Zopp.
      assert (0 < IZR (Zpos m))%R by (apply IZR_lt; lia). destruct s; nra. }
    lra.
Qed.

Lemma pow10_neg_zero d : d <= -324 -> float_pow10_neg d = S754_zero false.
Proof.
  intros Hd. apply (rounds_to_underflow _ _ (pow10_neg_rounds d ltac:(lia))).
  assert (0 < 10 ^ (- d)) as Hp by (apply Z.pow_pos_nonneg; lia).
  assert (10 ^ 324 <= 10 ^ (- d)) as Hb by (apply Z.pow_le_mono_r; lia).
  assert (0 < IZR (2 ^ 1075))%R as H2.
  { apply IZR_lt. apply Z.pow_pos_nonneg; lia. }
  assert (IZR (2 ^ 1075) < IZR (10 ^ (- d)))%R as Hlt.
  { apply IZR_lt. eapply Z.lt_le_trans; [exact pow10_324 | exact Hb]. }
  split; [apply Rinv_0_lt_compat; lra|].
  replace (bpow (-1075)) with (/ IZR (2 ^ 1075))%R
    by (symmetry; apply (bpow_inv_IZR 1075); lia).
  apply Rinv_lt_contravar; [nra | exact Hlt].
Qed.

(** ** Integers that convert to a double, and negative powers *)

(** [int_overflow] as a real number. *)
Lemma int_overflow_R : IZR int_overflow = (18014398509481983 * bpow 970)%R.
Proof.
  rewrite (bpow_IZR 970) by lia. rewrite <- mult_IZR.
  apply (f_equal IZR). apply Z.eqb_eq. vm_compute. reflexivity.
Qed.

(** A rounding is finite below [int_overflow]. *)
Lemma rounds_to_finite_below v f :
  rounds_to v f -> (Rabs v < 18014398509481983 * bpow 970)%R -> is_finite f = true.
Proof.
  intros (m & e & s & Hc & Hn & -> & _) Hv.
  destruct (decode_cases s m e Hc) as [(_ & ->) | [(p & _ & _ & ->) | (Hm & He & _)]];
    try reflexivity.
  exfalso. destruct Hc as (Hm2 & _ & Hlead). specialize (Hlead ltac:(lia)).
  destruct Hn as [[Hlo _] _]. cbn zeta in Hlo.
  assert (4503599627370496 - / 4 <= Rabs v / bpow e)%R as Ht.
  { assert (4503599627370496 <= IZR m)%R as HmR by (apply IZR_le; lia).
    destruct ((m =? 4503599627370496) && (-1074 <? e)) eqn:Eb.
    - lra.
    - apply andb_false_iff in Eb. destruct Eb as [Eb | Eb].
      + apply Z.eqb_neq in Eb.
        assert (4503599627370497 <= IZR m)%R by (apply IZR_le; lia). lra.
      + apply Z.ltb_ge in Eb. lia. }
  pose proof (bpow_gt_0 e) as Hb. pose proof (bpow_gt_0 970) as Hb0.
  assert (bpow 972 <= bpow e)%R as Hle by (apply bpow_le; lia).
  assert (bpow 972 = 4 * bpow 970)%R as E972.
  { change 972 with (970 + 1 + 1). rewrite !bpow_succ. lra. }
  assert (Rabs v = Rabs v / bpow e * bpow e)%R as Ev by (field; lra).
  set (t := (Rabs v / bpow e)%R) in *. nra.
Qed.

(** A rounding is infinite from [int_overflow] on: the tie goes to the even
    neighbour, which is [2^1024]. *)
Lemma rounds_to_infinite_from v f :
  rounds_to v f -> (18014398509481983 * bpow 970 <= Rabs v)%R -> is_finite f = false.
Proof.
  intros (m & e & s & Hc & Hn & -> & _) Hv.
  pose proof (bpow_gt_0 970) as Hb0.
  assert (bpow 971 = 2 * bpow 970)%R as E971.
  { change 971 with (970 + 1). rewrite bpow_succ. lra. }
  destruct (decode_cases s m e Hc) as [(-> & _) | [(p & -> & He & _) | (_ & _ & ->)]];
    try reflexivity; exfalso.
  - pose proof (canon_zero _ Hc) as ->.
    destruct (nearest_bounds _ _ _ Hn) as [Hb Ex]. cbn zeta in *.
    pose proof (bpow_gt_0 (-1074)).
    assert (bpow (-1074) <= bpow 970)%R by (apply bpow_le; lia).
    set (t := (Rabs v / bpow (-1074))%R) in *. nra.
  - destruct Hc as (Hm & _ & _).
    destruct (nearest_bounds _ _ _ Hn) as [Hb Ex]. cbn zeta in *.
    destruct Hn as (_ & _ & Htie). cbn zeta in Htie.
    pose proof (bpow_gt_0 e) as Hbe.
    assert (IZR (Z.pos p) <= 9007199254740991)%R as HmR by (apply IZR_le; lia).
    set (t := (Rabs v / bpow e)%R) in *.
    destruct (Z_le_gt_dec e 970) as [Hs | Hl].
    + assert (bpow e <= bpow 970)%R by (apply bpow_le; lia). nra.
    + assert (e = 971) as -> by lia. rewrite E971 in Ex.
      assert (t = IZR (Z.pos p) + / 2)%R as Et by nra.
      assert (IZR (Z.pos p) = 9007199254740991)%R as Ep by nra.
      apply eq_IZR in Ep. specialize (Htie Et). rewrite Ep in Htie. discriminate.
Qed.

(** The integers that convert to a double. *)
Lemma float_of_int_cases z :
  (Z.abs z < int_overflow -> exists f, float_of_int z = Ok f /\ finite64 f = true) /\
  (int_overflow <= Z.abs z -> float_of_int z = Raise OverflowError).
Proof.
  pose proof (binary_normalize_rounds z 0 false) as Hr.
  rewrite bpow_0, Rmult_1_r in Hr. unfold float_of_int. split; intros Hz.
  - assert (is_finite (binary_normalize prec emax z 0 false) = true) as Hf.
    { apply (rounds_to_finite_below _ _ Hr). rewrite <- int_overflow_R, <- abs_IZR.
      apply IZR_lt. exact Hz. }
    destruct (binary_normalize prec emax z 0 false) eqn:E; try discriminate;
      eexists; (split; [reflexivity | apply (rounds_to_finite64 _ _ Hr Hf)]).
  - assert (is_finite (binary_normalize prec emax z 0 false) = false) as Hf.
    { apply (rounds_to_infinite_from _ _ Hr). rewrite <- int_overflow_R, <- abs_IZR.
      apply IZR_le. exact Hz. }
    destruct (rounds_to_valid _ _ Hr) as [_ Hn].
    destruct (binary_normalize prec emax z 0 false); try discriminate;
      [reflexivity | congruence].
Qed.

(** [int_overflow] is far beyond the underflow of the power. *)
Lemma int_overflow_324 : 324 < int_overflow.
Proof. apply Z.ltb_lt. vm_compute. reflexivity. Qed.

(** The whole number of a finite double is its floor. *)
Lemma int_value_floor y : is_finite y = true -> math_floor y = Ok (int_value y).
Proof. destruct y; try discriminate; reflexivity. Qed.

(** The exponent as a double: itself when small, at most -324 otherwise. *)
Lemma exponent_value d y :
  d < 0 -> float_of_int d = Ok y ->
  (- 9007199254740992 < d -> int_value y = d) /\ (d <= -324 -> int_value y <= -324).
Proof.
  intros Hd E. pose proof (float_of_int_rounds _ _ E) as Hr.
  assert (is_finite y = true) as Hf.
  { destruct (rounds_to_valid _ _ Hr) as [_ Hn]. unfold float_of_int in E.
    destruct (binary_normalize prec emax d 0 false); inversion E; subst;
      try reflexivity; congruence. }
  pose proof (int_value_floor _ Hf) as Ek.
  pose proof (math_floor_spec _ _ Ek) as Hk.
  split.
  - intros Hs.
    replace (IZR d) with (IZR d * bpow 0)%R in Hr by (rewrite bpow_0; lra).
    destruct (rounds_to_dyadic d 0 y Hr ltac:(lia) ltac:(lia)) as [_ Ev].
    rewrite bpow_0, Rmult_1_r in Ev. rewrite Ev in Hk.
    apply (floor_unique _ _ _ Hk). lra.
  - intros Hs.
    destruct (float_of_int_small (-324)) as (g & Eg & Vg).
    { etransitivity; [|exact pow10_308]. apply Z.leb_le. vm_compute. reflexivity. }
    pose proof (float_of_int_rounds _ _ Eg) as Rg.
    pose proof (rounds_to_le _ _ _ _ Hr Rg ltac:(apply IZR_le; lia) Hf
                  (finite64_is_finite _ Vg)) as Hle.
    replace (IZR (-324)) with (IZR (-324) * bpow 0)%R in Rg by (rewrite bpow_0; lra).
    destruct (rounds_to_dyadic (-324) 0 g Rg ltac:(lia) ltac:(lia)) as [_ Ev].
    rewrite bpow_0, Rmult_1_r in Ev. rewrite Ev in Hle.
    apply le_IZR. lra.
Qed.

(** [10 ** d] for a non-negative [d]. *)
Lemma pow10_nonneg d : 0 <= d -> pow10 d = Ok (Int (10 ^ d)).
Proof.
  intros Hd. unfold pow10.
  replace (0 <=? d) with true by (symmetry; apply Z.leb_le; exact Hd). reflexivity.
Qed.

(** [10 ** d] for a negative [d]: the conversion of the exponent, then the
    correctly rounded power of [d] itself. *)
Lemma pow10_neg d :
  d < 0 ->
  pow10 d = (y <- float_of_int d ;; Ok (Float (float_pow10_neg d))).
Proof.
  intros Hd. unfold pow10.
  replace (0 <=? d) with false by (symmetry; apply Z.leb_gt; exact Hd).
  destruct (float_of_int d) as [y|] eqn:E; [|reflexivity]. cbn [bind]. do 2 f_equal.
  destruct (exponent_value d y Hd E) as [Hs Hl].
  destruct (Z_le_gt_dec d (-324)) as [H | H].
  - rewrite (pow10_neg_zero _ (Hl H)), (pow10_neg_zero _ H). reflexivity.
  - rewrite (Hs ltac:(lia)). reflexivity.
Qed.

(** [10 ** d] for a negative [d] returns unless the exponent is out of
    range. *)
Lemma pow10_neg_cases d :
  d < 0 ->
  (- int_overflow < d -> pow10 d = Ok (Float (float_pow10_neg d))) /\
  (d <= - int_overflow -> pow10 d = Raise OverflowError).
Proof.
  intros Hd. rewrite (pow10_neg d Hd).
  destruct (float_of_int_cases d) as [Hs Hl]. split; intros H.
  - destruct (Hs ltac:(lia)) as (f & -> & _). reflexivity.
  - rewrite (Hl ltac:(lia)). reflexivity.
Qed.

(** ** Halfway products *)

(** One half as a power of two. *)
Lemma bpow_m1 : bpow (-1) = (/ 2)%R.
Proof. rewrite <- D2R_half. unfold D2R, dy_half. cbn [fst snd]. lra. Qed.

(** The exponent of a finite double. *)
Lemma dy_of_exponent x : finite64 x = true -> -1074 <= snd (dy_of x).
Proof.
  intros Vx. destruct x as [s | s | | s m e]; cbn [dy_of snd]; try lia.
  destruct (finite64_finite _ _ _ Vx) as [(_ & He & _) _]. exact He.
Qed.

(** A power of two that divides a multiple of a power of five divides the
    other factor. *)
Lemma pow2_divides c d j :
  0 <= d -> 0 <= j -> (2 ^ j | 5 ^ d * c) -> (2 ^ j | c).
Proof.
  intros Hd Hj H. apply (Z.gauss _ _ _ H).
  apply Z.coprime_pow_l; [exact Hj|]. apply Z.coprime_pow_r; [exact Hd|]. reflexivity.
Qed.

(** When the exact product is an odd number of halves below [2^53], the
    difference is an odd multiple of [2^(-d-1)], hence a double, and
    [decimals] is at most 22. *)
Lemma halfway_difference r e d k :
  finite64 r = true -> finite64 e = true -> 0 <= d ->
  D2R (exact_scaled r e d) = (IZR (2 * k + 1) * bpow (-1))%R ->
  Z.abs (2 * k + 1) < 9007199254740992 ->
  d <= 22 /\
  exists c, Z.abs c < 9007199254740992 /\
            (SF2R r - SF2R e = IZR c * bpow (- d - 1))%R.
Proof.
  intros Hr He Hd H Hk. unfold exact_scaled in H. rewrite D2R_mul in H.
  pose proof (D2R_sub (dy_of r) (dy_of e)) as Ed. rewrite !D2R_of in Ed.
  set (a := dy_sub (dy_of r) (dy_of e)) in *.
  assert (-1074 <= snd a) as Hq.
  { unfold a, dy_sub. cbn [snd].
    pose proof (dy_of_exponent r Hr). pose proof (dy_of_exponent e He). lia. }
  rewrite <- Ed. unfold D2R in H |- *. cbn [fst snd] in H.
  set (c := fst a) in *. set (q := snd a) in *.
  rewrite bpow_0, Rmult_1_r, bpow_m1 in H.
  assert (0 < 5 ^ d) as H5 by (apply Z.pow_pos_nonneg; lia).
  assert (0 < 2 ^ d) as H2 by (apply Z.pow_pos_nonneg; lia).
  (* the equation in integers *)
  assert (2 * c * 2 ^ (q + 1074) * 10 ^ d = (2 * k + 1) * 2 ^ 1074) as E.
  { apply eq_IZR. rewrite !mult_IZR.
    assert (bpow q = IZR (2 ^ (q + 1074)) * / IZR (2 ^ 1074))%R as Eb.
    { rewrite <- (bpow_inv_IZR 1074), <- bpow_IZR, <- bpow_plus by lia.
      f_equal. lia. }
    rewrite Eb in H.
    assert (0 < IZR (2 ^ 1074))%R as HP by (apply IZR_lt; apply Z.pow_pos_nonneg; lia).
    set (P := IZR (2 ^ 1074)) in *. set (Q := IZR (2 ^ (q + 1074))) in *.
    set (T := IZR (10 ^ d)) in *. set (C := IZR c) in *.
    set (K := IZR (2 * k + 1)) in *.
    assert (P * / P = 1)%R as Hinv by (apply Rinv_r; lra).
    transitivity (2 * (C * (Q * / P) * T) * (P * / P) * P)%R.
    - rewrite Hinv. field. lra.
    - rewrite H, Hinv. change (IZR 2) with 2%R. field. }
  change 10 with (2 * 5) in E. rewrite Z.pow_mul_l in E.
  assert (c * 5 ^ d * 2 ^ (q + d + 1075) = (2 * k + 1) * 2 ^ 1074) as E'.
  { replace (q + d + 1075) with (1 + (q + 1074) + d) by lia.
    rewrite (Z.pow_add_r 2 (1 + (q + 1074)) d), (Z.pow_add_r 2 1 (q + 1074)) by lia.
    change (2 ^ 1) with 2. lia. }
  clear E.
  destruct (Z_le_gt_dec (q + d + 1075) 1074) as [Hs | Hl].
  2:{ exfalso. replace (q + d + 1075) with (1 + (q + d) + 1074) in E' by lia.
      rewrite (Z.pow_add_r 2 (1 + (q + d)) 1074), (Z.pow_add_r 2 1 (q + d)) in E' by lia.
      change (2 ^ 1) with 2 in E'.
      assert (0 < 2 ^ 1074) as HP by (apply Z.pow_pos_nonneg; lia).
      assert (c * 5 ^ d * (2 * 2 ^ (q + d)) = 2 * k + 1) as E2.
      { apply (proj1 (Z.mul_cancel_r _ _ (2 ^ 1074) ltac:(lia))). rewrite <- E'. ring. }
      set (u := c * 5 ^ d * 2 ^ (q + d)) in *.
      assert (2 * u = 2 * k + 1) by (rewrite <- E2; unfold u; ring). lia. }
  set (j := 1074 - (q + d + 1075)).
  assert (0 <= j) as Hj by (unfold j; lia).
  assert (c * 5 ^ d = (2 * k + 1) * 2 ^ j) as E3.
  { assert (0 < 2 ^ (q + d + 1075)) as HP by (apply Z.pow_pos_nonneg; lia).
    apply (proj1 (Z.mul_cancel_r _ _ (2 ^ (q + d + 1075)) ltac:(lia))). rewrite E'.
    rewrite <- Z.mul_assoc, <- Z.pow_add_r by lia. do 2 f_equal. unfold j. lia. }
  assert (2 ^ j | c) as [c' Ec].
  { apply (pow2_divides c d j Hd Hj). exists (2 * k + 1). rewrite <- E3. ring. }
  assert (0 < 2 ^ j) as HPj by (apply Z.pow_pos_nonneg; lia).
  assert (c' * 5 ^ d = 2 * k + 1) as E4.
  { apply (proj1 (Z.mul_cancel_r _ _ (2 ^ j) ltac:(lia))). rewrite <- E3, Ec. ring. }
  assert (Z.abs c' * 5 ^ d = Z.abs (2 * k + 1)) as E5.
  { rewrite <- E4, Z.abs_mul, (Z.abs_eq (5 ^ d)) by lia. reflexivity. }
  assert (1 <= Z.abs c') as Hc1 by lia.
  split.
  - destruct (Z_le_gt_dec d 22) as [|Hbig]; [assumption | exfalso].
    assert (5 ^ 23 <= 5 ^ d) as Hp by (apply Z.pow_le_mono_r; lia).
    change (5 ^ 23) with 11920928955078125 in Hp. nia.
  - exists c'. split; [nia|].
    rewrite Ec, mult_IZR, Rmult_assoc. f_equal.
    rewrite <- bpow_IZR, <- bpow_plus by lia. f_equal. unfold j. lia.
Qed.

(** ** The formula in rounded and in exact arithmetic *)





(** When the three operations are exact, the function returns the formula
    on real numbers. *)
Lemma exact_steps_formula r e d :
  0 <= d -> exact_steps r e d = true ->
  net_income r e d = spec_net_income r e d.
Proof.
  intros Hd H. unfold exact_steps in H.
  destruct (float_of_int (10 ^ d)) as [M|] eqn:EM; [|discriminate].
  cbn zeta in H.
  apply andb_true_iff in H. destruct H as [H H3].
  apply andb_true_iff in H. destruct H as [H1 H2].
  apply andb_true_iff in H1, H2, H3.
  destruct H1 as [_ E1]. destruct H2 as [_ E2]. destruct H3 as [Fx E3].
  apply dy_eqb_spec in E1, E2, E3.
  rewrite D2R_sub in E1. rewrite D2R_mul in E2. rewrite D2R_add in E3.
  unfold net_income, spec_net_income, pow10.
  replace (0 <=? d) with true by (symmetry; apply Z.leb_le; exact Hd).
  cbn [bind float_mul int_div_num]. rewrite EM. cbn [bind].
  rewrite (math_floor_dy _ Fx). cbn [bind]. f_equal.
  apply (floor_unique _ _ (D2R (dy_of (SF64add (SF64mul (SF64sub r e) M) half)))).
  - apply dy_floor_spec.
  - unfold exact_units. rewrite E3, E2, E1.
    pose proof (dy_floor_spec
      (dy_add (dy_mul (dy_sub (dy_of r) (dy_of e)) (10 ^ d, 0)) dy_half)) as Hs.
    rewrite D2R_add, D2R_mul, D2R_sub in Hs. exact Hs.
Qed.

(** * Properties of [net_income] *)




(** C2, as stated, fails.  At [revenues = 45035996273705.125], [expenses =
    0.0] and [decimals = 2] the product is [k + 0.5] with
    [k = 4503599627370512], beyond [2^52]: it is rounded to [k] before
    [0.5] is added, and the function returns [k / 100]. *)
Lemma net_income_halfway_refuted :
  dy_eqb (exact_scaled (lit 45035996273705.125) (lit 0) 2)
         (2 * 4503599627370512 + 1, -1) = true /\
  net_income (lit 45035996273705.125) (lit 0) 2 = int_truediv 4503599627370512 (10 ^ 2) /\
  net_income (lit 45035996273705.125) (lit 0) 2
    <> int_truediv (4503599627370512 + 1) (10 ^ 2).
Proof.
  repeat split; try (vm_compute; reflexivity). vm_compute. discriminate.
Qed.

(** C2, amended: when [(revenues - expenses) * 10^decimals] is exactly
    [k + 0.5] for an integer [k], of either sign, with [-2^52 <= k < 2^52],
    the function returns [(k + 1) / 10^decimals]: the half is rounded
    towards plus infinity.  In particular [net_income(0.0, 0.5, 0)] is
    [0.0], not [-1.0]. *)
Theorem net_income_halfway_up :
  (forall r e d k,
      finite64 r = true -> finite64 e = true -> 0 <= d ->
      dy_eqb (exact_scaled r e d) (2 * k + 1, -1) = true ->
      - 2 ^ 52 <= k < 2 ^ 52 ->
      net_income r e d = int_truediv (k + 1) (10 ^ d)) /\
  net_income (lit 0) (lit 0.5) 0 = Ok (lit 0) /\
  net_income (lit 0) (lit 0.5) 0 <> Ok (lit (-1)).
Proof.
  split; [|split; [vm_compute; reflexivity | vm_compute; discriminate]].
  intros r e d k Hr He Hd H Hk. change (2 ^ 52) with 4503599627370496 in Hk.
  apply dy_eqb_spec in H. unfold D2R at 2 in H. cbn [fst snd] in H.
  destruct (halfway_difference r e d k Hr He Hd H ltac:(lia)) as (Hd' & c & Hc & Ec).
  unfold exact_scaled in H. rewrite D2R_mul, D2R_sub, !D2R_of in H.
  unfold D2R in H. cbn [fst snd] in H. rewrite bpow_0, Rmult_1_r in H.
  (* every step is exact *)
  pose proof (SFsub_rounds r e Hr He) as Rraw. rewrite Ec in Rraw.
  destruct (rounds_to_dyadic c (- d - 1) _ Rraw Hc ltac:(lia)) as [Vraw Eraw].
  rewrite <- Ec in Eraw.
  destruct (float_of_int_small (10 ^ d)) as (M & EM & _).
  { rewrite Z.abs_eq by (apply Z.pow_nonneg; lia).
    etransitivity; [|exact pow10_308]. apply Z.pow_le_mono_r; lia. }
  destruct (pow10_exact d M ltac:(lia) EM) as [VM RM].
  pose proof (SFmul_rounds _ _ Vraw VM) as Rs. rewrite Eraw, RM, H in Rs.
  destruct (rounds_to_dyadic (2 * k + 1) (-1) _ Rs ltac:(lia) ltac:(lia)) as [Vs Es].
  assert (SF2R (SF64mul (SF64sub r e) M) = IZR k + / 2)%R as Es'.
  { rewrite Es, bpow_m1, plus_IZR, mult_IZR. lra. }
  pose proof (halfway_complete _ _ Es') as Hh.
  assert (math_floor (SF64mul (SF64sub r e) M) = Ok k) as Ek.
  { pose proof (math_floor_dy _ (finite64_is_finite _ Vs)) as En. rewrite En. f_equal.
    pose proof (math_floor_spec _ _ En) as Hn. apply (floor_unique _ _ _ Hn).
    rewrite Es'. lra. }
  unfold net_income. rewrite (pow10_nonneg d Hd). cbn [bind float_mul int_div_num].
  rewrite EM. cbn [bind]. rewrite (add_half_halfway _ _ Vs Hh Ek). reflexivity.
Qed.

(** The amended C2 at [net_income(0.0, 0.5, 0)]: the product is [-0.5], and
    [k = -1]. *)
Lemma net_income_halfway_up_witness :
  net_income (lit 0) (lit 0.5) 0 = int_truediv (-1 + 1) (10 ^ 0).
Proof.
  apply (proj1 net_income_halfway_up (lit 0) (lit 0.5) 0 (-1));
    try reflexivity; try lia; vm_compute; reflexivity.
Defined.

(** C3, as stated, fails: finite arguments can raise.  With the default
    [decimals], [net_income(1e308, 0.0)] overflows in the multiplication,
    and [10 ** 309] does not convert to a double. *)
Lemma net_income_raises :
  finite64 f1e308 = true /\ finite64 (lit 0) = true /\ finite64 (lit 1) = true /\
  net_income_default f1e308 (lit 0) = Raise OverflowError /\
  net_income (lit 1) (lit 0) 309 = Raise OverflowError.
Proof. repeat split; vm_compute; reflexivity. Qed.

(** C3, amended: on finite arguments and a non-negative [decimals] the
    function is total, and the only exception it raises is
    [OverflowError]: [10 ** decimals] converts to a double up to 308 and
    the call raises above; with the multiplier converted, the call returns
    a finite double when the scaled sum is finite and raises otherwise.
    The embedding is a function of its arguments alone. *)
Theorem net_income_outcome r e d :
  finite64 r = true -> finite64 e = true -> 0 <= d ->
  (d <= 308 -> exists x, scaled_sum r e d = Ok x) /\
  (308 < d -> net_income r e d = Raise OverflowError) /\
  (forall x, scaled_sum r e d = Ok x ->
     if is_finite x
     then exists v, net_income r e d = Ok v /\ finite64 v = true
     else net_income r e d = Raise OverflowError).
Proof.
  intros Hr He Hd.
  assert (0 < 10 ^ d) as Hp by (apply Z.pow_pos_nonneg; lia).
  assert (net_income r e d =
          x <- scaled_sum r e d ;; n <- math_floor x ;; int_truediv n (10 ^ d)) as Eq.
  { unfold net_income, scaled_sum, pow10.
    replace (0 <=? d) with true by (symmetry; apply Z.leb_le; exact Hd).
    cbn [bind float_mul int_div_num]. unfold bind.
    destruct (float_of_int (10 ^ d)); reflexivity. }
  split; [|split].
  - intros Hd'. unfold scaled_sum.
    destruct (float_of_int_small (10 ^ d)) as (M & -> & _).
    + rewrite Z.abs_eq by lia. etransitivity; [|exact pow10_308].
      apply Z.pow_le_mono_r; lia.
    + eexists. reflexivity.
  - intros Hd'. rewrite Eq. unfold scaled_sum. rewrite float_of_int_large; [reflexivity|].
    rewrite Z.abs_eq by lia. etransitivity; [exact pow10_309|].
    apply Z.pow_le_mono_r; lia.
  - intros x Ex. rewrite Eq, Ex. cbn [bind]. unfold scaled_sum in Ex.
    destruct (float_of_int (10 ^ d)) as [M|] eqn:EM; [|discriminate].
    cbn [bind] in Ex. inversion Ex; subst x; clear Ex.
    destruct (multiplier_spec d M Hd EM) as (HM & HMpos & _).
    destruct (scaled_sum_cases r e M Hr He HM HMpos) as [Vx | [s Ex]].
    + rewrite (finite64_is_finite _ Vx).
      destruct (SF64add (SF64mul (SF64sub r e) M) half) as [s | s | | s m ex] eqn:Ex;
        try discriminate; cbn [math_floor].
      * apply int_truediv_total; [|exact Hp]. cbn [Z.abs]. unfold max_int.
        apply Z.mul_nonneg_nonneg; [lia | apply Z.pow_nonneg; lia].
      * apply int_truediv_total; [|exact Hp].
        apply (floor_bound (S754_finite s m ex)); [exact Vx | reflexivity].
    + rewrite Ex. reflexivity.
Qed.

(** The amended C3 at [net_income(1000.0, 400.0, 2)]. *)
Lemma net_income_outcome_witness :
  (2 <= 308 -> exists x, scaled_sum (lit 1000) (lit 400) 2 = Ok x) /\
  (308 < 2 -> net_income (lit 1000) (lit 400) 2 = Raise OverflowError) /\
  (forall x, scaled_sum (lit 1000) (lit 400) 2 = Ok x ->
     if is_finite x
     then exists v, net_income (lit 1000) (lit 400) 2 = Ok v /\ finite64 v = true
     else net_income (lit 1000) (lit 400) 2 = Raise OverflowError).
Proof.
  apply (net_income_outcome (lit 1000) (lit 400) 2); [reflexivity | reflexivity | lia].
Defined.

(** C4, as stated, fails: the second listed result is not what the function
    returns.  The double nearest to 400.555 lies above 400.555, so the
    scaled difference falls just below 59944.5 and the floor is 59944. *)
Lemma listed_results_refuted : ~ listed_results.
Proof.
  intros (_ & H & _). vm_compute in H. discriminate H.
Qed.

(** C4, amended: the function returns 600.0, 599.44, 7.0 and 0.0 on the four
    listed calls. *)
Theorem net_income_concrete :
  net_income_default (lit 1000) (lit 400) = Ok (lit 600) /\
  net_income (lit 1000) f400_555 2 = Ok f599_44 /\
  net_income (lit 10) (lit 3) 0 = Ok (lit 7) /\
  net_income (lit 0) (lit 0) 0 = Ok (lit 0).
Proof.
  repeat split; vm_compute; reflexivity.
Qed.

(** C5: the result times [10^decimals] is an integer up to the rounding of
    the final quotient: it is within half a unit in the last place of the
    result, scaled by [10^decimals], of the integer the function
    divides. *)
Theorem net_income_precision r e d v :
  0 <= d -> net_income r e d = Ok v ->
  exists n : Z,
    (Rabs (SF2R v * IZR (10 ^ d) - IZR n) <= IZR (10 ^ d) * (ulp v / 2))%R.
Proof.
  intros Hd E. destruct (net_income_inv _ _ _ _ Hd E) as (M & n & _ & _ & Ev).
  exists n. pose proof (int_truediv_rounds _ _ _ Ev) as Hr.
  assert (is_finite v = true) as Hf.
  { destruct (rounds_to_valid _ _ Hr) as [_ Hn]. unfold int_truediv in Ev.
    destruct (10 ^ d =? 0); [discriminate|].
    destruct (SF64div (int_operand n) (int_operand (10 ^ d))); inversion Ev; subst;
      try reflexivity; congruence. }
  pose proof (rounds_to_error _ _ Hr Hf) as Herr.
  assert (0 < 10 ^ d) as Hp by (apply Z.pow_pos_nonneg; lia).
  assert (0 < IZR (10 ^ d))%R as HpR by (apply IZR_lt; lia).
  replace (SF2R v * IZR (10 ^ d) - IZR n)%R
    with ((SF2R v - IZR n / IZR (10 ^ d)) * IZR (10 ^ d))%R by (field; lra).
  rewrite Rabs_mult, (Rabs_right (IZR (10 ^ d))) by lra.
  pose proof (Rabs_pos (SF2R v - IZR n / IZR (10 ^ d))). nra.
Qed.

(** C5 at [net_income(1000.0, 400.0, 2)]. *)
Lemma net_income_precision_witness :
  exists n : Z,
    (Rabs (SF2R (lit 600) * IZR (10 ^ 2) - IZR n)
     <= IZR (10 ^ 2) * (ulp (lit 600) / 2))%R.
Proof.
  apply (net_income_precision (lit 1000) (lit 400) 2 (lit 600));
    [lia | vm_compute; reflexivity].
Defined.

(** C6, as stated, fails: [10 ** 309] does not convert to a double, and
    the call raises. *)
Lemma net_income_equal_overflow :
  SFeqb (lit 1) (lit 1) = true /\
  net_income (lit 1) (lit 1) 309 = Raise OverflowError.
Proof. split; vm_compute; reflexivity. Qed.

(** C6, amended: for equal finite [revenues] and [expenses] and
    [0 <= decimals <= 308] the function returns [0.0]. *)
Theorem net_income_equal r e d :
  finite64 r = true -> finite64 e = true -> SFeqb r e = true ->
  0 <= d <= 308 ->
  net_income r e d = Ok (S754_zero false).
Proof. exact (equal_inputs_zero r e d). Qed.

(** The amended C6 at [net_income(5.0, 5.0, 2)]. *)
Lemma net_income_equal_witness :
  net_income (lit 5) (lit 5) 2 = Ok (S754_zero false).
Proof.
  apply (net_income_equal (lit 5) (lit 5) 2); [reflexivity | reflexivity | reflexivity | lia].
Defined.

(** C7, as stated, fails: the scaled difference 0.49999999999999994 is not
    halfway, yet the call returns [1.0] and the swapped call [0.0]. *)
Lemma net_income_antisymmetry_refuted :
  scaled_difference below_half (lit 0) 0 = Ok below_half /\
  halfway below_half = false /\
  net_income below_half (lit 0) 0 = Ok (lit 1) /\
  net_income (lit 0) below_half 0 = Ok (lit 0) /\
  SFeqb (lit 1) (SFopp (lit 0)) = false.
Proof. repeat split; vm_compute; reflexivity. Qed.

(** C7, amended: the swapped call returns the opposite number when the
    scaled difference is not halfway and the additions of [0.5] to it and
    to its opposite are both exact. *)
Theorem net_income_antisymmetric r e d x v :
  finite64 r = true -> finite64 e = true -> 0 <= d ->
  scaled_difference r e d = Ok x ->
  halfway x = false -> add_half_exact x = true -> add_half_exact (SFopp x) = true ->
  net_income r e d = Ok v ->
  exists v', net_income e r d = Ok v' /\ SFeqb v' (SFopp v) = true.
Proof.
  intros Hr He Hd Ex Hh Ha Ha' Ev.
  assert (forall a b, net_income a b d =
            y <- scaled_difference a b d ;; n <- math_floor (SF64add y half) ;;
            int_truediv n (10 ^ d)) as Eq.
  { intros a b. unfold net_income, scaled_difference, pow10.
    replace (0 <=? d) with true by (symmetry; apply Z.leb_le; exact Hd).
    cbn [bind float_mul int_div_num]. unfold bind.
    destruct (float_of_int (10 ^ d)); reflexivity. }
  assert (0 < 10 ^ d) as Hp by (apply Z.pow_pos_nonneg; lia).
  assert (int_truediv 0 (10 ^ d) = Ok (S754_zero false)) as Ez.
  { unfold int_truediv. destruct (Z.eqb_spec (10 ^ d) 0) as [|_]; [lia|].
    destruct (10 ^ d) as [|p|p]; try lia. reflexivity. }
  destruct (add_half_exact_spec _ Ha) as (n & En & Hn).
  destruct (add_half_exact_spec _ Ha') as (n' & En' & Hn').
  assert (is_finite x = true) as Fx.
  { apply math_floor_finite in En. apply SFadd_finite_inv in En. apply En. }
  destruct (scaled_difference_swap r e d x Hr He Hd Ex Fx) as (x' & Ex' & Hx').
  rewrite Eq, Ex in Ev. cbn [bind] in Ev. rewrite En in Ev. cbn [bind] in Ev.
  rewrite Eq, Ex'. cbn [bind].
  assert (x = S754_zero false \/ x = S754_zero true ->
          forall y, (y = S754_zero false \/ y = S754_zero true) ->
          n = 0 /\ math_floor (SF64add y half) = Ok 0) as Hzero.
  { intros Hx y Hy. split.
    - destruct Hx as [-> | ->]; cbn in En; inversion En; reflexivity.
    - destruct Hy as [-> | ->]; reflexivity. }
  assert (forall s, x = S754_zero s ->
            forall s', x' = S754_zero s' ->
            exists v', (n0 <- math_floor (SF64add x' half) ;; int_truediv n0 (10 ^ d)) = Ok v'
                       /\ SFeqb v' (SFopp v) = true) as Hz.
  { intros s Exs s' Exs'.
    destruct (Hzero ltac:(destruct s; auto) x' ltac:(destruct s'; auto)) as [-> ->].
    cbn [bind]. rewrite Ez in *. inversion Ev; subst v.
    eexists. split; reflexivity. }
  destruct Hx' as [-> | (s & s' & Exs & Exs')]; [|exact (Hz s Exs s' Exs')].
  destruct x as [s | s | | s m ex]; try discriminate.
  { apply (Hz s eq_refl (negb s)). reflexivity. }
  rewrite En'. cbn [bind].
  assert (SF2R (SFopp (S754_finite s m ex)) = - SF2R (S754_finite s m ex))%R as Eopp.
  { cbn [SFopp SF2R]. rewrite !IZR_cond_Zopp. destruct s; cbn [negb]; lra. }
  rewrite Eopp in Hn'.
  assert (SF2R (S754_finite s m ex) + / 2 <> IZR n)%R as Hne.
  { intros E. assert (halfway (S754_finite s m ex) = true) as Hc.
    { apply (halfway_complete _ (n - 1)). rewrite minus_IZR. lra. }
    rewrite Hc in Hh. discriminate. }
  assert (n' = - n) as ->.
  { apply (floor_unique _ _ (- SF2R (S754_finite s m ex) + / 2)%R); [exact Hn'|].
    rewrite opp_IZR. lra. }
  destruct (Z.eq_dec n 0) as [-> | Hnz].
  - cbn [Z.opp]. rewrite Ez in *. inversion Ev; subst v.
    eexists. split; reflexivity.
  - rewrite (int_truediv_opp _ _ _ Hnz Ev). eexists. split; [reflexivity|].
    apply SFeqb_refl. pose proof (int_truediv_rounds _ _ _ Ev) as Hr'.
    destruct (rounds_to_valid _ _ Hr') as [_ Hnan].
    destruct v; try congruence; discriminate.
Qed.

(** The amended C7 at [net_income(1000.0, 400.0, 2)] and its swap. *)
Lemma net_income_antisymmetric_witness :
  exists v', net_income (lit 400) (lit 1000) 2 = Ok v' /\
             SFeqb v' (SFopp (lit 600)) = true.
Proof.
  apply (net_income_antisymmetric (lit 1000) (lit 400) 2 (lit 60000) (lit 600));
    try reflexivity; try lia; vm_compute; reflexivity.
Defined.

(** C8, as stated, fails: [net_income(70415619177664.03125, 0.0, 2)]
    returns 70415619177664.046875, and rounding that again returns
    70415619177664.0625. *)
Lemma net_income_idempotence_refuted :
  net_income (lit 70415619177664.03125) (lit 0) 2 = Ok (lit 70415619177664.046875) /\
  net_income (lit 70415619177664.046875) (lit 0) 2 = Ok (lit 70415619177664.0625) /\
  net_income (lit 70415619177664.046875) (lit 0) 2
    <> Ok (lit 70415619177664.046875).
Proof.
  repeat split; try (vm_compute; reflexivity). vm_compute. discriminate.
Qed.

(** C8, amended: for [0 <= decimals <= 22] and a result of at most [2^49]
    units [10 ** -decimals], rounding the result again at the same
    precision returns it. *)
Theorem net_income_idempotent r e d n v :
  0 <= d <= 22 ->
  net_income_units r e d = Ok n -> Z.abs n <= 2 ^ 49 ->
  net_income r e d = Ok v ->
  net_income v (S754_zero false) d = Ok v.
Proof.
  intros Hd En Hn Ev.
  destruct (net_income_inv r e d v ltac:(lia) Ev) as (M & n' & EM & En' & Ev').
  unfold net_income_units, scaled_sum in En. rewrite EM in En. cbn [bind] in En.
  rewrite En' in En. inversion En; subst n'.
  exact (reround n d v Hd Hn Ev').
Qed.

(** The amended C8 at the result [600.0] of [net_income(1000.0, 400.0, 2)]. *)
Lemma net_income_idempotent_witness :
  net_income (lit 600) (S754_zero false) 2 = Ok (lit 600).
Proof.
  apply (net_income_idempotent (lit 1000) (lit 400) 2 60000 (lit 600));
    try lia; vm_compute; try reflexivity; discriminate.
Defined.

(** C9: the function is monotone in each argument.  For finite arguments
    and a non-negative [decimals], larger revenues never give a smaller
    result, and larger expenses never give a larger one, on the calls that
    return. *)
Theorem net_income_monotone :
  (forall r1 r2 e d v1 v2,
      finite64 r1 = true -> finite64 r2 = true -> finite64 e = true -> 0 <= d ->
      SFleb r1 r2 = true ->
      net_income r1 e d = Ok v1 -> net_income r2 e d = Ok v2 ->
      SFleb v1 v2 = true) /\
  (forall r e1 e2 d v1 v2,
      finite64 r = true -> finite64 e1 = true -> finite64 e2 = true -> 0 <= d ->
      SFleb e1 e2 = true ->
      net_income r e1 d = Ok v1 -> net_income r e2 d = Ok v2 ->
      SFleb v2 v1 = true).
Proof.
  split.
  - intros r1 r2 e d v1 v2 Hr1 Hr2 He Hd Hle E1 E2.
    apply (net_income_mono_gen r1 e r2 e d); try assumption.
    pose proof (SFleb_SF2R _ _ Hr1 Hr2 Hle). lra.
  - intros r e1 e2 d v1 v2 Hr He1 He2 Hd Hle E1 E2.
    apply (net_income_mono_gen r e2 r e1 d); try assumption.
    pose proof (SFleb_SF2R _ _ He1 He2 Hle). lra.
Qed.

(** C9 at revenues 1000.0 and 2000.0, expenses 400.0. *)
Lemma net_income_monotone_witness : SFleb (lit 600) (lit 1600) = true.
Proof.
  apply (proj1 net_income_monotone (lit 1000) (lit 2000) (lit 400) 2 (lit 600) (lit 1600));
    try reflexivity; try lia; vm_compute; reflexivity.
Defined.

(** C10, as stated, fails.  [10 ** -400] underflows to [0.0] and the final
    division raises; an exponent that does not convert to a double raises
    from the power itself; and the result is not always a multiple of
    [10^-decimals]: [net_income(100000.0, 0.0, -5)] is
    [99999.99999999999]. *)
Lemma negative_decimals_raise :
  net_income (lit 1) (lit 0) (-400) = Raise ZeroDivisionError /\
  net_income (lit 1) (lit 0) (- 2 ^ 1024) = Raise OverflowError /\
  net_income (lit 100000) (lit 0) (-5) = Ok (lit 0x1.869ffffffffffp+16) /\
  math_floor (lit 0x1.869ffffffffffp+16) = Ok 99999.
Proof. repeat split; vm_compute; reflexivity. Qed.

(** C10, amended: a negative [decimals] is computed with, not rejected.
    For finite arguments with a finite difference and
    [-323 <= decimals < 0] the function returns the quotient of the
    floored scaled sum by the fractional multiplier; from -324 down to the
    range of a double the multiplier is [0.0] and the call raises
    [ZeroDivisionError]; from [-int_overflow] down the exponent does not
    convert to a double and the call raises [OverflowError].  With
    [decimals = -1], 14.0 gives 10.0 and 15.0 gives 20.0. *)
Theorem net_income_negative_decimals :
  (forall r e d,
      finite64 r = true -> finite64 e = true ->
      is_finite (SF64sub r e) = true -> -323 <= d < 0 ->
      exists n x,
        math_floor (SF64add (SF64mul (SF64sub r e) (float_pow10_neg d)) half) = Ok n /\
        float_of_int n = Ok x /\
        net_income r e d = Ok (SF64div x (float_pow10_neg d))) /\
  (forall r e d,
      finite64 r = true -> finite64 e = true ->
      is_finite (SF64sub r e) = true -> - int_overflow < d <= -324 ->
      net_income r e d = Raise ZeroDivisionError) /\
  (forall r e d, d <= - int_overflow -> net_income r e d = Raise OverflowError) /\
  net_income (lit 14) (lit 0) (-1) = Ok (lit 10) /\
  net_income (lit 15) (lit 0) (-1) = Ok (lit 20).
Proof.
  pose proof int_overflow_324 as HL.
  split; [|split; [|split; [|split; vm_compute; reflexivity]]].
  - intros r e d Hr He Fraw Hd.
    destruct (pow10_neg_pos d Hd) as (sM & mM & eM & EM & FM & HM).
    pose proof (rounds_to_finite64 _ _ (SFsub_rounds r e Hr He) Fraw) as Vraw.
    pose proof (SFmul_rounds _ _ Vraw FM) as Rs.
    pose proof (finite64_bound _ Vraw) as Braw. rewrite max_int_R in Braw.
    apply Rabs_le_inv in Braw.
    assert (bpow 971 = 2 * bpow 970)%R as E971 by (rewrite <- bpow_succ; reflexivity).
    pose proof (bpow_gt_0 970) as Hb970.
    destruct (rounds_to_between _ _ (-9007199254740991) 970 9007199254740991 970 Rs)
      as [Fs Bs]; try lia.
    { set (a := SF2R (SF64sub r e)) in *. set (b := SF2R (float_pow10_neg d)) in *.
      split; nra. }
    pose proof (SFadd_rounds _ _ Fs finite64_half) as Rx. rewrite SF2R_half in Rx.
    assert (is_finite (SF64add (SF64mul (SF64sub r e) (float_pow10_neg d)) half) = true)
      as Fx.
    { apply (rounds_to_no_overflow _ _ Rx). apply Rabs_le.
      pose proof (bpow_ge_1 970 ltac:(lia)). lra. }
    pose proof (rounds_to_finite64 _ _ Rx Fx) as Vx.
    pose proof (math_floor_dy _ Fx) as En.
    destruct (float_of_int_small _ (floor_bound _ _ Vx En)) as (x & Ex & _).
    eexists. exists x. split; [exact En|]. split; [exact Ex|].
    unfold net_income.
    rewrite (proj1 (pow10_neg_cases d ltac:(lia)) ltac:(lia)).
    cbn [float_mul int_div_num bind]. rewrite En. cbn [bind]. rewrite Ex. cbn [bind].
    rewrite EM. reflexivity.
  - intros r e d Hr He Fraw Hd.
    unfold net_income.
    rewrite (proj1 (pow10_neg_cases d ltac:(lia)) ltac:(lia)).
    rewrite (pow10_neg_zero d ltac:(lia)). cbn [float_mul int_div_num bind].
    destruct (SF64sub r e) as [s | s | | s m ex]; try discriminate; reflexivity.
  - intros r e d Hd. unfold net_income.
    rewrite (proj2 (pow10_neg_cases d ltac:(lia)) Hd). reflexivity.
Qed.

(** The amended C10 at [net_income(15.0, 0.0, -1)]. *)
Lemma net_income_negative_decimals_witness :
  exists n x,
    math_floor (SF64add (SF64mul (SF64sub (lit 15) (lit 0)) (float_pow10_neg (-1))) half)
      = Ok n /\
    float_of_int n = Ok x /\
    net_income (lit 15) (lit 0) (-1) = Ok (SF64div x (float_pow10_neg (-1))).
Proof.
  apply (proj1 net_income_negative_decimals (lit 15) (lit 0) (-1));
    try reflexivity; lia.
Defined.

(** * Further properties of [net_income]

    Behaviour on arguments that are not finite, the shape of the results,
    and how the rounding acts on the scaled difference. *)

(** ** Auxiliary facts *)

(** The multiplier [10 ** decimals] converts to a positive double up to
    308, and the conversion raises above. *)
Lemma multiplier_cases d :
  0 <= d ->
  (d <= 308 /\ exists m e, float_of_int (10 ^ d) = Ok (S754_finite false m e)) \/
  (308 < d /\ float_of_int (10 ^ d) = Raise OverflowError).
Proof.
  intros Hd. assert (0 < 10 ^ d) as Hp by (apply Z.pow_pos_nonneg; lia).
  destruct (Z_le_gt_dec d 308) as [Hs | Hl].
  - left. split; [exact Hs|].
    destruct (float_of_int_small (10 ^ d)) as (M & EM & _).
    { rewrite Z.abs_eq by lia. etransitivity; [|exact pow10_308].
      apply Z.pow_le_mono_r; lia. }
    destruct (multiplier_spec d M Hd EM) as (FM & HM & _).
    destruct M as [s | s | | s m e]; try discriminate; cbn [SF2R] in HM; try lra.
    destruct s.
    + exfalso. cbn [cond_Zopp] in HM. pose proof (bpow_gt_0 e).
      assert (IZR (- Z.pos m) < 0)%R by (apply IZR_lt; lia). nra.
    + exists m, e. exact EM.
  - right. split; [lia|]. apply float_of_int_large.
    rewrite Z.abs_eq by lia. etransitivity; [exact pow10_309|].
    apply Z.pow_le_mono_r; lia.
Qed.

(** A call that returns was made with [decimals <= 308]. *)
Lemma returns_decimals r e d v :
  0 <= d -> net_income r e d = Ok v -> d <= 308.
Proof.
  intros Hd E. destruct (net_income_inv _ _ _ _ Hd E) as (M & n & EM & _).
  destruct (multiplier_cases d Hd) as [[H _] | [_ H]]; [exact H | congruence].
Qed.

(** [0 / D] is [0.0]. *)
Lemma int_truediv_zero D : 0 < D -> int_truediv 0 D = Ok (S754_zero false).
Proof.
  intros HD. unfold int_truediv. destruct (Z.eqb_spec D 0) as [|_]; [lia|].
  destruct D as [|p|p]; try lia. reflexivity.
Qed.

(** The floor of a double is a double. *)
Lemma floor_repr x n :
  finite64 x = true -> math_floor x = Ok n ->
  exists z e, Z.abs z < 9007199254740992 /\ 0 <= e <= 971 /\
              IZR n = (IZR z * bpow e)%R.
Proof.
  intros Vx En. destruct x as [s | s | | s m ex]; try discriminate.
  - inversion En; subst n. exists 0, 0. rewrite bpow_0. split; [lia|]. split; [lia|]. lra.
  - destruct (finite64_finite _ _ _ Vx) as [(Hm & _ & _) Hex].
    cbn [math_floor] in En. inversion En; subst n; clear En.
    assert (Z.abs (cond_Zopp s (Z.pos m)) < 9007199254740992) as Hc
      by (destruct s; cbn [cond_Zopp]; lia).
    destruct (Z_le_gt_dec 0 ex) as [Hp | Hn].
    + exists (cond_Zopp s (Z.pos m)), ex. split; [exact Hc|]. split; [lia|].
      rewrite Z.shiftl_mul_pow2 by lia. rewrite mult_IZR, bpow_IZR by lia. reflexivity.
    + exists (Z.shiftl (cond_Zopp s (Z.pos m)) ex), 0. rewrite bpow_0.
      split; [|split; [lia | lra]].
      rewrite <- (Z.opp_involutive ex) at 1. rewrite Z.shiftl_opp_r.
      rewrite Z.shiftr_div_pow2 by lia.
      assert (0 < 2 ^ (- ex)) as Hp2 by (apply Z.pow_pos_nonneg; lia).
      destruct s; cbn [cond_Zopp] in *.
      * assert (- Z.pos m <= Z.neg m / 2 ^ (- ex) <= 0); [|lia]. split.
        -- apply Z.div_le_lower_bound; [lia|]. change (Z.neg m) with (- Z.pos m). nia.
        -- apply Z.lt_succ_r. apply Z.div_lt_upper_bound; lia.
      * assert (0 <= Z.pos m / 2 ^ (- ex) <= Z.pos m); [|lia]. split.
        -- apply Z.div_pos; lia.
        -- apply Z.div_le_upper_bound; [lia|]. nia.
Qed.

(** A zero difference gives the same scaled sum whatever its sign. *)
Lemma zero_scaled_sum s y :
  SF64add (SF64mul (S754_zero s) y) half = SF64add (SF64mul (S754_zero false) y) half.
Proof. destruct s, y as [[|] | [|] | | [|] m e]; reflexivity. Qed.

(** A fractional part of at least one half, on the real numbers. *)
Lemma at_least_half_spec x k :
  at_least_half x = true -> math_floor x = Ok k -> (IZR k + / 2 <= SF2R x)%R.
Proof.
  destruct x as [s | s | | s m e]; try discriminate. cbn [at_least_half math_floor SF2R].
  intros H Ek. apply andb_true_iff in H. destruct H as [He Hm].
  apply Z.ltb_lt in He. apply Z.leb_le in Hm. inversion Ek; subst k; clear Ek.
  set (c := cond_Zopp s (Z.pos m)) in *.
  rewrite <- (Z.opp_involutive e) at 1 2. rewrite Z.shiftl_opp_r.
  rewrite Z.shiftr_div_pow2 by lia.
  rewrite (bpow_inv_IZR (- e)) by lia.
  assert (0 < 2 ^ (- e - 1)) as Hp by (apply Z.pow_pos_nonneg; lia).
  assert (2 ^ (- e) = 2 * 2 ^ (- e - 1)) as E2.
  { rewrite <- Z.pow_succ_r by lia. f_equal. lia. }
  pose proof (Z.div_mod c (2 ^ (- e)) ltac:(lia)) as Hdm.
  set (q := c / 2 ^ (- e)) in *. set (t := c mod 2 ^ (- e)) in *.
  set (P := 2 ^ (- e - 1)) in *. rewrite E2 in *.
  assert (IZR c = 2 * IZR P * IZR q + IZR t)%R as Ec.
  { rewrite Hdm at 1. rewrite plus_IZR, !mult_IZR. reflexivity. }
  assert (0 < IZR P)%R as HP by (apply IZR_lt; lia).
  assert (IZR P <= IZR t)%R as Ht by (apply IZR_le; lia).
  rewrite Ec, mult_IZR.
  apply (Rmult_le_reg_r (2 * IZR P)); [lra|].
  replace ((2 * IZR P * IZR q + IZR t) * / (2 * IZR P) * (2 * IZR P))%R
    with (2 * IZR P * IZR q + IZR t)%R by (field; lra).
  nra.
Qed.

(** A rounding between two integers of at most 53 bits lies between them. *)
Lemma rounds_to_between_int w f z1 z2 :
  rounds_to w f ->
  Z.abs z1 <= 9007199254740992 -> Z.abs z2 <= 9007199254740992 ->
  (IZR z1 <= w <= IZR z2)%R ->
  finite64 f = true /\ (IZR z1 <= SF2R f <= IZR z2)%R.
Proof.
  assert (forall z, Z.abs z <= 9007199254740992 ->
            exists z' e', Z.abs z' < 9007199254740992 /\ -1074 <= e' <= 971 /\
                          IZR z = (IZR z' * bpow e')%R) as Hrep.
  { intros z Hz. destruct (Z.eq_dec (Z.abs z) 9007199254740992) as [E | N].
    - assert (bpow 1 = 2)%R as B1 by (rewrite (bpow_IZR 1) by lia; reflexivity).
      assert (z = 9007199254740992 \/ z = - 9007199254740992) as [-> | ->] by lia.
      + exists 4503599627370496, 1. rewrite B1. split; [lia|]. split; [lia|]. lra.
      + exists (- 4503599627370496), 1. rewrite B1. split; [lia|]. split; [lia|]. lra.
    - exists z, 0. rewrite bpow_0. split; [lia|]. split; [lia|]. lra. }
  intros Hr H1 H2 Hw.
  destruct (Hrep z1 H1) as (a1 & b1 & Ha1 & Hb1 & E1).
  destruct (Hrep z2 H2) as (a2 & b2 & Ha2 & Hb2 & E2).
  rewrite E1, E2 in *. apply (rounds_to_between w f a1 b1 a2 b2); assumption.
Qed.

(** From [2^53] on, adding [0.5] to a double leaves it unchanged. *)
Lemma add_half_large s m ex :
  finite64 (S754_finite s m ex) = true -> 1 <= ex ->
  SF64add (S754_finite s m ex) half = S754_finite s m ex.
Proof.
  intros Vx Hex. destruct (finite64_finite _ _ _ Vx) as [Hc Hex'].
  pose proof (SFadd_rounds _ _ Vx finite64_half) as Hr. rewrite SF2R_half in Hr.
  pose proof Hc as (Hm & _ & Hn). specialize (Hn ltac:(lia)).
  assert (2 <= bpow ex)%R as Hb.
  { rewrite bpow_IZR by lia. apply IZR_le. change 2 with (2 ^ 1) at 1.
    apply Z.pow_le_mono_r; lia. }
  assert (4503599627370496 <= IZR (Z.pos m))%R as HmR by (apply IZR_le; lia).
  assert (0 < / bpow ex <= / 2)%R as Hi.
  { split; [apply Rinv_0_lt_compat; lra | apply Rinv_le_contravar; lra]. }
  assert (SF2R (S754_finite s m ex) + / 2 <> 0)%R as Hnz.
  { cbn [SF2R]. rewrite IZR_cond_Zopp. destruct s; nra. }
  apply (rounds_to_unique _ _ _ Hr); [|exact Hnz].
  exists (Z.pos m), ex, s. split; [exact Hc|]. split; [|split; [|split]].
  - cbn [SF2R]. rewrite IZR_cond_Zopp.
    assert (Rabs ((if s then - IZR (Z.pos m) else IZR (Z.pos m)) * bpow ex + / 2) / bpow ex
            = if s then IZR (Z.pos m) - / 2 * / bpow ex
              else IZR (Z.pos m) + / 2 * / bpow ex)%R as Et.
    { destruct s.
      - rewrite Rabs_left by nra. field. lra.
      - rewrite Rabs_right by nra. field. lra. }
    unfold nearest. cbn zeta. rewrite Et.
    split; [|split].
    + destruct ((Z.pos m =? 4503599627370496) && (-1074 <? ex)); destruct s; lra.
    + intros H. exfalso. destruct s; lra.
    + intros H. exfalso. destruct s; lra.
  - unfold decode. replace (ex <=? emax - prec) with true; [reflexivity|].
    symmetry. apply Z.leb_le. exact Hex'.
  - intros Hpos. destruct s; [|reflexivity]. exfalso.
    cbn [SF2R cond_Zopp] in Hpos. change (Z.neg m) with (- Z.pos m) in Hpos.
    rewrite opp_IZR in Hpos. nra.
  - intros Hneg. destruct s; [reflexivity|]. exfalso.
    cbn [SF2R cond_Zopp] in Hneg. nra.
Qed.

(** The floor of [x + 0.5] is the floor of [x] or one more, and one more
    when the fractional part of [x] is at least one half. *)
Lemma floor_add_half x k :
  finite64 x = true -> math_floor x = Ok k ->
  exists n, math_floor (SF64add x half) = Ok n /\ (n = k \/ n = k + 1) /\
            ((IZR k + / 2 <= SF2R x)%R -> n = k + 1).
Proof.
  intros Vx Ek. pose proof (math_floor_spec _ _ Ek) as Hk.
  destruct x as [s | s | | s m ex]; try discriminate.
  { inversion Ek; subst k. exists 0. split; [destruct s; reflexivity|].
    split; [left; reflexivity|]. cbn [SF2R]. intros H. lra. }
  destruct (Z_le_gt_dec 1 ex) as [Hl | Hs].
  - rewrite (add_half_large _ _ _ Vx Hl). exists k. split; [exact Ek|].
    split; [left; reflexivity|]. intros H. exfalso.
    cbn [math_floor] in Ek. inversion Ek as [Ek']. rewrite Z.shiftl_mul_pow2 in Ek' by lia.
    cbn [SF2R] in H. rewrite bpow_IZR in H by lia. rewrite <- mult_IZR, Ek' in H. lra.
  - destruct (finite64_finite _ _ _ Vx) as [(Hm & _ & _) _].
    pose proof (SFadd_rounds _ _ Vx finite64_half) as Hr. rewrite SF2R_half in Hr.
    set (xv := SF2R (S754_finite s m ex)) in *.
    set (X := SF64add (S754_finite s m ex) half) in *.
    assert (0 < bpow ex <= 1)%R as Hb.
    { split; [apply bpow_gt_0|]. rewrite <- bpow_0. apply bpow_le. lia. }
    assert (Rabs xv <= 9007199254740991 * bpow ex)%R as Hx.
    { unfold xv. cbn [SF2R]. rewrite Rabs_mult, (Rabs_right (bpow ex)) by lra.
      apply Rmult_le_compat_r; [lra|]. rewrite <- abs_IZR. apply IZR_le.
      destruct s; cbn [cond_Zopp]; lia. }
    apply Rabs_le_inv in Hx.
    assert (forall lo hi, (IZR lo <= SF2R X <= IZR hi)%R -> finite64 X = true ->
              exists n, math_floor X = Ok n /\ lo <= n <= hi) as Hfl.
    { intros lo hi HX VX. pose proof (math_floor_dy _ (finite64_is_finite _ VX)) as En.
      eexists. split; [exact En|]. pose proof (math_floor_spec _ _ En) as Hn.
      set (n := dy_floor (dy_of X)) in *. split.
      - apply Z.lt_succ_r. apply lt_IZR. rewrite succ_IZR. lra.
      - apply le_IZR. lra. }
    destruct (Rlt_le_dec (xv + / 2) (IZR k + 1)) as [Hlow | Hup].
    + assert (- 9007199254740992 < k <= 9007199254740991) as Hkb.
      { split; [apply lt_IZR | apply le_IZR]; nra. }
      destruct (rounds_to_between_int _ _ k (k + 1) Hr ltac:(lia) ltac:(lia)) as [VX HX].
      { rewrite plus_IZR. lra. }
      destruct (Hfl k (k + 1) HX VX) as (n & En & Hn).
      exists n. split; [exact En|]. split; [lia|]. intros H. lra.
    + assert (ex <= -1) as Hex.
      { destruct (Z.eq_dec ex 0) as [-> |]; [|lia]. exfalso.
        cbn [math_floor] in Ek. inversion Ek as [Ek'].
        unfold xv in Hup. cbn [SF2R] in Hup. rewrite bpow_0, Ek' in Hup. lra. }
      assert (bpow ex <= / 2)%R as Hb2 by (rewrite <- bpow_m1; apply bpow_le; lia).
      assert (- 4503599627370496 <= k <= 4503599627370495) as Hkb.
      { split.
        - apply Z.lt_succ_r. apply lt_IZR. rewrite succ_IZR. lra.
        - apply Z.lt_succ_r. apply lt_IZR. rewrite succ_IZR. lra. }
      assert (exists n, math_floor X = Ok n /\ n = k + 1) as (n & En & ->).
      { destruct (Z.eq_dec k 4503599627370495) as [Ek' | Nk].
        - destruct (rounds_to_between_int _ _ (k + 1) (k + 1) Hr ltac:(lia) ltac:(lia))
            as [VX HX].
          { rewrite plus_IZR. subst k. lra. }
          destruct (Hfl (k + 1) (k + 1) HX VX) as (n & En & Hn).
          exists n. split; [exact En | lia].
        - destruct (rounds_to_between _ _ (k + 1) 0 (2 * k + 3) (-1) Hr) as [VX HX];
            try lia.
          { rewrite bpow_0, bpow_m1, !plus_IZR, mult_IZR. lra. }
          rewrite bpow_0, bpow_m1, !plus_IZR, mult_IZR in HX.
          pose proof (math_floor_dy _ (finite64_is_finite _ VX)) as En.
          eexists. split; [exact En|]. pose proof (math_floor_spec _ _ En) as Hn.
          apply (floor_unique _ _ _ Hn). rewrite plus_IZR. lra. }
      exists (k + 1). split; [exact En|]. split; [right; reflexivity|]. reflexivity.
Qed.

(** ** Arguments that are not finite *)

(** X1: when an argument is NaN, or both are the same infinity, the
    difference is NaN and the call raises: [ValueError] from [math.floor]
    for every [decimals] from [-int_overflow] (excluded) to 308, negative
    ones included, and [OverflowError] from [10 ** decimals] outside this
    range. *)
Theorem net_income_nan r e d :
  r = S754_nan \/ e = S754_nan \/
    (exists s, r = S754_infinity s /\ e = S754_infinity s) ->
  (- int_overflow < d <= 308 -> net_income r e d = Raise ValueError) /\
  (308 < d \/ d <= - int_overflow -> net_income r e d = Raise OverflowError).
Proof.
  intros H. pose proof int_overflow_324 as HL.
  assert (SF64sub r e = S754_nan) as Es.
  { destruct H as [-> | [-> | (s & -> & ->)]].
    - reflexivity.
    - destruct r; reflexivity.
    - destruct s; reflexivity. }
  unfold net_income. rewrite Es. split; intros Hd.
  - destruct (Z_le_gt_dec 0 d) as [Hd0 | Hd0].
    + rewrite (pow10_nonneg d Hd0). cbn [bind float_mul int_div_num].
      destruct (multiplier_cases d Hd0) as [[_ (m & ex & ->)] | [? _]]; [|lia].
      reflexivity.
    + rewrite (proj1 (pow10_neg_cases d ltac:(lia)) ltac:(lia)). reflexivity.
  - destruct (Z_le_gt_dec 0 d) as [Hd0 | Hd0].
    + rewrite (pow10_nonneg d Hd0). cbn [bind float_mul int_div_num].
      destruct (multiplier_cases d Hd0) as [[? _] | [_ ->]]; [lia|]. reflexivity.
    + rewrite (proj2 (pow10_neg_cases d ltac:(lia)) ltac:(lia)). reflexivity.
Qed.

(** X1 at [net_income(nan, 400.0, 2)]. *)
Lemma net_income_nan_witness :
  (- int_overflow < 2 <= 308 -> net_income S754_nan (lit 400) 2 = Raise ValueError) /\
  (308 < 2 \/ 2 <= - int_overflow ->
   net_income S754_nan (lit 400) 2 = Raise OverflowError).
Proof. apply (net_income_nan S754_nan (lit 400) 2). left. reflexivity. Defined.

(** X2: when the difference [revenues - expenses] is infinite (an infinite
    argument, or finite arguments whose difference overflows), the call
    raises [OverflowError] for every non-negative [decimals]. *)
Theorem net_income_infinite r e d s :
  0 <= d -> SF64sub r e = S754_infinity s ->
  net_income r e d = Raise OverflowError.
Proof.
  intros Hd Es. unfold net_income, pow10. rewrite Es.
  replace (0 <=? d) with true by (symmetry; apply Z.leb_le; exact Hd).
  cbn [bind float_mul int_div_num].
  destruct (multiplier_cases d Hd) as [[_ (m & ex & ->)] | [_ ->]]; reflexivity.
Qed.

(** X2 at [net_income(inf, 400.0, 2)]. *)
Lemma net_income_infinite_witness :
  net_income (S754_infinity false) (lit 400) 2 = Raise OverflowError.
Proof.
  apply (net_income_infinite (S754_infinity false) (lit 400) 2 false); [lia | reflexivity].
Defined.

(** ** Shape of the results *)

(** X3: for a non-negative [decimals], whatever the arguments, a returned
    value is a finite double and is never the negative zero: infinities
    and NaN are not returned, and a zero result is [0.0]. *)
Theorem net_income_result_shape r e d v :
  0 <= d -> net_income r e d = Ok v ->
  finite64 v = true /\ v <> S754_zero true.
Proof.
  intros Hd E. pose proof (returns_decimals _ _ _ _ Hd E) as Hd'.
  destruct (net_income_inv _ _ _ _ Hd E) as (M & n & _ & _ & Ev).
  pose proof (int_truediv_rounds _ _ _ Ev) as Hr.
  assert (0 < 10 ^ d) as Hp by (apply Z.pow_pos_nonneg; lia).
  split.
  - apply (rounds_to_finite64 _ _ Hr).
    destruct (rounds_to_valid _ _ Hr) as [_ Hn]. unfold int_truediv in Ev.
    destruct (10 ^ d =? 0); [discriminate|].
    destruct (SF64div (int_operand n) (int_operand (10 ^ d))); inversion Ev; subst;
      try reflexivity; congruence.
  - destruct (Z.eq_dec n 0) as [-> | Hn].
    + rewrite (int_truediv_zero _ Hp) in Ev. inversion Ev. discriminate.
    + apply (rounds_to_nonzero _ _ true Hr).
      assert (10 ^ d <= 10 ^ 308) as Hle by (apply Z.pow_le_mono_r; lia).
      assert (10 ^ 308 <= 2 ^ 1074) as Hc by (vm_compute; discriminate).
      replace (bpow (-1074)) with (/ IZR (2 ^ 1074))%R
        by (symmetry; apply (bpow_inv_IZR 1074); lia).
      assert (0 < IZR (10 ^ d))%R as HpR by (apply IZR_lt; lia).
      assert (IZR (10 ^ d) <= IZR (2 ^ 1074))%R as HleR by (apply IZR_le; lia).
      assert (1 <= Rabs (IZR n))%R as Hn1.
      { rewrite <- abs_IZR. apply IZR_le. lia. }
      unfold Rdiv. rewrite Rabs_mult, (Rabs_right (/ IZR (10 ^ d))).
      2:{ apply Rle_ge. left. apply Rinv_0_lt_compat. exact HpR. }
      assert (/ IZR (2 ^ 1074) <= / IZR (10 ^ d))%R as Hi
        by (apply Rinv_le_contravar; lra).
      assert (0 < / IZR (2 ^ 1074))%R
        by (apply Rinv_0_lt_compat; lra).
      nra.
Qed.

(** X3 at [net_income(1000.0, 400.0, 2)]. *)
Lemma net_income_result_shape_witness :
  finite64 (lit 600) = true /\ lit 600 <> S754_zero true.
Proof.
  apply (net_income_result_shape (lit 1000) (lit 400) 2 (lit 600));
    [lia | vm_compute; reflexivity].
Defined.

(** X4: the sign of the result follows the order of the arguments.  With
    revenues at least the expenses the result is not negative; with
    revenues at most the expenses it is not positive. *)
Theorem net_income_sign :
  (forall r e d v,
      finite64 r = true -> finite64 e = true -> 0 <= d ->
      SFleb e r = true -> net_income r e d = Ok v ->
      SFleb (S754_zero false) v = true) /\
  (forall r e d v,
      finite64 r = true -> finite64 e = true -> 0 <= d ->
      SFleb r e = true -> net_income r e d = Ok v ->
      SFleb v (S754_zero false) = true).
Proof.
  assert (forall e d, finite64 e = true -> 0 <= d <= 308 ->
            net_income e e d = Ok (S754_zero false)) as Hz.
  { intros e d He Hd. apply equal_inputs_zero; try assumption.
    apply SFeqb_refl. destruct e; try discriminate. }
  split; intros r e d v Hr He Hd Hle E;
    pose proof (returns_decimals _ _ _ _ Hd E) as Hd'.
  - pose proof (SFleb_SF2R _ _ He Hr Hle) as HR.
    apply (net_income_mono_gen e e r e d); try assumption; [lra | apply Hz; [assumption | lia]].
  - pose proof (SFleb_SF2R _ _ Hr He Hle) as HR.
    apply (net_income_mono_gen r e r r d); try assumption; [lra | apply Hz; [assumption | lia]].
Qed.

(** X4 at [net_income(1000.0, 400.0, 2)]. *)
Lemma net_income_sign_witness : SFleb (S754_zero false) (lit 600) = true.
Proof.
  apply (proj1 net_income_sign (lit 1000) (lit 400) 2 (lit 600));
    try reflexivity; try lia; vm_compute; reflexivity.
Defined.

(** X5: with [decimals = 0] the result is a whole number: it is exactly the
    integer the function floors to. *)
Theorem net_income_whole r e v :
  finite64 r = true -> finite64 e = true ->
  net_income r e 0 = Ok v ->
  exists n, net_income_units r e 0 = Ok n /\ SF2R v = IZR n.
Proof.
  intros Hr He E.
  destruct (net_income_inv r e 0 v ltac:(lia) E) as (M & n & EM & En & Ev).
  exists n. split.
  - unfold net_income_units, scaled_sum. rewrite EM. cbn [bind]. exact En.
  - destruct (multiplier_spec 0 M ltac:(lia) EM) as (HM & _ & _).
    destruct (scaled_sum_spec r e M n Hr He HM En) as (_ & _ & Vx & _).
    destruct (floor_repr _ _ Vx En) as (z & ex & Hz & Hex & Ez).
    pose proof (int_truediv_rounds _ _ _ Ev) as Hv.
    change (10 ^ 0) with 1 in Hv.
    replace (IZR n / 1)%R with (IZR z * bpow ex)%R in Hv by (rewrite <- Ez; field).
    destruct (rounds_to_dyadic z ex v Hv Hz ltac:(lia)) as [_ ->].
    symmetry. exact Ez.
Qed.

(** X5 at [net_income(10.0, 3.0, 0)]. *)
Lemma net_income_whole_witness :
  exists n, net_income_units (lit 10) (lit 3) 0 = Ok n /\ SF2R (lit 7) = IZR n.
Proof.
  apply (net_income_whole (lit 10) (lit 3) (lit 7)); vm_compute; reflexivity.
Defined.

(** ** Values already at the precision *)

(** X6: a value already at the precision is returned unchanged.  For
    [0 <= decimals <= 22] and an integer [n] of at most [2^49] in
    magnitude, the double [v = n / 10 ** decimals] satisfies
    [net_income(v, 0.0, decimals) = v]. *)
Theorem net_income_fixed_point n d v :
  0 <= d <= 22 -> Z.abs n <= 2 ^ 49 ->
  int_truediv n (10 ^ d) = Ok v ->
  net_income v (S754_zero false) d = Ok v.
Proof. intros Hd Hn Ev. exact (reround n d v Hd Hn Ev). Qed.

(** X6 at [12.34 = 1234 / 10 ** 2]. *)
Lemma net_income_fixed_point_witness :
  net_income (lit 0x1.8ae147ae147aep+3) (S754_zero false) 2
  = Ok (lit 0x1.8ae147ae147aep+3).
Proof.
  apply (net_income_fixed_point 1234 2 (lit 0x1.8ae147ae147aep+3));
    [lia | vm_compute; discriminate | vm_compute; reflexivity].
Defined.

(** X7: whole amounts are kept.  For integers [a] and [b] below [2^53] in
    magnitude, [0 <= decimals <= 22] and [|a - b| * 10^decimals < 2^52],
    [net_income(float(a), float(b), decimals)] is [float(a - b)]. *)
Theorem net_income_whole_amounts a b d ra rb :
  0 <= d <= 22 ->
  Z.abs a < 2 ^ 53 -> Z.abs b < 2 ^ 53 -> Z.abs (a - b) * 10 ^ d < 2 ^ 52 ->
  float_of_int a = Ok ra -> float_of_int b = Ok rb ->
  net_income ra rb d = float_of_int (a - b).
Proof.
  intros Hd Ha Hb Hab Ea Eb.
  assert (0 < 10 ^ d) as Hp by (apply Z.pow_pos_nonneg; lia).
  change (2 ^ 53) with 9007199254740992 in *.
  change (2 ^ 52) with 4503599627370496 in *.
  assert (forall z f, Z.abs z < 9007199254740992 -> rounds_to (IZR z) f ->
            finite64 f = true /\ SF2R f = IZR z) as Hex.
  { intros z f Hz Hf. replace (IZR z) with (IZR z * bpow 0)%R in Hf by (rewrite bpow_0; lra).
    destruct (rounds_to_dyadic z 0 f Hf Hz ltac:(lia)) as [V E].
    split; [exact V|]. rewrite E, bpow_0. lra. }
  destruct (Hex a ra Ha (float_of_int_rounds _ _ Ea)) as [Va Ra].
  destruct (Hex b rb Hb (float_of_int_rounds _ _ Eb)) as [Vb Rb].
  assert (Z.abs (a - b) < 4503599627370496) as Hd1 by nia.
  pose proof (SFsub_rounds ra rb Va Vb) as Hraw. rewrite Ra, Rb, <- minus_IZR in Hraw.
  destruct (Hex (a - b) _ ltac:(lia) Hraw) as [Vraw Rraw].
  destruct (float_of_int_small (10 ^ d)) as (M & EM & _).
  { etransitivity; [|exact pow10_308]. rewrite Z.abs_eq by lia.
    apply Z.pow_le_mono_r; lia. }
  destruct (pow10_exact d M Hd EM) as [VM RM].
  pose proof (SFmul_rounds _ _ Vraw VM) as Hs. rewrite Rraw, RM, <- mult_IZR in Hs.
  set (z := (a - b) * 10 ^ d) in *.
  assert (Z.abs z < 4503599627370496) as Hz by (unfold z; rewrite Z.abs_mul; lia).
  destruct (Hex z _ ltac:(lia) Hs) as [Vs Rs].
  pose proof (SFadd_rounds _ _ Vs finite64_half) as Hx. rewrite Rs, SF2R_half in Hx.
  replace (IZR z + / 2)%R with (IZR (2 * z + 1) * bpow (-1))%R in Hx.
  2:{ rewrite plus_IZR, mult_IZR, bpow_m1. lra. }
  destruct (rounds_to_dyadic (2 * z + 1) (-1) _ Hx ltac:(lia) ltac:(lia)) as [Vx Rx].
  pose proof (math_floor_dy _ (finite64_is_finite _ Vx)) as En.
  pose proof (math_floor_spec _ _ En) as Hn. rewrite Rx in Hn.
  assert (dy_floor (dy_of (SF64add (SF64mul (SF64sub ra rb) M) half)) = z) as Ez.
  { apply (floor_unique _ _ _ Hn). rewrite plus_IZR, mult_IZR, bpow_m1. lra. }
  rewrite Ez in En.
  unfold net_income, pow10.
  replace (0 <=? d) with true by (symmetry; apply Z.leb_le; lia).
  cbn [bind float_mul int_div_num]. rewrite EM. cbn [bind]. rewrite En. cbn [bind].
  destruct (Z.eq_dec (a - b) 0) as [E0 | N0].
  - unfold z. rewrite E0. cbn [Z.mul]. rewrite (int_truediv_zero _ Hp). reflexivity.
  - destruct (int_truediv_total z (10 ^ d)) as (v & Ev & _); [|exact Hp|].
    { etransitivity; [|exact pow10_308]. assert (4503599627370496 <= 10 ^ 308); [|lia].
      vm_compute. discriminate. }
    destruct (float_of_int_small (a - b)) as (f & Ef & _).
    { etransitivity; [|exact pow10_308]. assert (4503599627370496 <= 10 ^ 308); [|lia].
      vm_compute. discriminate. }
    rewrite Ev, Ef. f_equal.
    pose proof (int_truediv_rounds _ _ _ Ev) as Hv.
    replace (IZR z / IZR (10 ^ d))%R with (IZR (a - b)) in Hv.
    2:{ unfold z. rewrite mult_IZR. field. apply not_0_IZR. lia. }
    apply (rounds_to_unique _ _ _ Hv (float_of_int_rounds _ _ Ef)).
    apply not_0_IZR. exact N0.
Qed.

(** X7 at [net_income(1000.0, 400.0, 2)]. *)
Lemma net_income_whole_amounts_witness :
  net_income (lit 1000) (lit 400) 2 = float_of_int (1000 - 400).
Proof.
  apply (net_income_whole_amounts 1000 400 2 (lit 1000) (lit 400));
    try lia; try reflexivity; vm_compute; reflexivity.
Defined.

(** ** Accuracy and dependence on the difference *)

(** X8: when the subtraction, the multiplication and the addition of the
    function are exact, the result is within half a unit [10^-decimals] of
    the difference of the arguments, up to the rounding of the final
    quotient (half a unit in the last place of the result). *)
Theorem net_income_accuracy r e d v :
  0 <= d -> exact_steps r e d = true -> net_income r e d = Ok v ->
  (Rabs (SF2R v - (SF2R r - SF2R e)) <= / 2 * / IZR (10 ^ d) + ulp v / 2)%R.
Proof.
  intros Hd H E. unfold exact_steps in H.
  destruct (net_income_inv r e d v Hd E) as (M & n & EM & En & Ev).
  rewrite EM in H. cbn zeta in H.
  apply andb_true_iff in H. destruct H as [H H3].
  apply andb_true_iff in H. destruct H as [H1 H2].
  apply andb_true_iff in H1, H2, H3.
  destruct H1 as [_ E1]. destruct H2 as [_ E2]. destruct H3 as [Fx E3].
  apply dy_eqb_spec in E1, E2, E3.
  rewrite D2R_sub in E1. rewrite D2R_mul in E2. rewrite D2R_add in E3.
  rewrite !D2R_of in *. rewrite D2R_half in E3.
  assert (D2R (10 ^ d, 0) = IZR (10 ^ d)) as EP
    by (unfold D2R; cbn [fst snd]; rewrite bpow_0; lra).
  rewrite EP in E2.
  pose proof (math_floor_spec _ _ En) as Hn. rewrite E3, E2, E1 in Hn.
  pose proof (int_truediv_rounds _ _ _ Ev) as Hv.
  assert (is_finite v = true) as Hf.
  { destruct (rounds_to_valid _ _ Hv) as [_ Hnan]. unfold int_truediv in Ev.
    destruct (10 ^ d =? 0); [discriminate|].
    destruct (SF64div (int_operand n) (int_operand (10 ^ d))); inversion Ev; subst;
      try reflexivity; congruence. }
  pose proof (rounds_to_error _ _ Hv Hf) as Herr.
  assert (0 < 10 ^ d) as Hp by (apply Z.pow_pos_nonneg; lia).
  assert (0 < IZR (10 ^ d))%R as HpR by (apply IZR_lt; lia).
  set (P := IZR (10 ^ d)) in *. set (D := (SF2R r - SF2R e)%R) in *.
  assert (Rabs (IZR n / P - D) <= / 2 * / P)%R as Hq.
  { replace (IZR n / P - D)%R with ((IZR n - D * P) * / P)%R by (field; lra).
    rewrite Rabs_mult, (Rabs_right (/ P)).
    2:{ apply Rle_ge. left. apply Rinv_0_lt_compat. exact HpR. }
    apply Rmult_le_compat_r; [left; apply Rinv_0_lt_compat; exact HpR|].
    apply Rabs_le. lra. }
  replace (SF2R v - D)%R with ((SF2R v - IZR n / P) + (IZR n / P - D))%R by ring.
  eapply Rle_trans; [apply Rabs_triang|]. lra.
Qed.

(** X8 at [net_income(1000.0, 400.0, 2)]. *)
Lemma net_income_accuracy_witness :
  (Rabs (SF2R (lit 600) - (SF2R (lit 1000) - SF2R (lit 400)))
   <= / 2 * / IZR (10 ^ 2) + ulp (lit 600) / 2)%R.
Proof.
  apply (net_income_accuracy (lit 1000) (lit 400) 2 (lit 600));
    [lia | vm_compute; reflexivity | vm_compute; reflexivity].
Defined.

(** X9: the outcome depends on the arguments through their exact
    difference only.  Two pairs of finite arguments with the same
    difference, as real numbers, give the same result or the same
    exception, for every [decimals]. *)
Theorem net_income_difference r1 e1 r2 e2 d :
  finite64 r1 = true -> finite64 e1 = true ->
  finite64 r2 = true -> finite64 e2 = true ->
  dy_eqb (dy_sub (dy_of r1) (dy_of e1)) (dy_sub (dy_of r2) (dy_of e2)) = true ->
  net_income r1 e1 d = net_income r2 e2 d.
Proof.
  intros Hr1 He1 Hr2 He2 H. apply dy_eqb_spec in H.
  rewrite !D2R_sub, !D2R_of in H.
  pose proof (SFsub_rounds r1 e1 Hr1 He1) as R1.
  pose proof (SFsub_rounds r2 e2 Hr2 He2) as R2. rewrite <- H in R2.
  assert (forall y, SF64add (SF64mul (SF64sub r1 e1) y) half
                    = SF64add (SF64mul (SF64sub r2 e2) y) half) as Hy.
  { intros y. destruct (Req_dec (SF2R r1 - SF2R e1) 0) as [E0 | N0].
    - rewrite E0 in R1, R2.
      destruct (rounds_to_zero_inv _ R1) as [s1 ->].
      destruct (rounds_to_zero_inv _ R2) as [s2 ->].
      rewrite (zero_scaled_sum s1), (zero_scaled_sum s2). reflexivity.
    - rewrite (rounds_to_unique _ _ _ R1 R2 N0). reflexivity. }
  unfold net_income. destruct (pow10 d) as [[z | y] |]; [| |reflexivity];
    cbn [bind float_mul].
  - destruct (float_of_int z) as [M|]; [|reflexivity].
    cbn [bind]. rewrite Hy. reflexivity.
  - rewrite Hy. reflexivity.
Qed.

(** X9 at [net_income(1000.0, 400.0, 2)] and [net_income(600.0, 0.0, 2)]. *)
Lemma net_income_difference_witness :
  net_income (lit 1000) (lit 400) 2 = net_income (lit 600) (lit 0) 2.
Proof.
  apply (net_income_difference (lit 1000) (lit 400) (lit 600) (lit 0) 2);
    vm_compute; reflexivity.
Defined.

(** ** Rounding of the scaled difference *)

(** X10: the function moves the scaled difference by less than one unit.
    With [k] the floor of the scaled difference as computed, the result is
    [k / 10^decimals] or [(k + 1) / 10^decimals], and it is the latter
    whenever the fractional part is at least one half. *)
Theorem net_income_half_up r e d x k :
  finite64 r = true -> finite64 e = true -> 0 <= d ->
  scaled_difference r e d = Ok x -> math_floor x = Ok k ->
  (net_income r e d = int_truediv k (10 ^ d) \/
   net_income r e d = int_truediv (k + 1) (10 ^ d)) /\
  (at_least_half x = true -> net_income r e d = int_truediv (k + 1) (10 ^ d)).
Proof.
  intros Hr He Hd Ex Ek.
  unfold scaled_difference, net_income, pow10 in *.
  replace (0 <=? d) with true in * by (symmetry; apply Z.leb_le; exact Hd).
  cbn [bind float_mul int_div_num] in *.
  destruct (float_of_int (10 ^ d)) as [M|] eqn:EM; [|discriminate].
  cbn [bind] in *. inversion Ex; subst x; clear Ex.
  destruct (multiplier_spec d M Hd EM) as (HM & _ & _).
  pose proof (math_floor_finite _ _ Ek) as Fs.
  destruct (SFmul_finite_inv _ _ Fs) as [Fr _].
  pose proof (rounds_to_finite64 _ _ (SFsub_rounds r e Hr He) Fr) as Vr.
  pose proof (rounds_to_finite64 _ _ (SFmul_rounds _ _ Vr HM) Fs) as Vs.
  destruct (floor_add_half _ _ Vs Ek) as (n & -> & Hn & Hup). cbn [bind].
  split.
  - destruct Hn as [-> | ->]; [left | right]; reflexivity.
  - intros H. rewrite (Hup (at_least_half_spec _ _ H Ek)). reflexivity.
Qed.

(** X10 at [net_income(2.75, 0.0, 0)]. *)
Lemma net_income_half_up_witness :
  (net_income (lit 2.75) (lit 0) 0 = int_truediv 2 (10 ^ 0) \/
   net_income (lit 2.75) (lit 0) 0 = int_truediv (2 + 1) (10 ^ 0)) /\
  (at_least_half (lit 2.75) = true ->
   net_income (lit 2.75) (lit 0) 0 = int_truediv (2 + 1) (10 ^ 0)).
Proof.
  apply (net_income_half_up (lit 2.75) (lit 0) 0 (lit 2.75) 2);
    try reflexivity; try lia; vm_compute; reflexivity.
Defined.

(** X11: at a halfway point the swapped call is not the opposite.  When the
    scaled difference is [k + 0.5], the call returns [(k + 1) / 10^decimals]
    and the call with the arguments swapped returns [-k / 10^decimals]: the
    two results are one unit apart from being opposite. *)
Theorem net_income_halfway_swap r e d x k :
  finite64 r = true -> finite64 e = true -> 0 <= d ->
  scaled_difference r e d = Ok x -> halfway x = true -> math_floor x = Ok k ->
  net_income r e d = int_truediv (k + 1) (10 ^ d) /\
  net_income e r d = int_truediv (- k) (10 ^ d).
Proof.
  intros Hr He Hd Ex Hh Ek.
  assert (forall a b y j, finite64 a = true -> finite64 b = true ->
            scaled_difference a b d = Ok y -> halfway y = true -> math_floor y = Ok j ->
            net_income a b d = int_truediv (j + 1) (10 ^ d)) as Hup.
  { intros a b y j Ha Hb Ey Hy Ej.
    unfold scaled_difference, net_income, pow10 in *.
    replace (0 <=? d) with true in * by (symmetry; apply Z.leb_le; exact Hd).
    cbn [bind float_mul int_div_num] in *.
    destruct (float_of_int (10 ^ d)) as [M|] eqn:EM; [|discriminate].
    cbn [bind] in *. inversion Ey; subst y; clear Ey.
    destruct (multiplier_spec d M Hd EM) as (HM & _ & _).
    pose proof (math_floor_finite _ _ Ej) as Fs.
    destruct (SFmul_finite_inv _ _ Fs) as [Fr _].
    pose proof (rounds_to_finite64 _ _ (SFsub_rounds a b Ha Hb) Fr) as Vr.
    pose proof (rounds_to_finite64 _ _ (SFmul_rounds _ _ Vr HM) Fs) as Vs.
    rewrite (add_half_halfway _ _ Vs Hy Ej). reflexivity. }
  split; [exact (Hup r e x k Hr He Ex Hh Ek)|].
  pose proof (math_floor_finite _ _ Ek) as Fx.
  destruct (scaled_difference_swap r e d x Hr He Hd Ex Fx) as (x' & Ex' & Hx').
  destruct Hx' as [-> | (s & s' & -> & _)]; [|discriminate].
  pose proof (halfway_spec _ _ Hh Ek) as Hv.
  assert (math_floor (SFopp x) = Ok (- k - 1)) as Ek'.
  { destruct x as [s | s | | s m ex]; try discriminate.
    pose proof (math_floor_dy (SFopp (S754_finite s m ex)) eq_refl) as En.
    rewrite En. f_equal. pose proof (math_floor_spec _ _ En) as Hn.
    apply (floor_unique _ _ _ Hn).
    cbn [SFopp SF2R] in *. rewrite IZR_cond_Zopp in *. rewrite minus_IZR, opp_IZR.
    destruct s; cbn [negb]; lra. }
  replace (- k) with (- k - 1 + 1) by lia.
  apply (Hup e r (SFopp x) (- k - 1) He Hr Ex'); [|exact Ek'].
  destruct x; try discriminate. exact Hh.
Qed.

(** X11 at [net_income(2.5, 0.0, 0)] and [net_income(0.0, 2.5, 0)]. *)
Lemma net_income_halfway_swap_witness :
  net_income (lit 2.5) (lit 0) 0 = int_truediv (2 + 1) (10 ^ 0) /\
  net_income (lit 0) (lit 2.5) 0 = int_truediv (- 2) (10 ^ 0).
Proof.
  apply (net_income_halfway_swap (lit 2.5) (lit 0) 0 (lit 2.5) 2);
    try reflexivity; try lia; vm_compute; reflexivity.
Defined.
